(** * MazeRunnerPOLICE: maze generation, wall collision and NPC behaviour

    A shallow embedding of [MazeRunnerPOLICE.cpp]: the [Cell] grid of
    [MazeGenerator] with its depth-first [Generate] loop, the wall collision
    test, and the [NPC] think/update automaton.  Rendering, input and the
    window loop are left out.

    - [int] values are [Z]; the grid [Cell grid[MAZE_WIDTH][MAZE_HEIGHT]] is a
      finite map from index pairs to cells, and a [Cell*] is the index pair of
      the cell it points to ([nullptr] is [None]);
    - [float] is IEEE binary32 (24 bits of precision), through the
      parametric operations of [SpecFloat];
    - [rand()] reads a stream of draws that is threaded through every
      function that calls it. *)

From Stdlib Require Import ZArith List Lia.
From Stdlib Require Import Floats.SpecFloat.
From stdpp Require Import base option list gmap.

Open Scope Z_scope.

(** ** binary32 arithmetic *)

Module F32.

Definition prec : Z := 24.
Definition emax : Z := 128.

Definition float : Type := spec_float.

Definition add : float -> float -> float := SFadd prec emax.
Definition sub : float -> float -> float := SFsub prec emax.
Definition mul : float -> float -> float := SFmul prec emax.
Definition div : float -> float -> float := SFdiv prec emax.
Definition sqrtf : float -> float := SFsqrt prec emax.

Definition ltb : float -> float -> bool := SFltb.
Definition eqb : float -> float -> bool := SFeqb.
(** [a > b] and [a != b] of C++ *)
Definition gtb (a b : float) : bool := ltb b a.
Definition neqb (a b : float) : bool := negb (eqb a b).
(** [a >= b]; false when either side is NaN *)
Definition geb (a b : float) : bool := SFleb b a.

(** conversion [int -> float], rounding to nearest even *)
Definition of_int (n : Z) : float := binary_normalize prec emax n 0 false.

(** the decimal literal [n/d] for exactly representable [n] and [d] *)
Definition lit (n d : Z) : float := div (of_int n) (of_int d).

Definition INT_MIN : Z := - 2 ^ 31.
Definition INT_MAX : Z := 2 ^ 31 - 1.

(** the cast [(int)f]: truncation toward zero.  Outside the range of [int]
    (and for NaN) C++ leaves the result undefined; x86 yields [INT_MIN]. *)
Definition to_int (f : float) : Z :=
  match f with
  | S754_zero _ => 0
  | S754_finite s m e =>
      let mag := if 0 <=? e then Z.pos m * 2 ^ e else Z.pos m / 2 ^ (- e) in
      let v := if s then - mag else mag in
      if (INT_MIN <=? v) && (v <=? INT_MAX) then v else INT_MIN
  | _ => INT_MIN
  end.

Definition zero : float := S754_zero false.

End F32.

Abbreviation float := F32.float.

Arguments F32.add : simpl never.
Arguments F32.sub : simpl never.
Arguments F32.mul : simpl never.
Arguments F32.div : simpl never.
Arguments F32.sqrtf : simpl never.
Arguments F32.ltb : simpl never.
Arguments F32.eqb : simpl never.
Arguments F32.of_int : simpl never.
Arguments F32.to_int : simpl never.
Arguments F32.lit : simpl never.

(** ** raymath vectors

    [Vector3] and the functions of raylib's [raymath.h] that the program
    calls. *)

Module Vector3.
Record t : Type := mk { x : float; y : float; z : float }.
End Vector3.

Abbreviation Vector3 := Vector3.t.

Definition Vector3Add (v1 v2 : Vector3) : Vector3 :=
  Vector3.mk (F32.add (Vector3.x v1) (Vector3.x v2))
             (F32.add (Vector3.y v1) (Vector3.y v2))
             (F32.add (Vector3.z v1) (Vector3.z v2)).

Definition Vector3Subtract (v1 v2 : Vector3) : Vector3 :=
  Vector3.mk (F32.sub (Vector3.x v1) (Vector3.x v2))
             (F32.sub (Vector3.y v1) (Vector3.y v2))
             (F32.sub (Vector3.z v1) (Vector3.z v2)).

Definition Vector3Scale (v : Vector3) (scalar : float) : Vector3 :=
  Vector3.mk (F32.mul (Vector3.x v) scalar)
             (F32.mul (Vector3.y v) scalar)
             (F32.mul (Vector3.z v) scalar).

(** [sqrtf(v.x*v.x + v.y*v.y + v.z*v.z)] *)
Definition Vector3Length (v : Vector3) : float :=
  F32.sqrtf (F32.add (F32.add (F32.mul (Vector3.x v) (Vector3.x v))
                              (F32.mul (Vector3.y v) (Vector3.y v)))
                     (F32.mul (Vector3.z v) (Vector3.z v))).

Definition Vector3Distance (v1 v2 : Vector3) : float :=
  let dx := F32.sub (Vector3.x v2) (Vector3.x v1) in
  let dy := F32.sub (Vector3.y v2) (Vector3.y v1) in
  let dz := F32.sub (Vector3.z v2) (Vector3.z v1) in
  F32.sqrtf (F32.add (F32.add (F32.mul dx dx) (F32.mul dy dy)) (F32.mul dz dz)).

(** the vector is left as it is when its length is zero *)
Definition Vector3Normalize (v : Vector3) : Vector3 :=
  let length := Vector3Length v in
  if F32.neqb length F32.zero then
    let ilength := F32.div (F32.of_int 1) length in
    Vector3.mk (F32.mul (Vector3.x v) ilength)
               (F32.mul (Vector3.y v) ilength)
               (F32.mul (Vector3.z v) ilength)
  else v.

(** ** The random source *)

(** The draws [rand()] will return, in order; a draw is never negative. *)
Definition RNG : Type := nat -> nat.

Definition rand (s : RNG) : Z * RNG := (Z.of_nat (s 0%nat), fun i => s (S i)).

(** the stream that yields the draws of [l] and then zeros *)
Definition draws (l : list nat) : RNG := fun i => nth i l 0%nat.

(** ** Settings *)

Class MazeSettings : Type := { MAZE_WIDTH : Z; MAZE_HEIGHT : Z }.

(** the values of the program *)
Definition program_settings : MazeSettings :=
  {| MAZE_WIDTH := 20; MAZE_HEIGHT := 20 |}.

(** small grids for worked examples *)
Definition grid2x2 : MazeSettings := {| MAZE_WIDTH := 2; MAZE_HEIGHT := 2 |}.
Definition grid4x4 : MazeSettings := {| MAZE_WIDTH := 4; MAZE_HEIGHT := 4 |}.

Definition CELL_SIZE : float := F32.of_int 1.
Definition PLAYER_HEIGHT : float := F32.lit 1 2.
Definition PLAYER_RADIUS : float := F32.lit 15 100.
Definition PLAYER_SPEED : float := F32.of_int 3.

(** ** Cells *)

Module Cell.

Record t : Type := mk {
  x : Z;
  y : Z;
  visited : bool;
  walls0 : bool;  (* Top *)
  walls1 : bool;  (* Right *)
  walls2 : bool;  (* Bottom *)
  walls3 : bool   (* Left *)
}.

(** [Cell(int x = 0, int y = 0)]: not visited, the four walls present *)
Definition new (x y : Z) : t := mk x y false true true true true.

(** [c.walls[i]] for [i] in 0..3 *)
Definition walls (c : t) (i : nat) : bool :=
  match i with
  | 0%nat => walls0 c
  | 1%nat => walls1 c
  | 2%nat => walls2 c
  | _ => walls3 c
  end.

(** [c.walls[i] = b] *)
Definition set_walls (i : nat) (b : bool) (c : t) : t :=
  match i with
  | 0%nat => mk (x c) (y c) (visited c) b (walls1 c) (walls2 c) (walls3 c)
  | 1%nat => mk (x c) (y c) (visited c) (walls0 c) b (walls2 c) (walls3 c)
  | 2%nat => mk (x c) (y c) (visited c) (walls0 c) (walls1 c) b (walls3 c)
  | _ => mk (x c) (y c) (visited c) (walls0 c) (walls1 c) (walls2 c) b
  end.

(** [c.visited = b] *)
Definition set_visited (b : bool) (c : t) : t :=
  mk (x c) (y c) b (walls0 c) (walls1 c) (walls2 c) (walls3 c).

End Cell.

#[global] Instance Cell_inhabited : Inhabited Cell.t := populate (Cell.new 0 0).

(** a [Cell*] into the grid: the indices of the cell *)
Abbreviation ptr := (Z * Z)%type.

(** ** MazeGenerator *)

Module MazeGenerator.

Record t : Type := mk {
  grid : gmap (Z * Z) Cell.t;
  pathStack : list ptr  (* top of the stack first *)
}.

(** the cell [p] points to *)
Definition deref (m : t) (p : ptr) : Cell.t := grid m !!! p.

(** a write through [p]: the cell it points to becomes [f] of itself *)
Definition update (p : ptr) (f : Cell.t -> Cell.t) (m : t) : t :=
  mk (<[p := f (deref m p)]> (grid m)) (pathStack m).

Definition push (p : ptr) (m : t) : t := mk (grid m) (p :: pathStack m).
Definition pop (m : t) : t := mk (grid m) (tail (pathStack m)).

Section WithSettings.
Context {settings : MazeSettings}.

(** the index pairs of the grid, in the order the loops of [Initialize]
    walk them *)
Definition cells : list ptr :=
  x ← seqZ 0 MAZE_WIDTH; y ← seqZ 0 MAZE_HEIGHT; [(x, y)].

Definition Initialize (m : t) : t :=
  mk (foldl (fun g p => <[p := Cell.new p.1 p.2]> g) (grid m) cells)
     (pathStack m).

Definition GetCell (x y : Z) : option ptr :=
  if (0 <=? x) && (x <? MAZE_WIDTH) && (0 <=? y) && (y <? MAZE_HEIGHT)
  then Some (x, y)
  else None.

Definition GetUnvisitedNeighbour (m : t) (current : ptr) (s : RNG)
  : option ptr * RNG :=
  let cx := Cell.x (deref m current) in
  let cy := Cell.y (deref m current) in
  let neighbours : list ptr := [] in
  let neighbours :=
    if (cy + 1 <? MAZE_HEIGHT) && negb (Cell.visited (deref m (cx, cy + 1)))
    then neighbours ++ [(cx, cy + 1)] else neighbours in
  let neighbours :=
    if (cx + 1 <? MAZE_WIDTH) && negb (Cell.visited (deref m (cx + 1, cy)))
    then neighbours ++ [(cx + 1, cy)] else neighbours in
  let neighbours :=
    if (0 <=? cy - 1) && negb (Cell.visited (deref m (cx, cy - 1)))
    then neighbours ++ [(cx, cy - 1)] else neighbours in
  let neighbours :=
    if (0 <=? cx - 1) && negb (Cell.visited (deref m (cx - 1, cy)))
    then neighbours ++ [(cx - 1, cy)] else neighbours in
  match neighbours with
  | [] => (None, s)
  | _ :: _ =>
      let '(r, s') := rand s in
      (neighbours !! Z.to_nat (r `rem` Z.of_nat (length neighbours)), s')
  end.

Definition RemoveWall (current next : ptr) (m : t) : t :=
  let dx := Cell.x (deref m current) - Cell.x (deref m next) in
  let dy := Cell.y (deref m current) - Cell.y (deref m next) in
  let m :=
    if dx =? 1 then
      update next (Cell.set_walls 1 false)
        (update current (Cell.set_walls 3 false) m)
    else if dx =? -1 then
      update next (Cell.set_walls 3 false)
        (update current (Cell.set_walls 1 false) m)
    else m in
  if dy =? 1 then
    update next (Cell.set_walls 0 false)
      (update current (Cell.set_walls 2 false) m)
  else if dy =? -1 then
    update next (Cell.set_walls 2 false)
      (update current (Cell.set_walls 0 false) m)
  else m.

(** One turn of the [while] loop of [Generate], entered with a stack
    that is not empty.  The state of the loop is the maze, the local
    [current] and the random source. *)
Definition Generate_body (m : t) (current : ptr) (s : RNG)
  : t * ptr * RNG :=
  match GetUnvisitedNeighbour m current s with
  | (Some next, s') =>
      let m := RemoveWall current next m in
      let m := update next (Cell.set_visited true) m in
      let m := push current m in
      (m, next, s')
  | (None, s') =>
      match pathStack m with
      | top :: _ => (pop m, top, s')
      | [] => (m, current, s')
      end
  end.

(** [while (!pathStack.empty()) body]; [None] when [fuel] turns were
    not enough to leave the loop *)
Fixpoint Generate_loop (fuel : nat) (m : t) (current : ptr) (s : RNG)
  : option (t * RNG) :=
  match pathStack m with
  | [] => Some (m, s)
  | _ :: _ =>
      match fuel with
      | O => None
      | S fuel' =>
          let '(m', current', s') := Generate_body m current s in
          Generate_loop fuel' m' current' s'
      end
  end.

Definition Generate (fuel : nat) (m : t) (s : RNG) : option (t * RNG) :=
  let current : ptr := (0, 0) in
  let m := update current (Cell.set_visited true) m in
  let m := push current m in
  Generate_loop fuel m current s.

(** the state of the loop after [n] turns (it stays put once the stack
    is empty) *)
Fixpoint Generate_turns (n : nat) (m : t) (current : ptr) (s : RNG)
  : t * ptr * RNG :=
  match n with
  | O => (m, current, s)
  | S n' =>
      match pathStack m with
      | [] => (m, current, s)
      | _ :: _ =>
          let '(m', current', s') := Generate_body m current s in
          Generate_turns n' m' current' s'
      end
  end.

Definition GetRandomSpawnPosition (s : RNG) : Vector3 * RNG :=
  let '(r1, s) := rand s in
  let x := r1 `rem` MAZE_WIDTH in
  let '(r2, s) := rand s in
  let y := r2 `rem` MAZE_HEIGHT in
  (Vector3.mk (F32.mul (F32.of_int x) CELL_SIZE)
              (F32.div PLAYER_HEIGHT (F32.of_int 2))
              (F32.mul (F32.of_int y) CELL_SIZE), s).

Definition CheckWallCollision (m : t) (newPos : Vector3) : bool :=
  let half := F32.div CELL_SIZE (F32.of_int 2) in
  let cellX := F32.to_int (F32.div (F32.add (Vector3.x newPos) half) CELL_SIZE) in
  let cellY := F32.to_int (F32.div (F32.add (Vector3.z newPos) half) CELL_SIZE) in
  let localX :=
    F32.sub (Vector3.x newPos)
            (F32.sub (F32.mul (F32.of_int cellX) CELL_SIZE) half) in
  let localY :=
    F32.sub (Vector3.z newPos)
            (F32.sub (F32.mul (F32.of_int cellY) CELL_SIZE) half) in
  match GetCell cellX cellY with
  | None => true
  | Some cell =>
      if Cell.walls (deref m cell) 0
         && F32.gtb localY (F32.sub CELL_SIZE PLAYER_RADIUS) then true
      else if Cell.walls (deref m cell) 1
         && F32.gtb localX (F32.sub CELL_SIZE PLAYER_RADIUS) then true
      else if Cell.walls (deref m cell) 2
         && F32.ltb localY PLAYER_RADIUS then true
      else if Cell.walls (deref m cell) 3
         && F32.ltb localX PLAYER_RADIUS then true
      else false
  end.

End WithSettings.

End MazeGenerator.

(** ** The player's move *)

(** "Apply movement with collision" of [main]: the x and the z component of
    the velocity are tested and committed one after the other; returns the
    new [player.position]. *)
Definition PlayerMove {settings : MazeSettings} (maze : MazeGenerator.t)
    (position velocity : Vector3) : Vector3 :=
  let newPosX :=
    Vector3.mk (F32.add (Vector3.x position) (Vector3.x velocity))
               (Vector3.y position) (Vector3.z position) in
  let newPosZ :=
    Vector3.mk (Vector3.x position) (Vector3.y position)
               (F32.add (Vector3.z position) (Vector3.z velocity)) in
  let position :=
    if negb (MazeGenerator.CheckWallCollision maze newPosX)
    then Vector3.mk (Vector3.x newPosX) (Vector3.y position) (Vector3.z position)
    else position in
  if negb (MazeGenerator.CheckWallCollision maze newPosZ)
  then Vector3.mk (Vector3.x position) (Vector3.y position) (Vector3.z newPosZ)
  else position.

(** ** NPC *)

Module Color.
Record t : Type := mk { r : Z; g : Z; b : Z; a : Z }.
End Color.

Abbreviation Color := Color.t.

Module NPC.

Inductive State : Type := WANDERING | CHASING | FLEEING | PATROLLING.

Record t : Type := mk {
  position : Vector3;
  target : Vector3;
  speed : float;
  thinkTimer : float;
  color : Color;
  state : State
}.

(** the default member initializers, around a given position, target and
    colour *)
Definition new (position target : Vector3) (color : Color) : t :=
  mk position target (F32.of_int 2) F32.zero color WANDERING.

Section WithSettings.
Context {settings : MazeSettings}.

Definition Think (maze : MazeGenerator.t) (playerPos : Vector3)
    (deltaTime : float) (npc : t) (s : RNG) : t * RNG :=
  let thinkTimer := F32.add (thinkTimer npc) deltaTime in
  if F32.gtb thinkTimer (F32.lit 1 2) then
    let thinkTimer := F32.zero in
    let distToPlayer := Vector3Distance (position npc) playerPos in
    if F32.ltb distToPlayer (F32.of_int 3) then
      let awayDir := Vector3Subtract (position npc) playerPos in
      let awayDir := Vector3Normalize awayDir in
      (mk (position npc)
          (Vector3Add (position npc) (Vector3Scale awayDir (F32.of_int 2)))
          (speed npc) thinkTimer (color npc) FLEEING, s)
    else if F32.ltb distToPlayer (F32.of_int 5) then
      (mk (position npc) playerPos (speed npc) thinkTimer (color npc) CHASING, s)
    else
      let '(r, s) := rand s in
      if r `rem` 10 <? 3 then
        let '(spawn, s) := MazeGenerator.GetRandomSpawnPosition s in
        (mk (position npc) spawn (speed npc) thinkTimer (color npc) WANDERING, s)
      else
        (mk (position npc) (target npc) (speed npc) thinkTimer (color npc)
            WANDERING, s)
  else
    (mk (position npc) (target npc) (speed npc) thinkTimer (color npc)
        (state npc), s).

Definition Update (maze : MazeGenerator.t) (deltaTime : float) (npc : t)
    (s : RNG) : t * RNG :=
  let direction := Vector3Subtract (target npc) (position npc) in
  let distance := Vector3Length direction in
  if F32.gtb distance (F32.lit 1 10) then
    let direction := Vector3Normalize direction in
    let move := Vector3Scale direction (F32.mul (speed npc) deltaTime) in
    let newPos := Vector3Add (position npc) move in
    if negb (MazeGenerator.CheckWallCollision maze newPos) then
      (mk newPos (target npc) (speed npc) (thinkTimer npc) (color npc)
          (state npc), s)
    else
      let '(spawn, s) := MazeGenerator.GetRandomSpawnPosition s in
      (mk (position npc) spawn (speed npc) (thinkTimer npc) (color npc)
          (state npc), s)
  else (npc, s).

(** the displacement [Update] attempts, the local [move]: the unit vector
    toward the target scaled by [speed * deltaTime] *)
Definition move (deltaTime : float) (npc : t) : Vector3 :=
  Vector3Scale
    (Vector3Normalize (Vector3Subtract (target npc) (position npc)))
    (F32.mul (speed npc) deltaTime).

(** a call of [Think] or of [Update] on the maze of that moment, as the
    frame loop issues them *)
Inductive call : Type :=
| CallThink (maze : MazeGenerator.t) (playerPos : Vector3) (deltaTime : float)
| CallUpdate (maze : MazeGenerator.t) (deltaTime : float).

Definition run_call (st : t * RNG) (c : call) : t * RNG :=
  match c with
  | CallThink maze playerPos deltaTime => Think maze playerPos deltaTime st.1 st.2
  | CallUpdate maze deltaTime => Update maze deltaTime st.1 st.2
  end.

Definition run (calls : list call) (npc : t) (s : RNG) : t * RNG :=
  foldl run_call (npc, s) calls.

End WithSettings.

End NPC.

(** ** Vocabulary of the properties *)

(** the four sides of a cell, in the order of [Cell::walls] *)
Inductive side : Type := Top | Right | Bottom | Left.

#[global] Instance side_eq_dec : EqDecision side.
Proof. solve_decision. Defined.

Definition index (d : side) : nat :=
  match d with Top => 0 | Right => 1 | Bottom => 2 | Left => 3 end%nat.

Definition opposite (d : side) : side :=
  match d with Top => Bottom | Right => Left | Bottom => Top | Left => Right end.

(** the indices of the cell beyond side [d] of cell [p], as [RemoveWall]
    pairs them: [walls[0]] looks at [y + 1], [walls[1]] at [x + 1],
    [walls[2]] at [y - 1] and [walls[3]] at [x - 1] *)
Definition neighbour (p : ptr) (d : side) : ptr :=
  match d with
  | Top => (p.1, p.2 + 1)
  | Right => (p.1 + 1, p.2)
  | Bottom => (p.1, p.2 - 1)
  | Left => (p.1 - 1, p.2)
  end.

(** [std::count_if] *)
Fixpoint count_if {A : Type} (f : A -> bool) (l : list A) : nat :=
  match l with
  | [] => 0%nat
  | x :: l' => ((if f x then 1 else 0) + count_if f l')%nat
  end.

Section Vocabulary.
Context {settings : MazeSettings}.

Definition in_grid (p : ptr) : Prop :=
  (0 <= p.1 < MAZE_WIDTH) /\ (0 <= p.2 < MAZE_HEIGHT).

Definition in_gridb (p : ptr) : bool :=
  (0 <=? p.1) && (p.1 <? MAZE_WIDTH) && (0 <=? p.2) && (p.2 <? MAZE_HEIGHT).

(** the wall flag of cell [p] on side [d] *)
Definition wall (m : MazeGenerator.t) (p : ptr) (d : side) : bool :=
  Cell.walls (MazeGenerator.deref m p) (index d).

Definition visited (m : MazeGenerator.t) (p : ptr) : bool :=
  Cell.visited (MazeGenerator.deref m p).

(** The passage through side [d] of [p] is open: [p] and the cell beyond
    are both in the grid and both have cleared the flag of the wall they
    share. *)
Definition passage (m : MazeGenerator.t) (p : ptr) (d : side) : bool :=
  in_gridb p && in_gridb (neighbour p d)
  && negb (wall m p d) && negb (wall m (neighbour p d) (opposite d)).

(** one step of a flood fill: from [p] through an open passage to [q] *)
Definition linked (m : MazeGenerator.t) (p q : ptr) : Prop :=
  exists d, q = neighbour p d /\ passage m p d = true.

(** what a flood fill started at [p] visits *)
Definition reachable (m : MazeGenerator.t) (p q : ptr) : Prop :=
  rtc (linked m) p q.

(** Every pair of adjacent cells is counted once, from its lower or its
    left cell. *)
Definition open_pairs (m : MazeGenerator.t) : nat :=
  (count_if (fun p => passage m p Top) MazeGenerator.cells
   + count_if (fun p => passage m p Right) MazeGenerator.cells)%nat.

Definition count_visited (m : MazeGenerator.t) : nat :=
  count_if (visited m) MazeGenerator.cells.

(** consecutive cells of [l] are joined by open passages *)
Fixpoint path (m : MazeGenerator.t) (l : list ptr) : Prop :=
  match l with
  | p :: (q :: _) as l' => linked m p q /\ path m l'
  | _ => True
  end.

(** a cycle of the passage graph: at least three cells, no cell twice, each
    joined to the next and the last joined to the first *)
Definition cycle (m : MazeGenerator.t) (l : list ptr) : Prop :=
  (3 <= length l)%nat /\ NoDup l /\ path m l
  /\ exists p q, head l = Some p /\ last l = Some q /\ linked m q p.

(** the flags of the two sides of every wall inside the grid agree *)
Definition symmetric (m : MazeGenerator.t) : Prop :=
  forall p d, in_grid p -> in_grid (neighbour p d) ->
    (wall m p d = false <-> wall m (neighbour p d) (opposite d) = false).

(** [RemoveWall] over a list of pairs of cell pointers, first pair first *)
Definition RemoveWalls (calls : list (ptr * ptr)) (m : MazeGenerator.t)
  : MazeGenerator.t :=
  foldl (fun m c => MazeGenerator.RemoveWall c.1 c.2 m) m calls.

(** the two cells share a side *)
Definition adjacent (p q : ptr) : Prop := exists d, q = neighbour p d.

(** the [x] and [y] members of every cell of the grid are its indices *)
Definition coordinates_ok (m : MazeGenerator.t) : Prop :=
  forall p, in_grid p ->
    Cell.x (MazeGenerator.deref m p) = p.1
    /\ Cell.y (MazeGenerator.deref m p) = p.2.

(** What a turn of the loop of [Generate] that finds an unvisited neighbour
    beyond side [d] of [current] does to the maze. *)
Record forward_step (m : MazeGenerator.t) (current : ptr) (d : side)
    (m' : MazeGenerator.t) : Prop := {
  fs_next_in : in_grid (neighbour current d);
  fs_next_unvisited : visited m (neighbour current d) = false;
  fs_coordinates : coordinates_ok m';
  fs_visited : forall q,
    visited m' q = if decide (q = neighbour current d) then true else visited m q;
  fs_wall : forall q e,
    wall m' q e
    = if decide ((q = current /\ e = d)
                 \/ (q = neighbour current d /\ e = opposite d))
      then false else wall m q e;
  fs_stack :
    MazeGenerator.pathStack m' = current :: MazeGenerator.pathStack m
}.

(** The invariant of the loop of [Generate], on the maze and the local
    [current]. *)
Record generate_inv (m : MazeGenerator.t) (current : ptr) : Prop := {
  gi_coordinates : coordinates_ok m;
  gi_current : in_grid current /\ visited m current = true;
  gi_stack :
    Forall (fun p => in_grid p /\ visited m p = true) (MazeGenerator.pathStack m);
  gi_origin : in_grid (0, 0) /\ visited m (0, 0) = true;
  (** a cleared flag belongs to a wall between two visited cells of the
      grid, and the flag on the other side is cleared too *)
  gi_walls : forall p d, in_grid p -> wall m p d = false ->
    visited m p = true /\ in_grid (neighbour p d)
    /\ visited m (neighbour p d) = true
    /\ wall m (neighbour p d) (opposite d) = false;
  gi_count : count_visited m = S (open_pairs m);
  gi_reach : forall p, in_grid p -> visited m p = true -> reachable m (0, 0) p;
  gi_acyclic : forall l, ~ cycle m l;
  (** a visited cell that still has an unvisited neighbour is [current] or
      is on the stack above its bottom entry *)
  gi_frontier : forall p d, in_grid p -> visited m p = true ->
    in_grid (neighbour p d) -> visited m (neighbour p d) = false ->
    p ∈ removelast (current :: MazeGenerator.pathStack m)
}.

(** What [Generate] leaves behind. *)
Record generated (m : MazeGenerator.t) : Prop := {
  gen_coordinates : coordinates_ok m;
  gen_stack : MazeGenerator.pathStack m = [];
  gen_visited : forall p, in_grid p -> visited m p = true;
  gen_walls : forall p d, in_grid p -> wall m p d = false ->
    in_grid (neighbour p d) /\ wall m (neighbour p d) (opposite d) = false;
  gen_count : count_visited m = S (open_pairs m);
  gen_reach : forall p, in_grid p -> reachable m (0, 0) p;
  gen_acyclic : forall l, ~ cycle m l
}.

End Vocabulary.

(** a maze object as its constructor leaves it: default cells, empty stack *)
Definition fresh_maze : MazeGenerator.t := MazeGenerator.mk ∅ [].

(** the maze as [Generate] enters its loop: cell (0,0) marked and pushed *)
Definition Generate_entry (m : MazeGenerator.t) : MazeGenerator.t :=
  MazeGenerator.push (0, 0)
    (MazeGenerator.update (0, 0) (Cell.set_visited true) m).

(** the position [GetRandomSpawnPosition] builds for the cell with indices [p] *)
Definition cell_centre (p : ptr) : Vector3 :=
  Vector3.mk (F32.mul (F32.of_int p.1) CELL_SIZE)
             (F32.div PLAYER_HEIGHT (F32.of_int 2))
             (F32.mul (F32.of_int p.2) CELL_SIZE).

(** the cell indices [CheckWallCollision] computes for a position *)
Definition cell_index (newPos : Vector3) : ptr :=
  let half := F32.div CELL_SIZE (F32.of_int 2) in
  (F32.to_int (F32.div (F32.add (Vector3.x newPos) half) CELL_SIZE),
   F32.to_int (F32.div (F32.add (Vector3.z newPos) half) CELL_SIZE)).

(** ** Worked inputs *)

(** the maze of the program for the draws 1, 0, 0, ...: cell (0,0) is open
    to the right and closed on its three other sides *)
Definition example_maze : MazeGenerator.t :=
  match MazeGenerator.Generate (settings := program_settings) 800
          (MazeGenerator.Initialize (settings := program_settings) fresh_maze)
          (draws [1; 0; 0]%nat) with
  | Some (m, _) => m
  | None => fresh_maze
  end.

(** an NPC in cell (0,0), 0.34375 above its centre, heading for (10, 10) *)
Definition example_npc : NPC.t :=
  NPC.new (Vector3.mk F32.zero (F32.lit 1 4) (F32.lit 11 32))
          (Vector3.mk (F32.of_int 10) (F32.lit 1 4) (F32.of_int 10))
          (Color.mk 255 0 0 255).

(** a frame of 1/64 s *)
Definition example_deltaTime : float := F32.lit 1 64.

(** ** Drawing, the player and the frame loop *)

Definition WALL_HEIGHT : float := F32.lit 3 2.
Definition WALL_THICKNESS : float := F32.lit 1 10.
Definition MOUSE_SENSITIVITY : float := F32.lit 3 1000.

(** the colours of [raylib.h] that the program names *)
Definition DARKGRAY : Color := Color.mk 80 80 80 255.
Definition GRAY : Color := Color.mk 130 130 130 255.
Definition YELLOW : Color := Color.mk 253 249 0 255.
Definition RED : Color := Color.mk 230 41 55 255.
Definition BLUE : Color := Color.mk 0 121 241 255.
Definition BLACK : Color := Color.mk 0 0 0 255.
Definition WHITE : Color := Color.mk 255 255 255 255.

(** The drawing functions write to the screen only; a drawing function is
    modelled by the list of raylib calls it makes, in order. *)
Inductive raylib_call : Type :=
| DrawCubeV (position size : Vector3) (color : Color)
| DrawCubeWiresV (position size : Vector3) (color : Color)
| DrawSphere (centerPos : Vector3) (radius : float) (color : Color)
| DrawSphereWires (centerPos : Vector3) (radius : float) (rings slices : Z)
    (color : Color).

(** [MazeGenerator::DrawWall] *)
Definition DrawWall (position : Vector3) (rotated : bool) : list raylib_call :=
  let size :=
    if rotated
    then Vector3.mk WALL_THICKNESS WALL_HEIGHT (F32.add CELL_SIZE WALL_THICKNESS)
    else Vector3.mk (F32.add CELL_SIZE WALL_THICKNESS) WALL_HEIGHT WALL_THICKNESS in
  [DrawCubeV position size DARKGRAY; DrawCubeWiresV position size BLACK].

(** the body of the loops of [MazeGenerator::Draw] at the indices [x], [y] *)
Definition Draw_body (m : MazeGenerator.t) (x y : Z) : list raylib_call :=
  let current := MazeGenerator.deref m (x, y) in
  let half := F32.div CELL_SIZE (F32.of_int 2) in
  let pos :=
    Vector3.mk (F32.mul (F32.of_int x) CELL_SIZE)
               (F32.div WALL_HEIGHT (F32.of_int 2))
               (F32.mul (F32.of_int y) CELL_SIZE) in
  (if Cell.walls current 0
   then DrawWall (Vector3.mk (Vector3.x pos) (Vector3.y pos)
                             (F32.add (Vector3.z pos) half)) false
   else [])
  ++ (if Cell.walls current 1
      then DrawWall (Vector3.mk (F32.add (Vector3.x pos) half) (Vector3.y pos)
                                (Vector3.z pos)) true
      else [])
  ++ (if (y =? 0) && Cell.walls current 2
      then DrawWall (Vector3.mk (Vector3.x pos) (Vector3.y pos)
                                (F32.sub (Vector3.z pos) half)) false
      else [])
  ++ (if (x =? 0) && Cell.walls current 3
      then DrawWall (Vector3.mk (F32.sub (Vector3.x pos) half) (Vector3.y pos)
                                (Vector3.z pos)) true
      else []).

(** [MazeGenerator::Draw]: the loops walk the cells as those of
    [Initialize] do *)
Definition Draw {settings : MazeSettings} (m : MazeGenerator.t)
  : list raylib_call :=
  p ← MazeGenerator.cells; Draw_body m p.1 p.2.

(** the colour of the indicator [NPC::Draw] puts above an NPC *)
Definition stateColor (state : NPC.State) : Color :=
  match state with
  | NPC.WANDERING => GRAY
  | NPC.CHASING => YELLOW
  | NPC.FLEEING => RED
  | NPC.PATROLLING => BLUE
  end.

(** [NPC::Draw] *)
Definition NPC_Draw (npc : NPC.t) : list raylib_call :=
  let stateColor := stateColor (NPC.state npc) in
  let indicatorPos :=
    Vector3Add (NPC.position npc) (Vector3.mk F32.zero (F32.lit 1 2) F32.zero) in
  [DrawSphere (NPC.position npc) (F32.mul PLAYER_RADIUS (F32.lit 3 2))
     (NPC.color npc);
   DrawSphereWires (NPC.position npc) (F32.mul PLAYER_RADIUS (F32.lit 3 2)) 8 8
     BLACK;
   DrawSphere indicatorPos (F32.lit 1 10) stateColor].

Module Vector2.
Record t : Type := mk { x : float; y : float }.
End Vector2.

Module Player.
Record t : Type := mk { position : Vector3; yaw : float; pitch : float }.
End Player.

(** "Mouse look" of [main]: the angles follow the mouse and the pitch is
    clamped to [-1.5, 1.5] *)
Definition MouseLook (mouseDelta : Vector2.t) (player : Player.t) : Player.t :=
  let yaw :=
    F32.sub (Player.yaw player) (F32.mul (Vector2.x mouseDelta) MOUSE_SENSITIVITY) in
  let pitch :=
    F32.sub (Player.pitch player)
            (F32.mul (Vector2.y mouseDelta) MOUSE_SENSITIVITY) in
  let pitch := if F32.gtb pitch (F32.lit 3 2) then F32.lit 3 2 else pitch in
  let pitch := if F32.ltb pitch (F32.lit (-3) 2) then F32.lit (-3) 2 else pitch in
  Player.mk (Player.position player) yaw pitch.

(** the cast [(unsigned char)n] *)
Definition to_uchar (n : Z) : Z := n `mod` 256.

Section Frame.
Context {settings : MazeSettings}.

(** "Update NPCs" of [main]: [Think] and then [Update] for each NPC in turn *)
Fixpoint UpdateNPCs (maze : MazeGenerator.t) (playerPos : Vector3)
    (deltaTime : float) (npcs : list NPC.t) (s : RNG) : list NPC.t * RNG :=
  match npcs with
  | [] => ([], s)
  | npc :: rest =>
      let '(npc, s) := NPC.Think maze playerPos deltaTime npc s in
      let '(npc, s) := NPC.Update maze deltaTime npc s in
      let '(rest, s) := UpdateNPCs maze playerPos deltaTime rest s in
      (npc :: rest, s)
  end.

(** one turn of the loop "Create NPCs" of [main] *)
Definition CreateNPC (s : RNG) : NPC.t * RNG :=
  let '(position, s) := MazeGenerator.GetRandomSpawnPosition s in
  let '(target, s) := MazeGenerator.GetRandomSpawnPosition s in
  let '(r1, s) := rand s in
  let '(r2, s) := rand s in
  let '(r3, s) := rand s in
  let color :=
    Color.mk (to_uchar (r1 `rem` 200 + 55)) (to_uchar (r2 `rem` 200 + 55))
             (to_uchar (r3 `rem` 200 + 55)) 255 in
  (NPC.new position target color, s).

Fixpoint CreateNPCs (n : nat) (s : RNG) : list NPC.t * RNG :=
  match n with
  | O => ([], s)
  | S n' =>
      let '(npc, s) := CreateNPC s in
      let '(rest, s) := CreateNPCs n' s in
      (npc :: rest, s)
  end.

(** "Respawn NPCs" of [main]: a new position and a new target for each *)
Fixpoint RespawnNPCs (npcs : list NPC.t) (s : RNG) : list NPC.t * RNG :=
  match npcs with
  | [] => ([], s)
  | npc :: rest =>
      let '(position, s) := MazeGenerator.GetRandomSpawnPosition s in
      let '(target, s) := MazeGenerator.GetRandomSpawnPosition s in
      let npc :=
        NPC.mk position target (NPC.speed npc) (NPC.thinkTimer npc)
               (NPC.color npc) (NPC.state npc) in
      let '(rest, s) := RespawnNPCs rest s in
      (npc :: rest, s)
  end.

(** what [main] simulates: the maze, the player and the NPCs *)
Record World : Type := mkWorld {
  maze : MazeGenerator.t;
  player : Player.t;
  npcs : list NPC.t
}.

(** [main] up to its frame loop: the maze is generated, the player is put
    on a spawn position and ten NPCs are created *)
Definition Startup (fuel : nat) (s : RNG) : option (World * RNG) :=
  match MazeGenerator.Generate fuel (MazeGenerator.Initialize fresh_maze) s with
  | None => None
  | Some (maze, s) =>
      let '(position, s) := MazeGenerator.GetRandomSpawnPosition s in
      let player := Player.mk position F32.zero F32.zero in
      let '(npcs, s) := CreateNPCs 10 s in
      Some (mkWorld maze player npcs, s)
  end.

(** "Regenerate maze on R key" of [main] *)
Definition Regenerate (fuel : nat) (w : World) (s : RNG) : option (World * RNG) :=
  match MazeGenerator.Generate fuel (MazeGenerator.Initialize (maze w)) s with
  | None => None
  | Some (maze, s) =>
      let '(position, s) := MazeGenerator.GetRandomSpawnPosition s in
      let player := Player.mk position (Player.yaw (player w)) (Player.pitch (player w)) in
      let '(npcs, s) := RespawnNPCs (npcs w) s in
      Some (mkWorld maze player npcs, s)
  end.

End Frame.

(** ** More vocabulary *)

(** the stream [s] after [k] draws *)
Definition advance (k : nat) (s : RNG) : RNG := fun i => s (k + i)%nat.

(** the offsets of a position inside its cell, as [CheckWallCollision]
    computes them *)
Definition localX (newPos : Vector3) : float :=
  F32.sub (Vector3.x newPos)
    (F32.sub (F32.mul (F32.of_int (cell_index newPos).1) CELL_SIZE)
             (F32.div CELL_SIZE (F32.of_int 2))).

Definition localY (newPos : Vector3) : float :=
  F32.sub (Vector3.z newPos)
    (F32.sub (F32.mul (F32.of_int (cell_index newPos).2) CELL_SIZE)
             (F32.div CELL_SIZE (F32.of_int 2))).

(** the position is farther than the player's radius from the four sides
    of its cell *)
Definition clear_of_sides (newPos : Vector3) : bool :=
  negb (F32.gtb (localY newPos) (F32.sub CELL_SIZE PLAYER_RADIUS))
  && negb (F32.gtb (localX newPos) (F32.sub CELL_SIZE PLAYER_RADIUS))
  && negb (F32.ltb (localY newPos) PLAYER_RADIUS)
  && negb (F32.ltb (localX newPos) PLAYER_RADIUS).

(** along one axis: the centre of cell [k] maps back to index [k] and is
    clear of both sides *)
Definition centre_ok (k : Z) : bool :=
  let half := F32.div CELL_SIZE (F32.of_int 2) in
  let c := F32.mul (F32.of_int k) CELL_SIZE in
  let idx := F32.to_int (F32.div (F32.add c half) CELL_SIZE) in
  let loc := F32.sub c (F32.sub (F32.mul (F32.of_int idx) CELL_SIZE) half) in
  (idx =? k)
  && negb (F32.gtb loc (F32.sub CELL_SIZE PLAYER_RADIUS))
  && negb (F32.ltb loc PLAYER_RADIUS).

(** the widths and heights for which [centre_ok] has been evaluated *)
Definition checked_size : Z := 4096.

(** the call, if it is an [Update], is made on [maze] *)
Definition update_on (maze : MazeGenerator.t) (c : NPC.call) : Prop :=
  match c with
  | NPC.CallUpdate m _ => m = maze
  | NPC.CallThink _ _ _ => True
  end.

(** the candidates "Apply movement with collision" of [main] tests *)
Definition newPosX (position velocity : Vector3) : Vector3 :=
  Vector3.mk (F32.add (Vector3.x position) (Vector3.x velocity))
             (Vector3.y position) (Vector3.z position).

Definition newPosZ (position velocity : Vector3) : Vector3 :=
  Vector3.mk (Vector3.x position) (Vector3.y position)
             (F32.add (Vector3.z position) (Vector3.z velocity)).

(** the position is the centre of a cell of the grid *)
Definition on_cell_centre {settings : MazeSettings} (v : Vector3) : Prop :=
  exists p, in_grid p /\ v = cell_centre p.

(** an NPC as "Create NPCs" of [main] makes it *)
Definition created {settings : MazeSettings} (npc : NPC.t) : Prop :=
  on_cell_centre (NPC.position npc) /\ on_cell_centre (NPC.target npc)
  /\ NPC.speed npc = F32.of_int 2 /\ NPC.thinkTimer npc = F32.zero
  /\ NPC.state npc = NPC.WANDERING
  /\ 55 <= Color.r (NPC.color npc) <= 254
  /\ 55 <= Color.g (NPC.color npc) <= 254
  /\ 55 <= Color.b (NPC.color npc) <= 254
  /\ Color.a (NPC.color npc) = 255.

(** what "Respawn NPCs" of [main] does to an NPC: a new position and a new
    target on cell centres, the rest kept *)
Definition respawned {settings : MazeSettings} (npc npc' : NPC.t) : Prop :=
  on_cell_centre (NPC.position npc') /\ on_cell_centre (NPC.target npc')
  /\ NPC.speed npc' = NPC.speed npc /\ NPC.thinkTimer npc' = NPC.thinkTimer npc
  /\ NPC.color npc' = NPC.color npc /\ NPC.state npc' = NPC.state npc.

(** what a frame keeps of an NPC in the maze [maze] *)
Definition kept_by_frame {settings : MazeSettings} (maze : MazeGenerator.t)
    (npc npc' : NPC.t) : Prop :=
  NPC.speed npc' = NPC.speed npc /\ NPC.color npc' = NPC.color npc
  /\ (MazeGenerator.CheckWallCollision maze (NPC.position npc) = false ->
      MazeGenerator.CheckWallCollision maze (NPC.position npc') = false)
  /\ (NPC.state npc <> NPC.PATROLLING -> NPC.state npc' <> NPC.PATROLLING).

(** ** The frame loop *)

(** What a turn of the frame loop of [main] reads from the host: the frame
    time, the mouse delta, whether R was pressed, and the [velocity] that
    "Movement" computes from the arrow keys and from [Player::GetForward]
    and [Player::GetRight].  Those two call [sinf] and [cosf], which are not
    modelled, so the velocity is taken as it comes out. *)
Module Input.
Record t : Type := mk {
  deltaTime : float;
  mouseDelta : Vector2.t;
  velocity : Vector3;
  keyR : bool
}.
End Input.

Section FrameLoop.
Context {settings : MazeSettings}.

(** the simulation part of one turn of the frame loop of [main]: mouse
    look, movement with collision, the NPCs, and the regeneration on R *)
Definition Frame (fuel : nat) (input : Input.t) (w : World) (s : RNG)
  : option (World * RNG) :=
  let player := MouseLook (Input.mouseDelta input) (player w) in
  let player :=
    Player.mk (PlayerMove (maze w) (Player.position player) (Input.velocity input))
              (Player.yaw player) (Player.pitch player) in
  let '(npcs, s) :=
    UpdateNPCs (maze w) (Player.position player) (Input.deltaTime input)
               (npcs w) s in
  let w := mkWorld (maze w) player npcs in
  if Input.keyR input then Regenerate fuel w s else Some (w, s).

Fixpoint Frames (fuel : nat) (inputs : list Input.t) (w : World) (s : RNG)
  : option (World * RNG) :=
  match inputs with
  | [] => Some (w, s)
  | input :: rest =>
      match Frame fuel input w s with
      | None => None
      | Some (w, s) => Frames fuel rest w s
      end
  end.

(** [main] from its start through the frames of [inputs] *)
Definition Session (fuel : nat) (inputs : list Input.t) (s : RNG)
  : option (World * RNG) :=
  match Startup fuel s with
  | None => None
  | Some (w, s) => Frames fuel inputs w s
  end.

(** what holds of the world between two frames *)
Definition world_inv (w : World) : Prop :=
  generated (maze w)
  /\ F32.gtb (Player.pitch (player w)) (F32.lit 3 2) = false
  /\ F32.ltb (Player.pitch (player w)) (F32.lit (-3) 2) = false
  /\ length (npcs w) = 10%nat
  /\ Forall (fun npc =>
               MazeGenerator.CheckWallCollision (maze w) (NPC.position npc)
               = false
               /\ NPC.state npc <> NPC.PATROLLING
               /\ NPC.speed npc = F32.of_int 2) (npcs w).

End FrameLoop.

(** ** The walls Draw draws *)

Definition sides : list side := [Top; Right; Bottom; Left].

(** [Draw] looks at the side [d] of the cell [p]: always at the top and the
    right side, at the bottom side in the row [y = 0] only and at the left
    side in the column [x = 0] only *)
Definition drawn_from (p : ptr) (d : side) : bool :=
  match d with
  | Top | Right => true
  | Bottom => p.2 =? 0
  | Left => p.1 =? 0
  end.

(** the walls [Draw] draws, each named by the cell and the side it is drawn
    from, in the order of the calls *)
Definition drawn {settings : MazeSettings} (m : MazeGenerator.t)
  : list (ptr * side) :=
  p ← MazeGenerator.cells;
  pair p <$> filter (fun d => wall m p d && drawn_from p d = true) sides.

(** the position [Draw] passes to [DrawWall] for the side [d] of cell [p] *)
Definition wall_position (p : ptr) (d : side) : Vector3 :=
  let half := F32.div CELL_SIZE (F32.of_int 2) in
  let pos :=
    Vector3.mk (F32.mul (F32.of_int p.1) CELL_SIZE)
               (F32.div WALL_HEIGHT (F32.of_int 2))
               (F32.mul (F32.of_int p.2) CELL_SIZE) in
  match d with
  | Top =>
      Vector3.mk (Vector3.x pos) (Vector3.y pos) (F32.add (Vector3.z pos) half)
  | Right =>
      Vector3.mk (F32.add (Vector3.x pos) half) (Vector3.y pos) (Vector3.z pos)
  | Bottom =>
      Vector3.mk (Vector3.x pos) (Vector3.y pos) (F32.sub (Vector3.z pos) half)
  | Left =>
      Vector3.mk (F32.sub (Vector3.x pos) half) (Vector3.y pos) (Vector3.z pos)
  end.

(** the flag [rotated] [Draw] passes to [DrawWall] for a wall on side [d] *)
Definition wall_rotated (d : side) : bool :=
  match d with Top | Bottom => false | Right | Left => true end.

(** the size [DrawWall] gives the wall on side [d] *)
Definition wall_size (d : side) : Vector3 :=
  match d with
  | Top | Bottom =>
      Vector3.mk (F32.add CELL_SIZE WALL_THICKNESS) WALL_HEIGHT WALL_THICKNESS
  | Right | Left =>
      Vector3.mk WALL_THICKNESS WALL_HEIGHT (F32.add CELL_SIZE WALL_THICKNESS)
  end.

(** the calls of [DrawWall] for the wall on side [w.2] of the cell [w.1] *)
Definition wall_calls (w : ptr * side) : list raylib_call :=
  DrawWall (wall_position w.1 w.2) (wall_rotated w.2).

(** * Proofs *)

(** ** Sides and neighbours *)

Lemma opposite_opposite d : opposite (opposite d) = d.
Proof. by destruct d. Qed.

Lemma neighbour_opposite p d : neighbour (neighbour p d) (opposite d) = p.
Proof. destruct p as [px py], d; simpl; f_equal; lia. Qed.

Lemma neighbour_inj p q d : neighbour p d = neighbour q d -> p = q.
Proof.
  destruct p as [px py], q as [qx qy], d; simpl; intros H; inversion H;
    f_equal; lia.
Qed.

Lemma neighbour_ne p d : neighbour p d <> p.
Proof. destruct p as [px py], d; simpl; intros H; inversion H; lia. Qed.

Lemma neighbour_side_inj p d e : neighbour p d = neighbour p e -> d = e.
Proof.
  destruct p as [px py], d, e; simpl; intros H; inversion H;
    try reflexivity; lia.
Qed.

Lemma neighbour_twice_ne p d e : neighbour (neighbour p d) e = p -> e = opposite d.
Proof.
  destruct p as [px py], d, e; simpl; intros H; inversion H;
    try reflexivity; lia.
Qed.

(** ** Reads and writes through cell pointers *)

Lemma deref_update p q f m :
  MazeGenerator.deref (MazeGenerator.update p f m) q
  = if decide (p = q) then f (MazeGenerator.deref m p) else MazeGenerator.deref m q.
Proof.
  unfold MazeGenerator.deref, MazeGenerator.update; simpl.
  case_decide as Hpq.
  - subst q. by rewrite lookup_total_insert_eq.
  - by rewrite lookup_total_insert_ne.
Qed.

Lemma pathStack_update p f m :
  MazeGenerator.pathStack (MazeGenerator.update p f m) = MazeGenerator.pathStack m.
Proof. reflexivity. Qed.

Lemma deref_push p q m :
  MazeGenerator.deref (MazeGenerator.push p m) q = MazeGenerator.deref m q.
Proof. reflexivity. Qed.

Lemma deref_pop q m :
  MazeGenerator.deref (MazeGenerator.pop m) q = MazeGenerator.deref m q.
Proof. reflexivity. Qed.

(** ** Counting *)

Lemma count_if_ext {A} (f f' : A -> bool) l :
  (forall x, x ∈ l -> f' x = f x) -> count_if f' l = count_if f l.
Proof.
  induction l as [|x l IH]; intros Hext; simpl; [done|].
  rewrite (Hext x) by left. rewrite IH; [done|].
  intros y Hy. apply Hext. by right.
Qed.

Lemma count_if_le_length {A} (f : A -> bool) l : (count_if f l <= length l)%nat.
Proof. induction l as [|x l IH]; simpl; [lia|]. destruct (f x); lia. Qed.

Lemma count_if_none {A} (f : A -> bool) l :
  (forall x, x ∈ l -> f x = false) -> count_if f l = 0%nat.
Proof.
  induction l as [|x l IH]; intros Hf; simpl; [done|].
  rewrite (Hf x) by left. rewrite IH; [done|].
  intros y Hy. apply Hf. by right.
Qed.

Lemma count_if_all {A} (f : A -> bool) l :
  (forall x, x ∈ l -> f x = true) -> count_if f l = length l.
Proof.
  induction l as [|x l IH]; intros Hf; simpl; [done|].
  rewrite (Hf x) by left. rewrite IH; [done|].
  intros y Hy. apply Hf. by right.
Qed.

(** switching one element of a duplicate-free list on adds one to the count *)
Lemma count_if_switch_on {A} (f f' : A -> bool) l x :
  NoDup l -> x ∈ l -> f x = false -> f' x = true ->
  (forall y, y ∈ l -> y <> x -> f' y = f y) ->
  count_if f' l = S (count_if f l).
Proof.
  induction l as [|y l IH]; intros Hnd Hin Hx Hx' Hother.
  - by apply elem_of_nil in Hin.
  - apply NoDup_cons in Hnd as [Hy Hnd]. simpl.
    apply elem_of_cons in Hin as [->|Hin].
    + rewrite Hx, Hx'.
      rewrite (count_if_ext f f' l); [done|].
      intros z Hz. apply Hother; [by right|]. intros ->. done.
    + rewrite (Hother y); [|by left|by intros ->].
      rewrite (IH Hnd Hin Hx Hx'); [lia|].
      intros z Hz Hne. apply Hother; [by right|done].
Qed.

(** ** The cells of the grid *)

Section Grid.
Context {settings : MazeSettings}.

Lemma in_gridb_true p : in_gridb p = true <-> in_grid p.
Proof. unfold in_gridb, in_grid. rewrite !andb_true_iff. lia. Qed.

Lemma in_gridb_false p : in_gridb p = false <-> ~ in_grid p.
Proof. rewrite <- in_gridb_true. by destruct (in_gridb p). Qed.

Lemma elem_of_cells p : p ∈ MazeGenerator.cells <-> in_grid p.
Proof.
  unfold MazeGenerator.cells, in_grid. destruct p as [px py]; simpl.
  rewrite list_elem_of_bind. split.
  - intros (x & Hy & Hx). apply list_elem_of_bind in Hy as (y & Hp & Hy).
    apply list_elem_of_singleton in Hp as [= -> ->].
    apply elem_of_seqZ in Hx, Hy. lia.
  - intros [Hx Hy]. exists px. split; [|apply elem_of_seqZ; lia].
    apply list_elem_of_bind. exists py. split; [by left|apply elem_of_seqZ; lia].
Qed.

Lemma NoDup_cells : NoDup MazeGenerator.cells.
Proof.
  unfold MazeGenerator.cells. apply NoDup_bind.
  - intros x1 x2 p _ _ H1 H2.
    apply list_elem_of_bind in H1 as (y1 & H1 & _).
    apply list_elem_of_bind in H2 as (y2 & H2 & _).
    apply list_elem_of_singleton in H1, H2. congruence.
  - intros x _. apply NoDup_bind.
    + intros y1 y2 p _ _ H1 H2.
      apply list_elem_of_singleton in H1, H2. congruence.
    + intros y _. apply NoDup_singleton.
    + apply NoDup_seqZ.
  - apply NoDup_seqZ.
Qed.

Lemma length_bind_const {A B} (f : A -> list B) (l : list A) k :
  (forall x, length (f x) = k) -> length (l ≫= f) = (length l * k)%nat.
Proof.
  intros Hk. induction l as [|x l IH]; [done|].
  rewrite bind_cons, length_app, Hk, IH. simpl. lia.
Qed.

Lemma length_cells :
  length MazeGenerator.cells = (Z.to_nat MAZE_WIDTH * Z.to_nat MAZE_HEIGHT)%nat.
Proof.
  unfold MazeGenerator.cells.
  rewrite (length_bind_const _ _ (Z.to_nat MAZE_HEIGHT)).
  - by rewrite length_seqZ.
  - intros x. rewrite (length_bind_const _ _ 1%nat); [|done].
    rewrite length_seqZ. lia.
Qed.

(** ** Initialize *)

Lemma Initialize_fold_notin (l : list ptr) (g : gmap (Z * Z) Cell.t) p :
  p ∉ l ->
  foldl (fun g p => <[p := Cell.new p.1 p.2]> g) g l !! p = g !! p.
Proof.
  revert g. induction l as [|q l IH]; intros g Hp; simpl; [done|].
  apply not_elem_of_cons in Hp as [Hne Hp].
  rewrite IH by done. by rewrite lookup_insert_ne.
Qed.

Lemma Initialize_fold_in (l : list ptr) (g : gmap (Z * Z) Cell.t) p :
  p ∈ l ->
  foldl (fun g p => <[p := Cell.new p.1 p.2]> g) g l !! p
  = Some (Cell.new p.1 p.2).
Proof.
  revert g. induction l as [|q l IH]; intros g Hp; simpl.
  - by apply elem_of_nil in Hp.
  - destruct (decide (p ∈ l)) as [Hin|Hnotin]; [by apply IH|].
    apply elem_of_cons in Hp as [->|?]; [|done].
    rewrite Initialize_fold_notin by done. by rewrite lookup_insert_eq.
Qed.

Lemma deref_Initialize m p :
  in_grid p ->
  MazeGenerator.deref (MazeGenerator.Initialize m) p = Cell.new p.1 p.2.
Proof.
  intros Hp. unfold MazeGenerator.deref, MazeGenerator.Initialize; simpl.
  apply lookup_total_correct, Initialize_fold_in, elem_of_cells, Hp.
Qed.

Lemma pathStack_Initialize m :
  MazeGenerator.pathStack (MazeGenerator.Initialize m) = MazeGenerator.pathStack m.
Proof. reflexivity. Qed.

End Grid.

(** ** Writes to one member of a cell *)

Section Members.
Context {settings : MazeSettings}.

Lemma index_inj d e : index d = index e -> d = e.
Proof. by destruct d, e. Qed.

Lemma walls_set_walls c d e b :
  Cell.walls (Cell.set_walls (index d) b c) (index e)
  = if decide (d = e) then b else Cell.walls c (index e).
Proof. by destruct d, e, c. Qed.

Lemma wall_update_set_walls p d b m q e :
  wall (MazeGenerator.update p (Cell.set_walls (index d) b) m) q e
  = if decide (q = p /\ e = d) then b else wall m q e.
Proof.
  unfold wall. rewrite deref_update.
  destruct (decide (p = q)) as [->|Hpq].
  - rewrite walls_set_walls. repeat case_decide; intuition congruence.
  - case_decide; intuition congruence.
Qed.

Lemma visited_update_set_walls p i b m q :
  visited (MazeGenerator.update p (Cell.set_walls i b) m) q = visited m q.
Proof.
  unfold visited. rewrite deref_update. case_decide; [subst q|done].
  by destruct i as [|[|[|?]]].
Qed.

Lemma wall_update_set_visited p b m q e :
  wall (MazeGenerator.update p (Cell.set_visited b) m) q e = wall m q e.
Proof.
  unfold wall. rewrite deref_update. case_decide; [subst q|done].
  by destruct e.
Qed.

Lemma visited_update_set_visited p b m q :
  visited (MazeGenerator.update p (Cell.set_visited b) m) q
  = if decide (p = q) then b else visited m q.
Proof. unfold visited. rewrite deref_update. by case_decide. Qed.

Lemma coordinates_ok_update_set_walls p i b m :
  coordinates_ok m ->
  coordinates_ok (MazeGenerator.update p (Cell.set_walls i b) m).
Proof.
  intros Hm q Hq. rewrite deref_update. case_decide; [subst q|by apply Hm].
  destruct (Hm p Hq). by destruct i as [|[|[|?]]].
Qed.

Lemma coordinates_ok_update_set_visited p b m :
  coordinates_ok m ->
  coordinates_ok (MazeGenerator.update p (Cell.set_visited b) m).
Proof.
  intros Hm q Hq. rewrite deref_update. case_decide; [subst q|by apply Hm].
  by destruct (Hm p Hq).
Qed.

Lemma coordinates_ok_Initialize m : coordinates_ok (MazeGenerator.Initialize m).
Proof. intros p Hp. by rewrite deref_Initialize. Qed.

(** ** RemoveWall *)

(** Between a cell and the cell beyond its side [d], [RemoveWall] clears
    flag [d] of the first and then the opposite flag of the second. *)
Lemma RemoveWall_neighbour m current d :
  coordinates_ok m -> in_grid current -> in_grid (neighbour current d) ->
  MazeGenerator.RemoveWall current (neighbour current d) m
  = MazeGenerator.update (neighbour current d)
      (Cell.set_walls (index (opposite d)) false)
      (MazeGenerator.update current (Cell.set_walls (index d) false) m).
Proof.
  intros Hm Hc Hn. unfold MazeGenerator.RemoveWall.
  destruct (Hm _ Hc) as [-> ->], (Hm _ Hn) as [-> ->].
  destruct current as [cx cy], d; simpl;
    repeat match goal with
    | |- context [?a =? ?b] => destruct (Z.eqb_spec a b); try lia
    end; reflexivity.
Qed.

Lemma wall_RemoveWall m current d q e :
  coordinates_ok m -> in_grid current -> in_grid (neighbour current d) ->
  wall (MazeGenerator.RemoveWall current (neighbour current d) m) q e
  = if decide ((q = current /\ e = d)
               \/ (q = neighbour current d /\ e = opposite d))
    then false else wall m q e.
Proof.
  intros Hm Hc Hn. rewrite RemoveWall_neighbour by done.
  rewrite !wall_update_set_walls. repeat case_decide; try done; tauto.
Qed.

Lemma visited_RemoveWall m current d q :
  coordinates_ok m -> in_grid current -> in_grid (neighbour current d) ->
  visited (MazeGenerator.RemoveWall current (neighbour current d) m) q
  = visited m q.
Proof.
  intros Hm Hc Hn. rewrite RemoveWall_neighbour by done.
  by rewrite !visited_update_set_walls.
Qed.

Lemma coordinates_ok_RemoveWall m current d :
  coordinates_ok m -> in_grid current -> in_grid (neighbour current d) ->
  coordinates_ok (MazeGenerator.RemoveWall current (neighbour current d) m).
Proof.
  intros Hm Hc Hn. rewrite RemoveWall_neighbour by done.
  by do 2 apply coordinates_ok_update_set_walls.
Qed.

Lemma pathStack_RemoveWall m current d :
  coordinates_ok m -> in_grid current -> in_grid (neighbour current d) ->
  MazeGenerator.pathStack (MazeGenerator.RemoveWall current (neighbour current d) m)
  = MazeGenerator.pathStack m.
Proof. intros Hm Hc Hn. by rewrite RemoveWall_neighbour. Qed.

(** ** GetUnvisitedNeighbour *)

Lemma rand_pick {A} (l : list A) (s : RNG) :
  l <> [] ->
  exists x, l !! Z.to_nat ((rand s).1 `rem` Z.of_nat (length l)) = Some x /\ x ∈ l.
Proof.
  intros Hl. simpl.
  assert (0 < Z.of_nat (length l)) as Hlen by (destruct l; simpl in *; [done|lia]).
  pose proof (Z.rem_bound_pos (Z.of_nat (s 0%nat)) (Z.of_nat (length l))
                ltac:(lia) Hlen) as Hrem.
  destruct (lookup_lt_is_Some_2 l
              (Z.to_nat (Z.of_nat (s 0%nat) `rem` Z.of_nat (length l))))
    as [x Hx]; [lia|].
  exists x. split; [done|]. by eapply list_elem_of_lookup_2.
Qed.

(** A returned neighbour lies beyond a side of [current], in the grid, and
    is not visited; the draw is taken only then.  [nullptr] comes back, and
    the random source is left alone, when every neighbour in the grid is
    visited. *)
Lemma GetUnvisitedNeighbour_spec m current s :
  coordinates_ok m -> in_grid current ->
  match MazeGenerator.GetUnvisitedNeighbour m current s with
  | (Some next, s') =>
      s' = (rand s).2
      /\ exists d, next = neighbour current d /\ in_grid next
                   /\ visited m next = false
  | (None, s') =>
      s' = s
      /\ forall d, in_grid (neighbour current d) ->
                   visited m (neighbour current d) = true
  end.
Proof.
  intros Hm Hc. unfold MazeGenerator.GetUnvisitedNeighbour.
  destruct (Hm _ Hc) as [-> ->].
  set (good := fun q : ptr =>
    exists d, q = neighbour current d /\ in_grid q /\ visited m q = false).
  match goal with
  | |- context [match ?l with [] => _ | _ :: _ => _ end] => set (nbs := l)
  end.
  assert (Forall good nbs
          /\ (nbs = [] -> forall d, in_grid (neighbour current d) ->
                                    visited m (neighbour current d) = true))
    as [Hall Hnone]; [subst nbs|clearbody nbs; destruct nbs as [|q l] eqn:Hl].
  - destruct current as [cx cy]. unfold in_grid in Hc. simpl in Hc. simpl.
    unfold good, visited, in_grid.
    repeat match goal with
    | |- context [?a <? ?b] => destruct (Z.ltb_spec a b)
    | |- context [?a <=? ?b] => destruct (Z.leb_spec a b)
    | |- context [Cell.visited ?c] => destruct (Cell.visited c) eqn:?
    end; simpl; (split;
      [ repeat first
          [ apply Forall_nil_2
          | apply Forall_cons_2;
            [ first [ exists Top; simpl; split; [reflexivity|split; [lia|done]]
                    | exists Right; simpl; split; [reflexivity|split; [lia|done]]
                    | exists Bottom; simpl; split; [reflexivity|split; [lia|done]]
                    | exists Left; simpl; split; [reflexivity|split; [lia|done]] ] | ] ]
      | intros Hnil; try discriminate Hnil;
        intros [] Hd; simpl in Hd |- *; first [done | lia] ]).
  - split; [done|]. by apply Hnone.
  - rewrite <- Hl. destruct (rand s) as [r s'] eqn:Hr.
    destruct (rand_pick (q :: l) s ltac:(done)) as (next & Hnext & Hin).
    rewrite Hr in Hnext. simpl in Hnext. rewrite Hl. simpl.
    simpl in Hnext. rewrite Hnext. split; [done|].
    rewrite Forall_forall in Hall. by apply Hall.
Qed.

End Members.

(** ** One turn of the loop of Generate *)

Section Turn.
Context {settings : MazeSettings}.

Lemma visited_push p m q : visited (MazeGenerator.push p m) q = visited m q.
Proof. reflexivity. Qed.

Lemma wall_push p m q e : wall (MazeGenerator.push p m) q e = wall m q e.
Proof. reflexivity. Qed.

(** A turn either steps through a side of [current] to an unvisited cell
    of the grid, or finds every neighbour visited and pops the stack. *)
Lemma Generate_body_cases m current s :
  coordinates_ok m -> in_grid current ->
  exists m' current' s',
    MazeGenerator.Generate_body m current s = (m', current', s')
    /\ ((exists d, current' = neighbour current d
                   /\ forward_step m current d m' /\ s' = (rand s).2)
        \/ ((forall d, in_grid (neighbour current d) ->
                       visited m (neighbour current d) = true)
            /\ m' = MazeGenerator.pop m
            /\ current' = hd current (MazeGenerator.pathStack m)
            /\ s' = s)).
Proof.
  intros Hm Hc. unfold MazeGenerator.Generate_body.
  pose proof (GetUnvisitedNeighbour_spec m current s Hm Hc) as Hspec.
  destruct (MazeGenerator.GetUnvisitedNeighbour m current s) as [[next|] s1].
  - destruct Hspec as (-> & d & -> & Hin & Hunv).
    eexists _, _, _. split; [reflexivity|left].
    exists d. split; [done|]. split; [|done].
    constructor; try done.
    + apply (coordinates_ok_update_set_visited _ _ (MazeGenerator.RemoveWall _ _ _)).
      by apply coordinates_ok_RemoveWall.
    + intros q. rewrite visited_push, visited_update_set_visited.
      rewrite visited_RemoveWall by done. repeat case_decide; congruence.
    + intros q e. rewrite wall_push, wall_update_set_visited.
      by apply wall_RemoveWall.
    + simpl. by rewrite pathStack_RemoveWall.
  - destruct Hspec as [-> Hall].
    destruct (MazeGenerator.pathStack m) as [|top rest] eqn:Hst.
    + eexists _, _, _. split; [reflexivity|right].
      repeat split; try done.
      unfold MazeGenerator.pop. rewrite Hst. simpl. by destruct m; simpl in *; subst.
    + eexists _, _, _. split; [reflexivity|right]. done.
Qed.

(** *** What a forward step does to the passages *)

Section Forward.
Variables (m m' : MazeGenerator.t) (current : ptr) (d : side).
Hypothesis Hinv : generate_inv m current.
Hypothesis Hstep : forward_step m current d m'.

Local Abbreviation next := (neighbour current d).

Lemma forward_next_walls e : wall m next e = true.
Proof.
  destruct (wall m next e) eqn:Hw; [done|].
  destruct (gi_walls _ _ Hinv next e (fs_next_in _ _ _ _ Hstep) Hw) as [Hv _].
  rewrite (fs_next_unvisited _ _ _ _ Hstep) in Hv. done.
Qed.

Lemma forward_next_ne : next <> current.
Proof.
  intros Heq. pose proof (fs_next_unvisited _ _ _ _ Hstep) as Hu.
  rewrite Heq in Hu.
  destruct (gi_current _ _ Hinv) as [_ Hv]. congruence.
Qed.

Lemma forward_visited_mono q : visited m q = true -> visited m' q = true.
Proof. intros Hq. rewrite (fs_visited _ _ _ _ Hstep). by case_decide. Qed.

Lemma forward_passage p e :
  passage m' p e
  = if decide ((p = current /\ e = d) \/ (p = next /\ e = opposite d))
    then true else passage m p e.
Proof.
  pose proof (fs_next_in _ _ _ _ Hstep) as Hnext.
  destruct (gi_current _ _ Hinv) as [Hcur _].
  apply in_gridb_true in Hnext, Hcur.
  unfold passage. rewrite !(fs_wall _ _ _ _ Hstep).
  case_decide as Hcase.
  - destruct Hcase as [[-> ->]|[-> ->]].
    + rewrite Hcur, Hnext. rewrite decide_True; [done|]. by right.
    + rewrite neighbour_opposite, opposite_opposite, Hcur, Hnext.
      rewrite decide_True; [done|]. by left.
  - rewrite decide_False; [done|].
    intros [[Hq He]|[Hq He]]; apply Hcase.
    + right. split.
      * rewrite <- (neighbour_opposite p e), Hq, He. done.
      * by rewrite <- He, opposite_opposite.
    + left. assert (e = d) as ->.
      { by rewrite <- (opposite_opposite e), He, opposite_opposite. }
      split; [|done]. by apply neighbour_inj in Hq.
Qed.

Lemma forward_passage_before e : passage m current d = false /\ passage m next e = false.
Proof.
  unfold passage. rewrite !forward_next_walls.
  simpl. by rewrite !andb_false_r.
Qed.

Lemma forward_linked p q :
  linked m' p q
  <-> linked m p q \/ (p = current /\ q = next) \/ (p = next /\ q = current).
Proof.
  unfold linked. split.
  - intros (e & -> & Hp). rewrite forward_passage in Hp.
    case_decide as Hcase.
    + destruct Hcase as [[-> ->]|[-> ->]]; [right; left; done|].
      right; right. split; [done|]. apply neighbour_opposite.
    + left. by exists e.
  - intros [(e & -> & Hp)|[[-> ->]|[-> ->]]].
    + exists e. split; [done|]. rewrite forward_passage. by case_decide.
    + exists d. split; [done|]. rewrite forward_passage.
      apply decide_True. by left.
    + exists (opposite d). split; [symmetry; apply neighbour_opposite|].
      rewrite forward_passage. apply decide_True. by right.
Qed.

Lemma forward_linked_next_l q : linked m' next q -> q = current.
Proof.
  intros [Hl|[[Hn _]|[_ ->]]]%forward_linked; [|by apply forward_next_ne in Hn|done].
  destruct Hl as (e & _ & Hp).
  destruct (forward_passage_before e) as [_ Hf]. congruence.
Qed.

Lemma forward_linked_next_r p : linked m' p next -> p = current.
Proof.
  intros [Hl|[[-> _]|[_ Hn]]]%forward_linked; [|done|by apply forward_next_ne in Hn].
  destruct Hl as (e & Hq & Hp). unfold passage in Hp.
  rewrite <- Hq, forward_next_walls in Hp. simpl in Hp.
  by rewrite andb_false_r in Hp.
Qed.

Lemma forward_linked_old p q :
  linked m' p q -> p <> next -> q <> next -> linked m p q.
Proof. intros [Hl|[[_ ->]|[-> _]]]%forward_linked Hp Hq; done. Qed.

Lemma forward_reachable p q : reachable m p q -> reachable m' p q.
Proof.
  induction 1 as [|p q r Hpq _ IH]; [apply rtc_refl|].
  eapply rtc_l; [|exact IH]. apply forward_linked. by left.
Qed.

End Forward.

End Turn.

(** ** Paths and cycles *)

Section Cycles.
Context {settings : MazeSettings}.

Lemma path_tail m x l : path m (x :: l) -> path m l.
Proof. destruct l as [|y l]; simpl; [done|]. by intros [_ ?]. Qed.

Lemma path_snoc m l x :
  path m (l ++ [x]) <-> path m l /\ (forall z, last l = Some z -> linked m z x).
Proof.
  induction l as [|a [|b l] IH].
  - simpl. split; [|done]. intros _. split; [done|]. by intros z [=].
  - simpl. split.
    + intros [Hl _]. split; [done|]. by intros z [= <-].
    + intros [_ Hl]. split; [|done]. by apply Hl.
  - change (path m ((a :: b :: l) ++ [x]))
      with (linked m a b /\ path m ((b :: l) ++ [x])).
    change (path m (a :: b :: l)) with (linked m a b /\ path m (b :: l)).
    rewrite last_cons_cons, IH. tauto.
Qed.

(** a path stays a path in a maze that keeps the links between its cells *)
Lemma path_transfer m m' l :
  (forall p q, p ∈ l -> q ∈ l -> linked m' p q -> linked m p q) ->
  path m' l -> path m l.
Proof.
  induction l as [|a [|b l] IH]; intros Hlink Hpath; try done.
  destruct Hpath as [Hab Hpath]. split.
  - apply Hlink; [by left|by right; left|done].
  - apply IH; [|done]. intros p q Hp Hq. apply Hlink; by right.
Qed.

Lemma cycle_rotate m x l : cycle m (x :: l) -> cycle m (l ++ [x]).
Proof.
  intros (Hlen & Hnd & Hpath & p & q & Hp & Hq & Hqp).
  simpl in Hp. injection Hp as ->.
  destruct l as [|y l]; [simpl in Hlen; lia|].
  rewrite last_cons_cons in Hq.
  repeat split.
  - rewrite length_app. simpl in *. lia.
  - apply NoDup_cons in Hnd as [Hx Hnd].
    apply NoDup_app. repeat split; [done| |apply NoDup_singleton].
    intros z Hz ->%list_elem_of_singleton. done.
  - apply path_snoc. split; [by eapply path_tail|].
    intros z Hz. rewrite Hq in Hz. by injection Hz as <-.
  - exists y, p. repeat split; [by rewrite last_snoc|].
    by destruct Hpath as [Hxy _].
Qed.

Lemma cycle_rotate_to m l1 p l2 :
  cycle m (l1 ++ p :: l2) -> exists l, cycle m (p :: l).
Proof.
  revert l2. induction l1 as [|a l1 IH]; intros l2 Hc; [by exists l2|].
  apply cycle_rotate in Hc. rewrite <- app_assoc in Hc.
  apply (IH (l2 ++ [a])), Hc.
Qed.

Lemma cycle_through m l p : cycle m l -> p ∈ l -> exists l', cycle m (p :: l').
Proof.
  intros Hc (l1 & l2 & ->)%list_elem_of_split. by eapply cycle_rotate_to.
Qed.

(** a cell that is linked to one cell only lies on no cycle *)
Lemma cycle_not_through_leaf m p c l :
  (forall q, linked m p q -> q = c) -> (forall q, linked m q p -> q = c) ->
  ~ cycle m (p :: l).
Proof.
  intros Hout Hin (Hlen & Hnd & Hpath & p' & z & Hp & Hz & Hzp).
  simpl in Hp. injection Hp as <-.
  destruct l as [|a [|b l]]; try (simpl in Hlen; lia).
  destruct Hpath as [Hpa _].
  apply Hout in Hpa as ->. apply Hin in Hzp as ->.
  rewrite !last_cons_cons in Hz.
  apply last_Some_elem_of in Hz.
  apply NoDup_cons in Hnd as [_ Hnd]. apply NoDup_cons in Hnd as [Hc _]. done.
Qed.

End Cycles.

(** ** The invariant of the loop *)

Section Invariant.
Context {settings : MazeSettings}.

Section ForwardCounts.
Variables (m m' : MazeGenerator.t) (current : ptr) (d : side).
Hypothesis Hinv : generate_inv m current.
Hypothesis Hstep : forward_step m current d m'.

Lemma opposite_ne e : opposite e <> e.
Proof. by destruct e. Qed.

Lemma forward_count_visited : count_visited m' = S (count_visited m).
Proof.
  apply (count_if_switch_on _ _ _ (neighbour current d)).
  - apply NoDup_cells.
  - apply elem_of_cells, (fs_next_in _ _ _ _ Hstep).
  - apply (fs_next_unvisited _ _ _ _ Hstep).
  - rewrite (fs_visited _ _ _ _ Hstep). by apply decide_True.
  - intros q _ Hq. rewrite (fs_visited _ _ _ _ Hstep). by apply decide_False.
Qed.

Lemma forward_count_side :
  count_if (fun p => passage m' p d) MazeGenerator.cells
  = S (count_if (fun p => passage m p d) MazeGenerator.cells).
Proof.
  apply (count_if_switch_on _ _ _ current).
  - apply NoDup_cells.
  - apply elem_of_cells, (gi_current _ _ Hinv).
  - apply (forward_passage_before m m' current d Hinv Hstep d).
  - rewrite (forward_passage m m' current d Hinv Hstep).
    apply decide_True. by left.
  - intros q _ Hq. rewrite (forward_passage m m' current d Hinv Hstep).
    apply decide_False. intros [[? _]|[_ He]]; [done|].
    by apply (opposite_ne d).
Qed.

Lemma forward_count_opposite :
  count_if (fun p => passage m' p (opposite d)) MazeGenerator.cells
  = S (count_if (fun p => passage m p (opposite d)) MazeGenerator.cells).
Proof.
  apply (count_if_switch_on _ _ _ (neighbour current d)).
  - apply NoDup_cells.
  - apply elem_of_cells, (fs_next_in _ _ _ _ Hstep).
  - apply (forward_passage_before m m' current d Hinv Hstep).
  - rewrite (forward_passage m m' current d Hinv Hstep).
    apply decide_True. by right.
  - intros q _ Hq. rewrite (forward_passage m m' current d Hinv Hstep).
    apply decide_False. intros [[_ He]|[? _]]; [|done].
    by apply (opposite_ne d).
Qed.

Lemma forward_count_other e :
  e <> d -> e <> opposite d ->
  count_if (fun p => passage m' p e) MazeGenerator.cells
  = count_if (fun p => passage m p e) MazeGenerator.cells.
Proof.
  intros H1 H2. apply count_if_ext. intros q _.
  rewrite (forward_passage m m' current d Hinv Hstep).
  apply decide_False. intros [[_ ?]|[_ ?]]; done.
Qed.

End ForwardCounts.

Lemma forward_open_pairs m m' current d :
  generate_inv m current -> forward_step m current d m' ->
  open_pairs m' = S (open_pairs m).
Proof.
  intros Hinv Hstep. unfold open_pairs.
  pose proof (forward_count_side m m' current d Hinv Hstep) as Hside.
  pose proof (forward_count_opposite m m' current d Hinv Hstep) as Hopp.
  pose proof (forward_count_other m m' current d Hinv Hstep) as Hother.
  destruct d; simpl in Hopp.
  - rewrite Hside, (Hother Right) by done. lia.
  - rewrite Hside, (Hother Top) by done. lia.
  - rewrite Hopp, (Hother Right) by done. lia.
  - rewrite Hopp, (Hother Top) by done. lia.
Qed.

Section ForwardInvariant.
Variables (m m' : MazeGenerator.t) (current : ptr) (d : side).
Hypothesis Hinv : generate_inv m current.
Hypothesis Hstep : forward_step m current d m'.

Lemma forward_acyclic l : ~ cycle m' l.
Proof.
  intros Hc.
  destruct (decide (neighbour current d ∈ l)) as [Hin|Hnotin].
  - destruct (cycle_through _ _ _ Hc Hin) as [l' Hc'].
    revert Hc'. apply (cycle_not_through_leaf _ _ current).
    + apply (forward_linked_next_l m m' current d Hinv Hstep).
    + apply (forward_linked_next_r m m' current d Hinv Hstep).
  - apply (gi_acyclic _ _ Hinv l).
    destruct Hc as (Hlen & Hnd & Hpath & p & q & Hp & Hq & Hqp).
    assert (forall a b, a ∈ l -> b ∈ l -> linked m' a b -> linked m a b) as Hold.
    { intros a b Ha Hb Hab.
      apply (forward_linked_old m m' current d Hinv Hstep); [done| |];
        intros ->; done. }
    repeat split; [done|done|by eapply path_transfer|].
    exists p, q. repeat split; [done|done|].
    apply Hold; [by eapply last_Some_elem_of|by eapply head_Some_elem_of|done].
Qed.

Lemma forward_inv : generate_inv m' (neighbour current d).
Proof.
  pose proof (fs_next_in _ _ _ _ Hstep) as Hnext.
  pose proof (forward_visited_mono m m' current d Hstep) as Hmono.
  destruct (gi_current _ _ Hinv) as [Hcur Hvcur].
  constructor.
  - apply (fs_coordinates _ _ _ _ Hstep).
  - split; [done|]. rewrite (fs_visited _ _ _ _ Hstep). by apply decide_True.
  - rewrite (fs_stack _ _ _ _ Hstep). apply Forall_cons_2; [by auto|].
    eapply Forall_impl; [apply (gi_stack _ _ Hinv)|].
    intros p [? ?]. auto.
  - destruct (gi_origin _ _ Hinv). auto.
  - intros p e Hp Hw. rewrite (fs_wall _ _ _ _ Hstep) in Hw.
    case_decide as Hcase.
    + destruct Hcase as [[-> ->]|[-> ->]].
      * split; [by auto|]. split; [done|]. split.
        -- rewrite (fs_visited _ _ _ _ Hstep). by apply decide_True.
        -- rewrite (fs_wall _ _ _ _ Hstep). apply decide_True. by right.
      * rewrite neighbour_opposite, opposite_opposite.
        split; [|split; [done|split; [by auto|]]].
        -- rewrite (fs_visited _ _ _ _ Hstep). by apply decide_True.
        -- rewrite (fs_wall _ _ _ _ Hstep). apply decide_True. by left.
    + destruct (gi_walls _ _ Hinv p e Hp Hw) as (Hv & Hn & Hvn & Hwn).
      split; [by auto|]. split; [done|]. split; [by auto|].
      rewrite (fs_wall _ _ _ _ Hstep). by case_decide.
  - rewrite (forward_count_visited m m' current d Hstep).
    rewrite (forward_open_pairs m m' current d Hinv Hstep).
    by rewrite (gi_count _ _ Hinv).
  - intros p Hp Hv. rewrite (fs_visited _ _ _ _ Hstep) in Hv.
    case_decide as Hcase.
    + subst p. apply (rtc_r _ current).
      * apply (forward_reachable m m' current d Hinv Hstep).
        by apply (gi_reach _ _ Hinv).
      * apply (forward_linked m m' current d Hinv Hstep). auto.
    + apply (forward_reachable m m' current d Hinv Hstep).
      by apply (gi_reach _ _ Hinv).
  - apply forward_acyclic.
  - intros p e Hp Hv Hn Hvn.
    rewrite (fs_stack _ _ _ _ Hstep).
    change (p ∈ neighbour current d
                :: removelast (current :: MazeGenerator.pathStack m)).
    rewrite (fs_visited _ _ _ _ Hstep) in Hv, Hvn.
    destruct (decide (p = neighbour current d)) as [->|Hne]; [by left|right].
    destruct (decide (neighbour p e = neighbour current d)); [done|].
    by apply (gi_frontier _ _ Hinv p e).
Qed.

End ForwardInvariant.

Lemma backward_inv m current top rest :
  generate_inv m current ->
  (forall d, in_grid (neighbour current d) ->
             visited m (neighbour current d) = true) ->
  MazeGenerator.pathStack m = top :: rest ->
  generate_inv (MazeGenerator.pop m) top.
Proof.
  intros Hinv Hall Hst.
  pose proof (gi_stack _ _ Hinv) as Hstack. rewrite Hst in Hstack.
  apply Forall_cons in Hstack as [Htop Hrest].
  constructor.
  - exact (gi_coordinates _ _ Hinv).
  - exact Htop.
  - unfold MazeGenerator.pop. rewrite Hst. exact Hrest.
  - exact (gi_origin _ _ Hinv).
  - exact (gi_walls _ _ Hinv).
  - exact (gi_count _ _ Hinv).
  - exact (gi_reach _ _ Hinv).
  - intros l (Hlen & Hnd & Hpath & Hclose). apply (gi_acyclic _ _ Hinv l).
    split; [done|]. split; [done|]. split; [|exact Hclose].
    apply (path_transfer _ (MazeGenerator.pop m)); [|done].
    intros p q _ _ Hpq. exact Hpq.
  - intros p e Hp Hv Hn Hvn.
    pose proof (gi_frontier _ _ Hinv p e Hp Hv Hn Hvn) as Hin.
    rewrite Hst in Hin.
    change (p ∈ current :: removelast (top :: rest)) in Hin.
    unfold MazeGenerator.pop. rewrite Hst. simpl tail. simpl MazeGenerator.pathStack.
    apply elem_of_cons in Hin as [->|Hin]; [|done].
    change (visited m (neighbour current e) = false) in Hvn.
    rewrite Hall in Hvn by done. done.
Qed.

End Invariant.

(** ** The loop, from its first turn to its last *)

Section Loop.
Context {settings : MazeSettings}.

Lemma Generate_loop_unfold fuel m current s :
  MazeGenerator.Generate_loop (S fuel) m current s
  = match MazeGenerator.pathStack m with
    | [] => Some (m, s)
    | _ :: _ =>
        let '(m', current', s') := MazeGenerator.Generate_body m current s in
        MazeGenerator.Generate_loop fuel m' current' s'
    end.
Proof. reflexivity. Qed.

(** Every turn lowers twice the number of unvisited cells plus the depth
    of the stack by one, so that many turns empty the stack. *)
Lemma Generate_loop_correct fuel : forall m current s,
  generate_inv m current ->
  (2 * (length MazeGenerator.cells - count_visited m)
   + length (MazeGenerator.pathStack m) <= fuel)%nat ->
  exists m' current' s',
    MazeGenerator.Generate_loop fuel m current s = Some (m', s')
    /\ generate_inv m' current' /\ MazeGenerator.pathStack m' = [].
Proof.
  induction fuel as [|fuel IH]; intros m current s Hinv Hfuel.
  - destruct (MazeGenerator.pathStack m) as [|top rest] eqn:Hst;
      [|simpl in Hfuel; lia].
    exists m, current, s. simpl. by rewrite Hst.
  - rewrite Generate_loop_unfold.
    destruct (MazeGenerator.pathStack m) as [|top rest] eqn:Hst.
    { by exists m, current, s. }
    destruct (Generate_body_cases m current s (gi_coordinates _ _ Hinv)
                (proj1 (gi_current _ _ Hinv)))
      as (m' & current' & s' & -> & [(d & -> & Hstep & _)|(Hall & -> & -> & _)]).
    + apply IH; [by eapply forward_inv|].
      pose proof (forward_count_visited m m' current d Hstep) as Hcv.
      pose proof (count_if_le_length (visited m') MazeGenerator.cells) as Hle.
      fold (count_visited m') in Hle.
      rewrite (fs_stack _ _ _ _ Hstep), Hst.
      simpl in *. lia.
    + rewrite Hst. simpl hd. apply IH; [by eapply backward_inv|].
      unfold MazeGenerator.pop. rewrite Hst. simpl in *.
      change (count_visited (MazeGenerator.mk (MazeGenerator.grid m) rest))
        with (count_visited m). lia.
Qed.

(** The state [Generate] enters its loop with. *)
Lemma Generate_entry_inv m :
  1 <= MAZE_WIDTH -> 1 <= MAZE_HEIGHT -> MazeGenerator.pathStack m = [] ->
  generate_inv
    (MazeGenerator.push (0, 0)
       (MazeGenerator.update (0, 0) (Cell.set_visited true)
          (MazeGenerator.Initialize m)))
    (0, 0).
Proof.
  intros HW HH Hst.
  set (m0 := MazeGenerator.push _ _).
  assert (in_grid (0, 0)) as Horigin by (unfold in_grid; simpl; lia).
  assert (forall p e, in_grid p -> wall m0 p e = true) as Hwall.
  { intros p e Hp. unfold m0.
    rewrite wall_push, wall_update_set_visited. unfold wall.
    rewrite deref_Initialize by done. by destruct e. }
  assert (forall p, in_grid p ->
            visited m0 p = if decide (p = (0, 0)) then true else false) as Hvis.
  { intros p Hp. unfold m0.
    rewrite visited_push, visited_update_set_visited.
    destruct (decide ((0, 0) = p)) as [<-|Hne]; [by rewrite decide_True|].
    rewrite decide_False by done.
    unfold visited. by rewrite deref_Initialize. }
  assert (forall p e, passage m0 p e = false) as Hpass.
  { intros p e. unfold passage.
    destruct (in_gridb p) eqn:Hp; [|done]. apply in_gridb_true in Hp.
    rewrite Hwall by done. simpl. by rewrite andb_false_r. }
  assert (forall p q, ~ linked m0 p q) as Hlink.
  { intros p q (e & _ & He). by rewrite Hpass in He. }
  constructor.
  - apply coordinates_ok_update_set_visited, coordinates_ok_Initialize.
  - split; [done|]. rewrite Hvis by done. by apply decide_True.
  - unfold m0. simpl. rewrite Hst. apply Forall_singleton.
    split; [done|]. fold m0. rewrite Hvis by done. by apply decide_True.
  - split; [done|]. rewrite Hvis by done. by apply decide_True.
  - intros p e Hp Hw. rewrite Hwall in Hw by done. done.
  - unfold open_pairs. rewrite !count_if_none by (intros; apply Hpass).
    unfold count_visited. simpl.
    rewrite <- (count_if_none (fun _ : ptr => false) MazeGenerator.cells) by done.
    apply (count_if_switch_on (fun _ => false) _ _ (0, 0)).
    + apply NoDup_cells.
    + by apply elem_of_cells.
    + done.
    + rewrite Hvis by done. by apply decide_True.
    + intros q Hq Hne. apply elem_of_cells in Hq.
      rewrite Hvis by done. by apply decide_False.
  - intros p Hp Hv. rewrite Hvis in Hv by done.
    destruct (decide (p = (0, 0))) as [->|]; [apply rtc_refl|done].
  - intros l (Hlen & _ & Hpath & _).
    destruct l as [|p [|q l]]; try (simpl in Hlen; lia).
    destruct Hpath as [Hpq _]. by apply Hlink in Hpq.
  - intros p e Hp Hv _ _. rewrite Hvis in Hv by done.
    destruct (decide (p = (0, 0))) as [->|]; [|done].
    unfold m0. simpl. rewrite Hst. simpl. by left.
Qed.

(** a set of cells that holds the origin and is closed under stepping to
    any neighbour in the grid is the whole grid *)
Lemma grid_spans (P : ptr -> Prop) :
  P (0, 0) ->
  (forall p d, in_grid p -> in_grid (neighbour p d) -> P p -> P (neighbour p d)) ->
  forall p, in_grid p -> P p.
Proof.
  intros H0 Hstep.
  assert (forall n, in_grid (Z.of_nat n, 0) -> P (Z.of_nat n, 0)) as Hrow.
  { induction n as [|n IH]; intros Hn; [done|].
    assert (in_grid (Z.of_nat n, 0)) as Hn'
      by (unfold in_grid in *; simpl in *; lia).
    replace (Z.of_nat (S n), 0) with (neighbour (Z.of_nat n, 0) Right)
      by (simpl; f_equal; lia).
    apply Hstep; [done| |by apply IH].
    simpl. unfold in_grid in *; simpl in *; lia. }
  assert (forall k n, in_grid (Z.of_nat n, Z.of_nat k) ->
            P (Z.of_nat n, Z.of_nat k)) as Hcol.
  { induction k as [|k IH]; intros n Hn; [by apply Hrow|].
    assert (in_grid (Z.of_nat n, Z.of_nat k)) as Hn'
      by (unfold in_grid in *; simpl in *; lia).
    replace (Z.of_nat n, Z.of_nat (S k))
      with (neighbour (Z.of_nat n, Z.of_nat k) Top) by (simpl; f_equal; lia).
    apply Hstep; [done| |by apply IH].
    simpl. unfold in_grid in *; simpl in *; lia. }
  intros [px py] Hp.
  assert (0 <= px /\ 0 <= py) as [Hx Hy] by (unfold in_grid in Hp; simpl in Hp; lia).
  rewrite <- (Z2Nat.id px), <- (Z2Nat.id py) by done.
  apply Hcol. by rewrite !Z2Nat.id.
Qed.

Lemma generate_inv_final m current :
  generate_inv m current -> MazeGenerator.pathStack m = [] -> generated m.
Proof.
  intros Hinv Hst.
  assert (forall p, in_grid p -> visited m p = true) as Hall.
  { apply grid_spans; [apply (gi_origin _ _ Hinv)|].
    intros p d Hp Hn Hv.
    destruct (visited m (neighbour p d)) eqn:Hvn; [done|].
    pose proof (gi_frontier _ _ Hinv p d Hp Hv Hn Hvn) as Hin.
    rewrite Hst in Hin. simpl in Hin. by apply elem_of_nil in Hin. }
  constructor.
  - apply (gi_coordinates _ _ Hinv).
  - done.
  - done.
  - intros p d Hp Hw.
    destruct (gi_walls _ _ Hinv p d Hp Hw) as (_ & ? & _ & ?). done.
  - apply (gi_count _ _ Hinv).
  - intros p Hp. apply (gi_reach _ _ Hinv); [done|by apply Hall].
  - apply (gi_acyclic _ _ Hinv).
Qed.

Lemma Generate_loop_more_fuel fuel : forall fuel' m current s r,
  MazeGenerator.Generate_loop fuel m current s = Some r ->
  (fuel <= fuel')%nat ->
  MazeGenerator.Generate_loop fuel' m current s = Some r.
Proof.
  induction fuel as [|fuel IH]; intros fuel' m current s r Hrun Hle.
  - simpl in Hrun. destruct (MazeGenerator.pathStack m) eqn:Hst; [|done].
    destruct fuel'; simpl; by rewrite Hst.
  - destruct fuel' as [|fuel']; [lia|].
    rewrite Generate_loop_unfold in Hrun |- *.
    destruct (MazeGenerator.pathStack m); [done|].
    destruct (MazeGenerator.Generate_body m current s) as [[m' current'] s'].
    apply (IH fuel'); [done|lia].
Qed.

Lemma Generate_unfold fuel m s :
  MazeGenerator.Generate fuel m s
  = MazeGenerator.Generate_loop fuel (Generate_entry m) (0, 0) s.
Proof. reflexivity. Qed.

(** [Generate] after [Initialize] leaves its loop within [2 * W * H] turns,
    with the same maze whatever the fuel beyond that, and the maze has the
    properties of [generated]. *)
Lemma Generate_correct m s :
  1 <= MAZE_WIDTH -> 1 <= MAZE_HEIGHT -> MazeGenerator.pathStack m = [] ->
  exists m' s',
    (forall fuel, 2 * MAZE_WIDTH * MAZE_HEIGHT <= Z.of_nat fuel ->
       MazeGenerator.Generate fuel (MazeGenerator.Initialize m) s
       = Some (m', s'))
    /\ generated m'.
Proof.
  intros HW HH Hst.
  pose proof (Generate_entry_inv m HW HH Hst) as Hinv.
  destruct (Generate_loop_correct
              (Z.to_nat (2 * MAZE_WIDTH * MAZE_HEIGHT)) _ (0, 0) s Hinv)
    as (m' & current' & s' & Hloop & Hinv' & Hst').
  - pose proof (gi_count _ _ Hinv) as Hcount.
    rewrite Hcount, length_cells. simpl. rewrite Hst. simpl. nia.
  - exists m', s'. split; [|by eapply generate_inv_final].
    intros fuel Hfuel. rewrite Generate_unfold.
    apply (Generate_loop_more_fuel _ _ _ _ _ _ Hloop). lia.
Qed.

End Loop.

(** ** Walls agree on their two sides *)

Section Symmetry.
Context {settings : MazeSettings}.

(** the wall on side [e] of [p], seen from the cell beyond it, is the wall
    that [RemoveWall] clears between [current] and its neighbour beyond
    side [d] exactly when it is that wall seen from [p] *)
Lemma cleared_wall_other_side current d p e :
  (neighbour p e = current /\ opposite e = d)
  \/ (neighbour p e = neighbour current d /\ opposite e = opposite d)
  <-> (p = current /\ e = d) \/ (p = neighbour current d /\ e = opposite d).
Proof.
  split.
  - intros [[Hq He]|[Hq He]].
    + right. split.
      * by rewrite <- (neighbour_opposite p e), Hq, He.
      * by rewrite <- He, opposite_opposite.
    + left. assert (e = d) as ->.
      { by rewrite <- (opposite_opposite e), He, opposite_opposite. }
      split; [|done]. by apply neighbour_inj in Hq.
  - intros [[-> ->]|[-> ->]].
    + by right.
    + left. by rewrite neighbour_opposite, opposite_opposite.
Qed.

Lemma symmetric_Initialize m : symmetric (MazeGenerator.Initialize m).
Proof.
  intros p d Hp Hn. unfold wall. rewrite !deref_Initialize by done.
  by destruct d.
Qed.

Lemma symmetric_RemoveWall m current d :
  coordinates_ok m -> in_grid current -> in_grid (neighbour current d) ->
  symmetric m ->
  symmetric (MazeGenerator.RemoveWall current (neighbour current d) m).
Proof.
  intros Hm Hc Hn Hsym p e Hp Hpn.
  rewrite !wall_RemoveWall by done.
  pose proof (cleared_wall_other_side current d p e) as Hflip.
  repeat case_decide; try tauto. by apply Hsym.
Qed.

Lemma RemoveWalls_ok calls : forall m,
  Forall (fun c : ptr * ptr => in_grid c.1 /\ in_grid c.2 /\ adjacent c.1 c.2) calls ->
  coordinates_ok m -> symmetric m ->
  coordinates_ok (RemoveWalls calls m) /\ symmetric (RemoveWalls calls m).
Proof.
  induction calls as [|[current next] calls IH]; intros m Hcalls Hm Hsym; [done|].
  apply Forall_cons in Hcalls as [(Hc & Hn & d & Hd) Hcalls].
  simpl in Hc, Hn, Hd. subst next.
  unfold RemoveWalls. simpl. apply IH; [done| |].
  - by apply coordinates_ok_RemoveWall.
  - by apply symmetric_RemoveWall.
Qed.

Lemma generated_symmetric m : generated m -> symmetric m.
Proof.
  intros Hgen p d Hp Hn. split; intros Hw.
  - by destruct (gen_walls _ Hgen p d Hp Hw).
  - destruct (gen_walls _ Hgen _ _ Hn Hw) as [_ Hback].
    by rewrite neighbour_opposite, opposite_opposite in Hback.
Qed.

Lemma generated_passage m p d :
  generated m -> in_grid p -> (wall m p d = false <-> passage m p d = true).
Proof.
  intros Hgen Hp. unfold passage. split.
  - intros Hw. destruct (gen_walls _ Hgen p d Hp Hw) as [Hn Hback].
    apply in_gridb_true in Hp, Hn. by rewrite Hp, Hn, Hw, Hback.
  - intros Hpass. rewrite !andb_true_iff in Hpass.
    destruct Hpass as [[_ Hw] _]. by destruct (wall m p d).
Qed.

End Symmetry.

(** * The claims about the maze *)

(** C1.  For every grid of at least one cell each way, [Generate] after
    [Initialize] (on a maze whose stack is empty, as the constructor and
    every earlier [Generate] leave it) leaves its loop within
    [2 * MAZE_WIDTH * MAZE_HEIGHT] turns, and then the open passages form a
    spanning tree of the grid: a flood fill from cell (0,0) reaches every
    cell, exactly [MAZE_WIDTH * MAZE_HEIGHT - 1] pairs of adjacent cells have
    their wall open, and the passages form no cycle.  A wall flag of a cell
    is cleared exactly when that passage is open, so counting or walking by
    the flags of either side gives the same. *)
Theorem Generate_spanning_tree (settings : MazeSettings)
    (m : MazeGenerator.t) (s : RNG) :
  1 <= MAZE_WIDTH -> 1 <= MAZE_HEIGHT ->
  MazeGenerator.pathStack m = [] ->
  exists m' s',
    (forall fuel, 2 * MAZE_WIDTH * MAZE_HEIGHT <= Z.of_nat fuel ->
       MazeGenerator.Generate fuel (MazeGenerator.Initialize m) s
       = Some (m', s'))
    /\ (forall p, in_grid p -> reachable m' (0, 0) p)
    /\ Z.of_nat (open_pairs m') = MAZE_WIDTH * MAZE_HEIGHT - 1
    /\ (forall l, ~ cycle m' l)
    /\ (forall p d, in_grid p -> (wall m' p d = false <-> passage m' p d = true)).
Proof.
  intros HW HH Hst.
  destruct (Generate_correct m s HW HH Hst) as (m' & s' & Hgen & Hm').
  exists m', s'. split; [done|]. split; [apply (gen_reach _ Hm')|].
  split; [|split; [apply (gen_acyclic _ Hm')|]].
  - pose proof (gen_count _ Hm') as Hcount.
    unfold count_visited in Hcount.
    rewrite count_if_all, length_cells in Hcount.
    + nia.
    + intros p Hp. by apply (gen_visited _ Hm'), elem_of_cells.
  - intros p d Hp. by apply generated_passage.
Qed.

(** C2, what the claim says: the flags agree after any sequence of
    [RemoveWall] calls.  [RemoveWall] is public and tests the two differences
    [dx] and [dy] one after the other, so on the two cells (0,0) and (1,1)
    of the program's grid, which touch at a corner only, it clears four
    flags: [walls[1]] and [walls[0]] of (0,0), [walls[3]] and [walls[2]] of
    (1,1).  None of the four faces the other cell, and the flags on the far
    side of these four walls, in the cells (1,0) and (0,1), stay set. *)
Lemma RemoveWall_diagonal_counterexample :
  let m :=
    RemoveWalls [((0, 0), (1, 1))]
      (MazeGenerator.Initialize (settings := program_settings) fresh_maze) in
  in_grid (settings := program_settings) (0, 0)
  /\ in_grid (settings := program_settings) (1, 1)
  /\ ~ adjacent (0, 0) (1, 1)
  /\ wall m (0, 0) Right = false /\ wall m (1, 0) Left = true
  /\ wall m (0, 0) Top = false /\ wall m (0, 1) Bottom = true
  /\ wall m (1, 1) Left = false /\ wall m (0, 1) Right = true
  /\ wall m (1, 1) Bottom = false /\ wall m (1, 0) Top = true
  /\ ~ symmetric (settings := program_settings) m.
Proof.
  split; [by vm_compute|]. split; [by vm_compute|].
  split; [by intros [[] Hd]|].
  do 8 (split; [vm_compute; reflexivity|]).
  intros Hsym.
  assert (in_grid (settings := program_settings) (0, 0)) as H00
    by (by vm_compute).
  assert (in_grid (settings := program_settings) (neighbour (0, 0) Right))
    as H10 by (by vm_compute).
  destruct (Hsym (0, 0) Right H00 H10) as [Hforth _].
  specialize (Hforth ltac:(vm_compute; reflexivity)).
  vm_compute in Hforth. discriminate.
Qed.

(** C2, amended.  After [Initialize] and any sequence of [RemoveWall] calls
    on pairs of cells of the grid that share a side, and in particular after
    [Generate], the flag of a cell on the side facing a neighbour is cleared
    if and only if the flag of that neighbour on the side facing back is
    cleared; one more such [RemoveWall] clears both flags of the pair. *)
Theorem RemoveWall_keeps_walls_symmetric (settings : MazeSettings) :
  (forall (m : MazeGenerator.t) (calls : list (ptr * ptr)),
      Forall (fun c : ptr * ptr =>
                in_grid c.1 /\ in_grid c.2 /\ adjacent c.1 c.2) calls ->
      symmetric (RemoveWalls calls (MazeGenerator.Initialize m))
      /\ forall current d,
           in_grid current -> in_grid (neighbour current d) ->
           let m' := MazeGenerator.RemoveWall current (neighbour current d)
                       (RemoveWalls calls (MazeGenerator.Initialize m)) in
           wall m' current d = false
           /\ wall m' (neighbour current d) (opposite d) = false)
  /\ (forall (m : MazeGenerator.t) (s : RNG),
        1 <= MAZE_WIDTH -> 1 <= MAZE_HEIGHT ->
        MazeGenerator.pathStack m = [] ->
        exists m' s',
          (forall fuel, 2 * MAZE_WIDTH * MAZE_HEIGHT <= Z.of_nat fuel ->
             MazeGenerator.Generate fuel (MazeGenerator.Initialize m) s
             = Some (m', s'))
          /\ symmetric m').
Proof.
  split.
  - intros m calls Hcalls.
    destruct (RemoveWalls_ok calls (MazeGenerator.Initialize m) Hcalls
                (coordinates_ok_Initialize m) (symmetric_Initialize m))
      as [Hok Hsym].
    split; [done|]. intros current d Hc Hn. simpl.
    rewrite !wall_RemoveWall by done. split; apply decide_True; auto.
  - intros m s HW HH Hst.
    destruct (Generate_correct m s HW HH Hst) as (m' & s' & Hgen & Hm').
    exists m', s'. split; [done|]. by apply generated_symmetric.
Qed.

(** C9.  After [Initialize] and [Generate] every cell on the rim of the grid
    still has the flag of its outward wall set: [walls[0]] where
    [y = MAZE_HEIGHT - 1], [walls[1]] where [x = MAZE_WIDTH - 1], [walls[2]]
    where [y = 0] and [walls[3]] where [x = 0]. *)
Theorem Generate_keeps_perimeter (settings : MazeSettings)
    (m : MazeGenerator.t) (s : RNG) :
  1 <= MAZE_WIDTH -> 1 <= MAZE_HEIGHT ->
  MazeGenerator.pathStack m = [] ->
  exists m' s',
    (forall fuel, 2 * MAZE_WIDTH * MAZE_HEIGHT <= Z.of_nat fuel ->
       MazeGenerator.Generate fuel (MazeGenerator.Initialize m) s
       = Some (m', s'))
    /\ forall x y, in_grid (x, y) ->
         (y = MAZE_HEIGHT - 1 ->
          Cell.walls (MazeGenerator.deref m' (x, y)) 0 = true)
         /\ (x = MAZE_WIDTH - 1 ->
             Cell.walls (MazeGenerator.deref m' (x, y)) 1 = true)
         /\ (y = 0 -> Cell.walls (MazeGenerator.deref m' (x, y)) 2 = true)
         /\ (x = 0 -> Cell.walls (MazeGenerator.deref m' (x, y)) 3 = true).
Proof.
  intros HW HH Hst.
  destruct (Generate_correct m s HW HH Hst) as (m' & s' & Hgen & Hm').
  exists m', s'. split; [done|]. intros x y Hp.
  assert (forall d, ~ in_grid (neighbour (x, y) d) -> wall m' (x, y) d = true)
    as Hrim.
  { intros d Hout. destruct (wall m' (x, y) d) eqn:Hw; [done|].
    by destruct (gen_walls _ Hm' _ _ Hp Hw). }
  repeat split; intros ->.
  - apply (Hrim Top). unfold in_grid. simpl. lia.
  - apply (Hrim Right). unfold in_grid. simpl. lia.
  - apply (Hrim Bottom). unfold in_grid. simpl. lia.
  - apply (Hrim Left). unfold in_grid. simpl. lia.
Qed.

Lemma Generate_spanning_tree_witness :
  exists m' s',
    (forall fuel, 2 * 2 * 2 <= Z.of_nat fuel ->
       MazeGenerator.Generate (settings := grid2x2) fuel
         (MazeGenerator.Initialize (settings := grid2x2) fresh_maze)
         (draws [1; 0; 0]%nat) = Some (m', s'))
    /\ (forall p, in_grid (settings := grid2x2) p ->
                  reachable (settings := grid2x2) m' (0, 0) p)
    /\ Z.of_nat (open_pairs (settings := grid2x2) m') = 2 * 2 - 1
    /\ (forall l, ~ cycle (settings := grid2x2) m' l)
    /\ (forall p d, in_grid (settings := grid2x2) p ->
          (wall m' p d = false <-> passage (settings := grid2x2) m' p d = true)).
Proof.
  apply (Generate_spanning_tree grid2x2 fresh_maze (draws [1; 0; 0]%nat));
    [simpl; lia|simpl; lia|reflexivity].
Defined.

Lemma RemoveWall_keeps_walls_symmetric_witness :
  symmetric (settings := grid2x2)
    (RemoveWalls [((0, 0), (1, 0)); ((1, 1), (1, 0))]
       (MazeGenerator.Initialize (settings := grid2x2) fresh_maze)).
Proof.
  apply (proj1 (RemoveWall_keeps_walls_symmetric grid2x2) fresh_maze
           [((0, 0), (1, 0)); ((1, 1), (1, 0))]).
  repeat apply Forall_cons_2; [| |apply Forall_nil_2].
  - split; [unfold in_grid; simpl; lia|].
    split; [unfold in_grid; simpl; lia|]. by exists Right.
  - split; [unfold in_grid; simpl; lia|].
    split; [unfold in_grid; simpl; lia|]. by exists Bottom.
Defined.

Lemma Generate_keeps_perimeter_witness :
  exists m' s',
    (forall fuel, 2 * 2 * 2 <= Z.of_nat fuel ->
       MazeGenerator.Generate (settings := grid2x2) fuel
         (MazeGenerator.Initialize (settings := grid2x2) fresh_maze)
         (draws [1; 0; 0]%nat) = Some (m', s'))
    /\ forall x y, in_grid (settings := grid2x2) (x, y) ->
         (y = 2 - 1 -> Cell.walls (MazeGenerator.deref m' (x, y)) 0 = true)
         /\ (x = 2 - 1 -> Cell.walls (MazeGenerator.deref m' (x, y)) 1 = true)
         /\ (y = 0 -> Cell.walls (MazeGenerator.deref m' (x, y)) 2 = true)
         /\ (x = 0 -> Cell.walls (MazeGenerator.deref m' (x, y)) 3 = true).
Proof.
  apply (Generate_keeps_perimeter grid2x2 fresh_maze (draws [1; 0; 0]%nat));
    [simpl; lia|simpl; lia|reflexivity].
Defined.

(** ** The stack of Generate *)

Lemma pathStack_RemoveWall_any current next m :
  MazeGenerator.pathStack (MazeGenerator.RemoveWall current next m)
  = MazeGenerator.pathStack m.
Proof.
  unfold MazeGenerator.RemoveWall.
  repeat match goal with
  | |- context [?a =? ?b] => destruct (a =? b)
  end; reflexivity.
Qed.

Lemma Generate_loop_turns {settings : MazeSettings} n : forall k m current s,
  MazeGenerator.Generate_loop (n + k) m current s
  = let '(m', current', s') := MazeGenerator.Generate_turns n m current s in
    MazeGenerator.Generate_loop k m' current' s'.
Proof.
  induction n as [|n IH]; intros k m current s; [done|].
  change (S n + k)%nat with (S (n + k)). rewrite Generate_loop_unfold.
  simpl MazeGenerator.Generate_turns.
  destruct (MazeGenerator.pathStack m) as [|top rest] eqn:Hst.
  - destruct k; simpl; by rewrite Hst.
  - destruct (MazeGenerator.Generate_body m current s) as [[m' current'] s'].
    apply IH.
Qed.

(** C7, what the claim says: three picks East, East and then off the
    x axis on a 4x4 grid leave one entry on the stack.  The draws 1, 1, 0
    pick (1,0), (2,0) and (2,1), the only cell next to (2,0) that is off
    the x axis (no cell lies at y - 1 there), and the stack then holds four
    entries; so it does when the third pick goes on to (3,0). *)
Lemma three_picks_stack_depth_counterexample :
  let entry :=
    Generate_entry (MazeGenerator.Initialize (settings := grid4x4) fresh_maze) in
  let turns l n :=
    MazeGenerator.Generate_turns (settings := grid4x4) n entry (0, 0) (draws l) in
  (turns [1; 1; 0]%nat 1%nat).1.2 = (1, 0) /\ (turns [1; 1; 0]%nat 2%nat).1.2 = (2, 0)
  /\ (turns [1; 1; 0]%nat 3%nat).1.2 = (2, 1)
  /\ ~ in_grid (settings := grid4x4) (neighbour (2, 0) Bottom)
  /\ length (MazeGenerator.pathStack (turns [1; 1; 0]%nat 3%nat).1.1) = 4%nat
  /\ length (MazeGenerator.pathStack (turns [1; 1; 0]%nat 3%nat).1.1) <> 1%nat
  /\ (turns [1; 1; 1]%nat 3%nat).1.2 = (3, 0)
  /\ length (MazeGenerator.pathStack (turns [1; 1; 1]%nat 3%nat).1.1) = 4%nat.
Proof.
  repeat split; try (vm_compute; reflexivity).
  - unfold in_grid. simpl. lia.
  - vm_compute. discriminate.
Qed.

(** C7, amended.  A turn of the loop that finds an unvisited neighbour
    pushes [current], not the neighbour, and makes the neighbour the new
    [current].  On a fresh 4x4 grid whose first three draws are 1, 1, 0 the
    picks are (1,0), (2,0), (2,1), and after these three turns the stack
    holds four entries: the start cell pushed before the loop and the three
    cells that were [current] when a pick was made. *)
Theorem Generate_pushes_current :
  (forall (settings : MazeSettings) (m : MazeGenerator.t) (current : ptr)
          (s : RNG) (next : ptr) (s' : RNG),
      MazeGenerator.GetUnvisitedNeighbour m current s = (Some next, s') ->
      exists m',
        MazeGenerator.Generate_body m current s = (m', next, s')
        /\ MazeGenerator.pathStack m' = current :: MazeGenerator.pathStack m)
  /\ (forall rest : list nat,
        let '(m, current, _) :=
          MazeGenerator.Generate_turns (settings := grid4x4) 3
            (Generate_entry
               (MazeGenerator.Initialize (settings := grid4x4) fresh_maze))
            (0, 0) (draws (1 :: 1 :: 0 :: rest)%nat) in
        current = (2, 1)
        /\ MazeGenerator.pathStack m = [(2, 0); (1, 0); (0, 0); (0, 0)]).
Proof.
  split.
  - intros settings m current s next s' Hnext.
    unfold MazeGenerator.Generate_body. rewrite Hnext.
    eexists. split; [reflexivity|]. simpl.
    by rewrite pathStack_RemoveWall_any.
  - intros rest. vm_compute. done.
Qed.

Lemma Generate_pushes_current_witness :
  exists m',
    MazeGenerator.Generate_body (settings := grid4x4)
      (Generate_entry (MazeGenerator.Initialize (settings := grid4x4) fresh_maze))
      (0, 0) (draws [1]%nat)
    = (m', (1, 0), draws [])
    /\ MazeGenerator.pathStack m' = [(0, 0); (0, 0)].
Proof.
  apply (proj1 Generate_pushes_current grid4x4
           (Generate_entry
              (MazeGenerator.Initialize (settings := grid4x4) fresh_maze))
           (0, 0) (draws [1]%nat) (1, 0) (draws [])).
  reflexivity.
Defined.

(** ** The random source of the spawn positions *)

(** C6, what the claim says: the maze [Generate] builds does not depend on
    calls of [GetRandomSpawnPosition] made before it, nor the spawn position
    on the draws [Generate] has taken.  On the 20x20 grid of the program,
    with the draws 1, 0, 0, 0, ..., [Generate] opens the right wall of cell
    (0,0), but leaves it closed when one spawn position has been drawn
    first; and the spawn position drawn after [Generate] is not the one drawn
    before it. *)
Lemma spawn_draws_shift_Generate_counterexample :
  let s := draws [1; 0; 0]%nat in
  let Generate :=
    MazeGenerator.Generate (settings := program_settings) 800
      (MazeGenerator.Initialize (settings := program_settings) fresh_maze) in
  let spawn := MazeGenerator.GetRandomSpawnPosition (settings := program_settings) in
  option_map (fun r : MazeGenerator.t * RNG => wall r.1 (0, 0) Right) (Generate s)
  = Some false
  /\ option_map (fun r : MazeGenerator.t * RNG => wall r.1 (0, 0) Right)
       (Generate (spawn s).2)
     = Some true
  /\ (spawn s).1 = cell_centre (1, 0)
  /\ option_map (fun r : MazeGenerator.t * RNG => (spawn r.2).1) (Generate s)
     = Some (cell_centre (0, 0))
  /\ cell_centre (1, 0) <> cell_centre (0, 0).
Proof.
  repeat split; try (vm_compute; reflexivity).
  vm_compute. discriminate.
Qed.

(** C6, amended.  [GetRandomSpawnPosition] returns the centre, in world
    coordinates, of the cell whose indices are the next two draws of
    [rand()] reduced modulo the width and the height, a cell of the grid;
    every cell of the grid is returned for some draws.  The draws come from
    the one random source that [Generate] reads too: a call made before
    [Generate] makes [Generate] run on the stream two draws further on. *)
Theorem GetRandomSpawnPosition_shares_rand (settings : MazeSettings) (s : RNG) :
  1 <= MAZE_WIDTH -> 1 <= MAZE_HEIGHT ->
  let x := Z.of_nat (s 0%nat) `rem` MAZE_WIDTH in
  let y := Z.of_nat (s 1%nat) `rem` MAZE_HEIGHT in
  MazeGenerator.GetRandomSpawnPosition s
  = (cell_centre (x, y), fun i => s (S (S i)))
  /\ in_grid (x, y)
  /\ (forall p, in_grid p ->
        exists s0, (MazeGenerator.GetRandomSpawnPosition s0).1 = cell_centre p)
  /\ (forall fuel m,
        MazeGenerator.Generate fuel m (MazeGenerator.GetRandomSpawnPosition s).2
        = MazeGenerator.Generate fuel m (fun i => s (S (S i)))).
Proof.
  intros HW HH x y. split; [reflexivity|]. split; [|split].
  - unfold in_grid, x, y. simpl.
    pose proof (Z.rem_bound_pos (Z.of_nat (s 0%nat)) MAZE_WIDTH).
    pose proof (Z.rem_bound_pos (Z.of_nat (s 1%nat)) MAZE_HEIGHT). lia.
  - intros [px py] [Hx Hy]. simpl in Hx, Hy.
    exists (draws [Z.to_nat px; Z.to_nat py]).
    change ((MazeGenerator.GetRandomSpawnPosition
               (draws [Z.to_nat px; Z.to_nat py])).1)
      with (cell_centre (Z.of_nat (Z.to_nat px) `rem` MAZE_WIDTH,
                         Z.of_nat (Z.to_nat py) `rem` MAZE_HEIGHT)).
    rewrite !Z2Nat.id by lia. by rewrite !Z.rem_small by lia.
  - reflexivity.
Qed.

Lemma GetRandomSpawnPosition_shares_rand_witness :
  MazeGenerator.GetRandomSpawnPosition (settings := program_settings)
    (draws [25; 7]%nat)
  = (cell_centre (5, 7), draws []).
Proof.
  apply (GetRandomSpawnPosition_shares_rand program_settings (draws [25; 7]%nat));
    simpl; lia.
Defined.

(** * The claims about collision and the NPC *)

(** ** Comparisons of binary32 values *)

Lemma SFcompare_antisym a b : SFcompare b a = CompOpp <$> SFcompare a b.
Proof.
  destruct a as [sa|sa| |sa ma ea], b as [sb|sb| |sb mb eb]; simpl;
    try reflexivity; try (by destruct sa); try (by destruct sb);
    try (by destruct sa, sb).
  destruct sa, sb; simpl; try reflexivity; f_equal;
    rewrite (Z.compare_antisym ea eb);
    destruct (ea ?= eb); simpl; try reflexivity;
    rewrite !Pos.compare_cont_spec; simpl;
    rewrite (Pos.compare_antisym ma mb);
    by destruct (ma ?= mb)%positive.
Qed.

Lemma geb_not_ltb a b : F32.geb a b = true -> F32.ltb a b = false.
Proof.
  unfold F32.geb, F32.ltb, SFleb, SFltb. rewrite (SFcompare_antisym a b).
  by destruct (SFcompare a b) as [[]|].
Qed.

(** what is at least a positive value is not below a positive value of a
    lower exponent *)
Lemma geb_not_ltb_lower d ma ea mb eb :
  eb < ea ->
  F32.geb d (S754_finite false ma ea) = true ->
  F32.ltb d (S754_finite false mb eb) = false.
Proof.
  intros Hexp. unfold F32.geb, F32.ltb, SFleb, SFltb.
  destruct d as [sd|sd| |sd md ed]; simpl; try done; try (by destruct sd).
  destruct sd; [done|].
  destruct (Z.compare_spec ea ed), (Z.compare_spec ed eb); try done; lia.
Qed.

(** a distance of at least 5 is not below 3 *)
Lemma geb_5_not_ltb_3 d :
  F32.geb d (F32.of_int 5) = true -> F32.ltb d (F32.of_int 3) = false.
Proof.
  replace (F32.of_int 5) with (S754_finite false 10485760 (-21))
    by (vm_compute; reflexivity).
  replace (F32.of_int 3) with (S754_finite false 12582912 (-22))
    by (vm_compute; reflexivity).
  by apply geb_not_ltb_lower.
Qed.

Section Collision.
Context {settings : MazeSettings}.

Lemma GetCell_None x y : ~ in_grid (x, y) -> MazeGenerator.GetCell x y = None.
Proof.
  intros Hout. unfold MazeGenerator.GetCell.
  change ((0 <=? x) && (x <? MAZE_WIDTH) && (0 <=? y) && (y <? MAZE_HEIGHT))
    with (in_gridb (x, y)).
  by apply in_gridb_false in Hout as ->.
Qed.

Lemma GetCell_Some x y : in_grid (x, y) -> MazeGenerator.GetCell x y = Some (x, y).
Proof.
  intros Hin. unfold MazeGenerator.GetCell.
  change ((0 <=? x) && (x <? MAZE_WIDTH) && (0 <=? y) && (y <? MAZE_HEIGHT))
    with (in_gridb (x, y)).
  by apply in_gridb_true in Hin as ->.
Qed.

End Collision.

(** C5.  A position whose cell indices, as [CheckWallCollision] computes
    them (x and z plus half a cell, divided by the cell size, cast to
    [int]), fall outside the grid gets [nullptr] from [GetCell] and is
    reported blocked, whatever the walls of the maze are. *)
Theorem CheckWallCollision_outside_grid (settings : MazeSettings)
    (maze : MazeGenerator.t) (newPos : Vector3) :
  ~ in_grid (cell_index newPos) ->
  MazeGenerator.GetCell (cell_index newPos).1 (cell_index newPos).2 = None
  /\ MazeGenerator.CheckWallCollision maze newPos = true.
Proof.
  intros Hout.
  assert (MazeGenerator.GetCell (cell_index newPos).1 (cell_index newPos).2
          = None) as Hnull.
  { apply GetCell_None. by destruct (cell_index newPos). }
  split; [done|].
  unfold MazeGenerator.CheckWallCollision.
  unfold cell_index in Hnull. simpl in Hnull. by rewrite Hnull.
Qed.

Lemma CheckWallCollision_outside_grid_witness :
  MazeGenerator.GetCell (settings := program_settings) (-1) 0 = None
  /\ MazeGenerator.CheckWallCollision (settings := program_settings)
       example_maze (Vector3.mk (F32.of_int (-2)) F32.zero F32.zero) = true.
Proof.
  apply (CheckWallCollision_outside_grid program_settings example_maze
           (Vector3.mk (F32.of_int (-2)) F32.zero F32.zero)).
  vm_compute. intros [[H _] _]. by apply H.
Defined.

(** ** Think *)

(** C4.  When [Think] fires (the timer plus the frame time exceeds 0.5),
    with [d] the distance from the NPC to the player: below 3 the state
    becomes FLEEING and the target the position plus twice the unit vector
    from the player to the NPC; from 3 and below 5 the state becomes CHASING
    and the target the player's position; from 5 on the state becomes
    WANDERING and the target is replaced by a fresh spawn position when the
    draw modulo 10 is below 3 (three residues of the ten) and is kept
    otherwise.  An NPC at (2,0,0) with the player at (0,0,0) flees
    to (4,0,0). *)
Theorem Think_decides (settings : MazeSettings) (maze : MazeGenerator.t)
    (playerPos : Vector3) (deltaTime : float) (npc : NPC.t) (s : RNG) :
  F32.gtb (F32.add (NPC.thinkTimer npc) deltaTime) (F32.lit 1 2) = true ->
  let d := Vector3Distance (NPC.position npc) playerPos in
  let npc' := (NPC.Think maze playerPos deltaTime npc s).1 in
  let s' := (NPC.Think maze playerPos deltaTime npc s).2 in
  (F32.ltb d (F32.of_int 3) = true ->
     NPC.state npc' = NPC.FLEEING
     /\ NPC.target npc'
        = Vector3Add (NPC.position npc)
            (Vector3Scale
               (Vector3Normalize (Vector3Subtract (NPC.position npc) playerPos))
               (F32.of_int 2))
     /\ s' = s)
  /\ (F32.geb d (F32.of_int 3) = true -> F32.ltb d (F32.of_int 5) = true ->
        NPC.state npc' = NPC.CHASING /\ NPC.target npc' = playerPos /\ s' = s)
  /\ (F32.geb d (F32.of_int 5) = true ->
        NPC.state npc' = NPC.WANDERING
        /\ if (rand s).1 `rem` 10 <? 3
           then NPC.target npc'
                = (MazeGenerator.GetRandomSpawnPosition (rand s).2).1
                /\ s' = (MazeGenerator.GetRandomSpawnPosition (rand s).2).2
           else NPC.target npc' = NPC.target npc /\ s' = (rand s).2)
  /\ count_if (fun k => k <? 3) (seqZ 0 10) = 3%nat
  /\ (NPC.position npc = Vector3.mk (F32.of_int 2) F32.zero F32.zero ->
      playerPos = Vector3.mk F32.zero F32.zero F32.zero ->
      NPC.state npc' = NPC.FLEEING
      /\ NPC.target npc' = Vector3.mk (F32.of_int 4) F32.zero F32.zero).
Proof.
  intros Hfire d npc' s'.
  assert (F32.ltb d (F32.of_int 3) = true ->
          NPC.state npc' = NPC.FLEEING
          /\ NPC.target npc'
             = Vector3Add (NPC.position npc)
                 (Vector3Scale
                    (Vector3Normalize
                       (Vector3Subtract (NPC.position npc) playerPos))
                    (F32.of_int 2))
          /\ s' = s) as Hflee.
  { intros Hd. unfold npc', s', NPC.Think. rewrite Hfire.
    fold d. by rewrite Hd. }
  split; [exact Hflee|]. split; [|split; [|split; [reflexivity|]]].
  - intros H3 H5. apply geb_not_ltb in H3.
    unfold npc', s', NPC.Think. rewrite Hfire. fold d. by rewrite H3, H5.
  - intros H5. pose proof (geb_5_not_ltb_3 d H5) as H3.
    apply geb_not_ltb in H5.
    unfold npc', s', NPC.Think. rewrite Hfire. fold d. rewrite H3, H5.
    destruct (rand s) as [r s1] eqn:Hrand. simpl fst. simpl snd.
    destruct (r `rem` 10 <? 3).
    + by destruct (MazeGenerator.GetRandomSpawnPosition s1).
    + done.
  - intros Hpos ->.
    assert (F32.ltb d (F32.of_int 3) = true) as Hd.
    { unfold d. rewrite Hpos. vm_compute. reflexivity. }
    destruct (Hflee Hd) as (Hst & Htg & _). split; [done|].
    rewrite Htg, Hpos. vm_compute. reflexivity.
Qed.

Lemma Think_decides_witness :
  NPC.state
    (NPC.Think (settings := program_settings) example_maze
       (Vector3.mk F32.zero F32.zero F32.zero) (F32.of_int 1)
       (NPC.new (Vector3.mk (F32.of_int 2) F32.zero F32.zero)
                (Vector3.mk (F32.of_int 9) F32.zero F32.zero)
                (Color.mk 255 0 0 255))
       (draws [])).1
  = NPC.FLEEING
  /\ NPC.target
       (NPC.Think (settings := program_settings) example_maze
          (Vector3.mk F32.zero F32.zero F32.zero) (F32.of_int 1)
          (NPC.new (Vector3.mk (F32.of_int 2) F32.zero F32.zero)
                   (Vector3.mk (F32.of_int 9) F32.zero F32.zero)
                   (Color.mk 255 0 0 255))
          (draws [])).1
     = Vector3.mk (F32.of_int 4) F32.zero F32.zero.
Proof.
  apply (Think_decides program_settings example_maze
           (Vector3.mk F32.zero F32.zero F32.zero) (F32.of_int 1)
           (NPC.new (Vector3.mk (F32.of_int 2) F32.zero F32.zero)
                    (Vector3.mk (F32.of_int 9) F32.zero F32.zero)
                    (Color.mk 255 0 0 255))
           (draws [])); [vm_compute| |]; reflexivity.
Defined.

(** ** The states of the automaton *)

Section States.
Context {settings : MazeSettings}.

Lemma Think_state maze playerPos deltaTime npc s :
  let st := NPC.state (NPC.Think maze playerPos deltaTime npc s).1 in
  st = NPC.state npc \/ st = NPC.FLEEING \/ st = NPC.CHASING
  \/ st = NPC.WANDERING.
Proof.
  unfold NPC.Think.
  repeat match goal with
  | |- context [if ?c then _ else _] => destruct c
  | |- context [let '(_, _) := ?p in _] => destruct p
  end; simpl; auto.
Qed.

Lemma Update_state maze deltaTime npc s :
  NPC.state (NPC.Update maze deltaTime npc s).1 = NPC.state npc.
Proof.
  unfold NPC.Update.
  repeat match goal with
  | |- context [if ?c then _ else _] => destruct c
  | |- context [let '(_, _) := ?p in _] => destruct p
  end; reflexivity.
Qed.

Lemma run_call_not_patrolling st c :
  NPC.state st.1 <> NPC.PATROLLING ->
  NPC.state (NPC.run_call st c).1 <> NPC.PATROLLING.
Proof.
  intros Hst. destruct c as [maze playerPos deltaTime|maze deltaTime]; simpl.
  - destruct (Think_state maze playerPos deltaTime st.1 st.2)
      as [-> |[-> |[-> | ->]]]; done.
  - by rewrite Update_state.
Qed.

Lemma run_not_patrolling calls : forall st,
  NPC.state st.1 <> NPC.PATROLLING ->
  NPC.state (foldl NPC.run_call st calls).1 <> NPC.PATROLLING.
Proof.
  induction calls as [|c calls IH]; intros st Hst; [done|].
  simpl. by apply IH, run_call_not_patrolling.
Qed.

End States.

(** C8.  An NPC that starts in WANDERING is never in PATROLLING, whatever
    finite sequence of [Think] and [Update] calls it goes through (any
    mazes, player positions, frame times and draws): no call takes an NPC
    into PATROLLING from another state. *)
Theorem NPC_never_patrols (settings : MazeSettings) (calls : list NPC.call)
    (npc : NPC.t) (s : RNG) :
  NPC.state npc = NPC.WANDERING ->
  NPC.state (NPC.run calls npc s).1 <> NPC.PATROLLING
  /\ (forall st c, NPC.state (NPC.run_call st c).1 = NPC.PATROLLING ->
                   NPC.state st.1 = NPC.PATROLLING).
Proof.
  intros Hstart. split.
  - apply run_not_patrolling. simpl. by rewrite Hstart.
  - intros st c Hafter.
    destruct (NPC.state st.1) eqn:Hst; [exfalso..|done];
      apply (run_call_not_patrolling st c); try done; by rewrite Hst.
Qed.

Lemma NPC_never_patrols_witness :
  NPC.state
    (NPC.run (settings := program_settings)
       [NPC.CallThink example_maze (Vector3.mk F32.zero F32.zero F32.zero)
          (F32.of_int 1);
        NPC.CallUpdate example_maze example_deltaTime]
       example_npc (draws [])).1
  <> NPC.PATROLLING
  /\ (forall st c,
        NPC.state (NPC.run_call (settings := program_settings) st c).1
        = NPC.PATROLLING ->
        NPC.state st.1 = NPC.PATROLLING).
Proof.
  apply (NPC_never_patrols program_settings
           [NPC.CallThink example_maze (Vector3.mk F32.zero F32.zero F32.zero)
              (F32.of_int 1);
            NPC.CallUpdate example_maze example_deltaTime]
           example_npc (draws [])).
  reflexivity.
Defined.

(** ** Update *)

(** C10.  An [Update] whose attempted move is rejected by the collision
    check leaves the position, the state and the think timer of the NPC (and
    its speed and colour) as they were; the target alone changes, to a fresh
    random spawn position. *)
Theorem Update_rejected_changes_target_only (settings : MazeSettings)
    (maze : MazeGenerator.t) (deltaTime : float) (npc : NPC.t) (s : RNG) :
  F32.gtb (Vector3Length (Vector3Subtract (NPC.target npc) (NPC.position npc)))
          (F32.lit 1 10) = true ->
  MazeGenerator.CheckWallCollision maze
    (Vector3Add (NPC.position npc) (NPC.move deltaTime npc)) = true ->
  let npc' := (NPC.Update maze deltaTime npc s).1 in
  NPC.position npc' = NPC.position npc
  /\ NPC.state npc' = NPC.state npc
  /\ NPC.thinkTimer npc' = NPC.thinkTimer npc
  /\ NPC.speed npc' = NPC.speed npc
  /\ NPC.color npc' = NPC.color npc
  /\ NPC.target npc' = (MazeGenerator.GetRandomSpawnPosition s).1.
Proof.
  intros Hfar Hblocked. unfold NPC.Update, NPC.move in *. cbv zeta.
  rewrite Hfar, Hblocked. simpl negb. cbv iota.
  by destruct (MazeGenerator.GetRandomSpawnPosition s).
Qed.

Lemma Update_rejected_changes_target_only_witness :
  let npc' :=
    (NPC.Update (settings := program_settings) example_maze example_deltaTime
       example_npc (draws [3; 4]%nat)).1 in
  NPC.position npc' = NPC.position example_npc
  /\ NPC.state npc' = NPC.state example_npc
  /\ NPC.thinkTimer npc' = NPC.thinkTimer example_npc
  /\ NPC.speed npc' = NPC.speed example_npc
  /\ NPC.color npc' = NPC.color example_npc
  /\ NPC.target npc'
     = (MazeGenerator.GetRandomSpawnPosition (settings := program_settings)
          (draws [3; 4]%nat)).1.
Proof.
  apply (Update_rejected_changes_target_only program_settings example_maze
           example_deltaTime example_npc (draws [3; 4]%nat));
    vm_compute; reflexivity.
Defined.

(** C3, what the claim says: [Update] resolves the move of an NPC axis by
    axis as the player's move is, and gives up the target only when both
    axes are blocked.  In cell (0,0) of [example_maze], whose top wall is
    present and whose right wall is open, [example_npc] heads up and to the
    right: the move along x alone is free, and the player's rule commits it,
    but [Update] leaves the NPC where it is and replaces its target. *)
Lemma Update_not_per_axis_counterexample :
  let position := NPC.position example_npc in
  let move := NPC.move example_deltaTime example_npc in
  let npc' :=
    (NPC.Update (settings := program_settings) example_maze example_deltaTime
       example_npc (draws [3; 4]%nat)).1 in
  F32.gtb (Vector3Length (Vector3Subtract (NPC.target example_npc) position))
          (F32.lit 1 10) = true
  /\ MazeGenerator.CheckWallCollision (settings := program_settings) example_maze
       (Vector3.mk (F32.add (Vector3.x position) (Vector3.x move))
                   (Vector3.y position) (Vector3.z position)) = false
  /\ Vector3.x (PlayerMove (settings := program_settings) example_maze
                  position move)
     = F32.add (Vector3.x position) (Vector3.x move)
  /\ PlayerMove (settings := program_settings) example_maze position move
     <> position
  /\ NPC.position npc' = position
  /\ NPC.target npc' = cell_centre (3, 4)
  /\ NPC.target npc' <> NPC.target example_npc.
Proof.
  repeat split; try (vm_compute; reflexivity); vm_compute; discriminate.
Qed.

(** C3, amended.  In an [Update] whose target lies more than 0.1 away the
    NPC tests one candidate, its position plus the whole displacement (all
    components changed at once).  If that candidate is not blocked the NPC
    moves there and keeps its target; if it is blocked the NPC stays where it
    is, gives up its target and takes a fresh random spawn position as the new
    one. *)
Theorem Update_tests_whole_move (settings : MazeSettings)
    (maze : MazeGenerator.t) (deltaTime : float) (npc : NPC.t) (s : RNG) :
  F32.gtb (Vector3Length (Vector3Subtract (NPC.target npc) (NPC.position npc)))
          (F32.lit 1 10) = true ->
  let newPos := Vector3Add (NPC.position npc) (NPC.move deltaTime npc) in
  NPC.Update maze deltaTime npc s
  = if MazeGenerator.CheckWallCollision maze newPos
    then (NPC.mk (NPC.position npc)
                 (MazeGenerator.GetRandomSpawnPosition s).1
                 (NPC.speed npc) (NPC.thinkTimer npc) (NPC.color npc)
                 (NPC.state npc),
          (MazeGenerator.GetRandomSpawnPosition s).2)
    else (NPC.mk newPos (NPC.target npc) (NPC.speed npc) (NPC.thinkTimer npc)
                 (NPC.color npc) (NPC.state npc), s).
Proof.
  intros Hfar newPos. unfold NPC.Update. cbv zeta. rewrite Hfar.
  change (Vector3Add (NPC.position npc)
            (Vector3Scale
               (Vector3Normalize
                  (Vector3Subtract (NPC.target npc) (NPC.position npc)))
               (F32.mul (NPC.speed npc) deltaTime)))
    with newPos.
  destruct (MazeGenerator.CheckWallCollision maze newPos); simpl negb; cbv iota;
    [|reflexivity].
  by destruct (MazeGenerator.GetRandomSpawnPosition s).
Qed.

Lemma Update_tests_whole_move_witness :
  NPC.Update (settings := program_settings) example_maze example_deltaTime
    example_npc (draws [3; 4]%nat)
  = (NPC.mk (NPC.position example_npc) (cell_centre (3, 4))
            (NPC.speed example_npc) (NPC.thinkTimer example_npc)
            (NPC.color example_npc) (NPC.state example_npc),
     draws []).
Proof.
  apply (Update_tests_whole_move program_settings example_maze
           example_deltaTime example_npc (draws [3; 4]%nat)).
  vm_compute. reflexivity.
Defined.

(** * Worked examples *)

(** [Generate] on a 2x2 grid with the draws 1, 0, 0: from (0,0) right to
    (1,0), up to (1,1), left to (0,1). *)
Example Generate_2x2 :
  option_map
    (fun r : MazeGenerator.t * RNG =>
       (map (MazeGenerator.deref r.1) (MazeGenerator.cells (settings := grid2x2)),
        MazeGenerator.pathStack r.1))
    (MazeGenerator.Generate (settings := grid2x2) 8
       (MazeGenerator.Initialize (settings := grid2x2) fresh_maze)
       (draws [1; 0; 0]%nat))
  = Some ([Cell.mk 0 0 true true false true true;
           Cell.mk 0 1 true true false true true;
           Cell.mk 1 0 true false true true false;
           Cell.mk 1 1 true true true false false], []).
Proof. vm_compute. reflexivity. Qed.

Example Generate_2x2_open_pairs :
  option_map (fun r : MazeGenerator.t * RNG => open_pairs (settings := grid2x2) r.1)
    (MazeGenerator.Generate (settings := grid2x2) 8
       (MazeGenerator.Initialize (settings := grid2x2) fresh_maze)
       (draws [1; 0; 0]%nat))
  = Some 3%nat.
Proof. vm_compute. reflexivity. Qed.

(** six turns are not enough on the 2x2 grid, seven are *)
Example Generate_2x2_fuel :
  MazeGenerator.Generate (settings := grid2x2) 6
    (MazeGenerator.Initialize (settings := grid2x2) fresh_maze)
    (draws [1; 0; 0]%nat) = None
  /\ is_Some (MazeGenerator.Generate (settings := grid2x2) 7
                (MazeGenerator.Initialize (settings := grid2x2) fresh_maze)
                (draws [1; 0; 0]%nat)).
Proof. split; [vm_compute; reflexivity|]. vm_compute. eauto. Qed.

(** In cell (0,0) of [example_maze] the centre is free, a point 0.4 above
    the centre is within the player's radius of the top wall, and a point
    0.4 to the right of the centre is free because the right wall is open. *)
Example CheckWallCollision_cell_0_0 :
  MazeGenerator.CheckWallCollision (settings := program_settings) example_maze
    (Vector3.mk F32.zero (F32.lit 1 4) F32.zero) = false
  /\ MazeGenerator.CheckWallCollision (settings := program_settings) example_maze
       (Vector3.mk F32.zero (F32.lit 1 4) (F32.lit 2 5)) = true
  /\ MazeGenerator.CheckWallCollision (settings := program_settings) example_maze
       (Vector3.mk (F32.lit 2 5) (F32.lit 1 4) F32.zero) = false.
Proof. repeat split; vm_compute; reflexivity. Qed.

(** the constants of the program as binary32 values *)
Example constants :
  PLAYER_RADIUS = S754_finite false 10066330 (-26)
  /\ CELL_SIZE = S754_finite false 8388608 (-23)
  /\ F32.sub CELL_SIZE PLAYER_RADIUS = S754_finite false 14260634 (-24).
Proof. repeat split; vm_compute; reflexivity. Qed.

(** * More of the program *)

(** ** What Generate reads and writes *)

Section GenerateMore.
Context {settings : MazeSettings}.

(** a property of the maze and the random source that every turn keeps
    holds when the loop is left *)
Lemma Generate_loop_invariant (Q : MazeGenerator.t -> RNG -> Prop) :
  (forall m current s,
      generate_inv m current -> MazeGenerator.pathStack m <> [] -> Q m s ->
      Q (MazeGenerator.Generate_body m current s).1.1
        (MazeGenerator.Generate_body m current s).2) ->
  forall fuel m current s m' s',
    generate_inv m current -> Q m s ->
    MazeGenerator.Generate_loop fuel m current s = Some (m', s') ->
    Q m' s'.
Proof.
  intros Hstep. induction fuel as [|fuel IH]; intros m current s m' s' Hinv HQ Hrun.
  - simpl in Hrun. destruct (MazeGenerator.pathStack m); [|done].
    by injection Hrun as <- <-.
  - rewrite Generate_loop_unfold in Hrun.
    destruct (MazeGenerator.pathStack m) as [|top rest] eqn:Hst.
    { by injection Hrun as <- <-. }
    assert (MazeGenerator.pathStack m <> []) as Hne by (by rewrite Hst).
    specialize (Hstep m current s Hinv Hne HQ).
    destruct (Generate_body_cases m current s (gi_coordinates _ _ Hinv)
                (proj1 (gi_current _ _ Hinv)))
      as (m1 & c1 & s1 & Heq & Hcase).
    rewrite Heq in Hrun, Hstep. simpl in Hstep.
    apply (IH m1 c1 s1); [|done|done].
    destruct Hcase as [(d & -> & Hfs & _)|(Hall & -> & -> & _)].
    + by eapply forward_inv.
    + rewrite Hst. simpl. by eapply backward_inv.
Qed.

(** a turn writes to cells of the grid only *)
Lemma Generate_body_outside m current s p :
  coordinates_ok m -> in_grid current -> ~ in_grid p ->
  MazeGenerator.grid (MazeGenerator.Generate_body m current s).1.1 !! p
  = MazeGenerator.grid m !! p.
Proof.
  intros Hm Hc Hp. unfold MazeGenerator.Generate_body.
  pose proof (GetUnvisitedNeighbour_spec m current s Hm Hc) as Hspec.
  destruct (MazeGenerator.GetUnvisitedNeighbour m current s) as [[next|] s1].
  - destruct Hspec as (_ & d & -> & Hin & _).
    rewrite RemoveWall_neighbour by done. simpl.
    rewrite !lookup_insert_ne; [done|by intros <-..].
  - destruct (MazeGenerator.pathStack m); reflexivity.
Qed.

(** a turn that picks a neighbour takes one draw and marks one cell; a
    turn that backtracks takes none and marks none *)
Lemma Generate_body_draws m current s :
  generate_inv m current ->
  exists k : nat,
    count_visited (MazeGenerator.Generate_body m current s).1.1
    = (k + count_visited m)%nat
    /\ forall i, (MazeGenerator.Generate_body m current s).2 i = s (k + i)%nat.
Proof.
  intros Hinv.
  destruct (Generate_body_cases m current s (gi_coordinates _ _ Hinv)
              (proj1 (gi_current _ _ Hinv)))
    as (m1 & c1 & s1 & -> & [(d & -> & Hfs & ->)|(Hall & -> & -> & ->)]).
  - exists 1%nat. simpl. split; [|done].
    by apply (forward_count_visited m m1 current d).
  - by exists 0%nat.
Qed.

Lemma count_visited_entry m :
  1 <= MAZE_WIDTH -> 1 <= MAZE_HEIGHT ->
  count_visited (Generate_entry (MazeGenerator.Initialize m)) = 1%nat.
Proof.
  intros HW HH. unfold count_visited.
  rewrite <- (count_if_none (fun _ : ptr => false) MazeGenerator.cells) by done.
  apply (count_if_switch_on (fun _ => false) _ _ (0, 0)).
  - apply NoDup_cells.
  - apply elem_of_cells. unfold in_grid. simpl. lia.
  - done.
  - unfold Generate_entry.
    rewrite visited_push, visited_update_set_visited. by apply decide_True.
  - intros q Hq Hne. apply elem_of_cells in Hq. unfold Generate_entry.
    rewrite visited_push, visited_update_set_visited.
    rewrite decide_False by done.
    unfold visited. by rewrite deref_Initialize.
Qed.

Lemma Generate_more fuel m s m' s' :
  1 <= MAZE_WIDTH -> 1 <= MAZE_HEIGHT -> MazeGenerator.pathStack m = [] ->
  MazeGenerator.Generate fuel (MazeGenerator.Initialize m) s = Some (m', s') ->
  (forall p, ~ in_grid p ->
     MazeGenerator.grid m' !! p = MazeGenerator.grid m !! p)
  /\ forall i, s' i = s (pred (count_visited m') + i)%nat.
Proof.
  intros HW HH Hst Hrun. rewrite Generate_unfold in Hrun.
  pose proof (Generate_entry_inv m HW HH Hst) as Hinv.
  fold (Generate_entry (MazeGenerator.Initialize m)) in Hinv.
  split.
  - apply (Generate_loop_invariant
             (fun m1 _ => forall p, ~ in_grid p ->
                MazeGenerator.grid m1 !! p = MazeGenerator.grid m !! p)
             ltac:(intros m1 c1 s1 Hinv1 _ HQ p Hp;
                   rewrite Generate_body_outside;
                   [by apply HQ|apply (gi_coordinates _ _ Hinv1)
                   |apply (gi_current _ _ Hinv1)|done])
             fuel _ (0, 0) s m' s' Hinv); [|done].
    intros p Hp. simpl.
    rewrite lookup_insert_ne
      by (intros <-; apply Hp; unfold in_grid; simpl; lia).
    apply Initialize_fold_notin. by rewrite elem_of_cells.
  - apply (Generate_loop_invariant
             (fun m1 s1 => forall i, s1 i = s (pred (count_visited m1) + i)%nat)
             ltac:(intros m1 c1 s1 Hinv1 _ HQ i;
                   destruct (Generate_body_draws m1 c1 s1 Hinv1) as (k & -> & ->);
                   pose proof (gi_count _ _ Hinv1);
                   rewrite HQ; f_equal; lia)
             fuel _ (0, 0) s m' s' Hinv); [|done].
    intros i. by rewrite count_visited_entry.
Qed.

End GenerateMore.

(** X1.  [Generate] after [Initialize] marks every cell of the grid visited,
    leaves the [x] and [y] members of the cells equal to their indices, and
    leaves the stack empty, so the maze object is ready for the next
    [Initialize] and [Generate]. *)
Theorem Generate_marks_every_cell (settings : MazeSettings)
    (m : MazeGenerator.t) (s : RNG) :
  1 <= MAZE_WIDTH -> 1 <= MAZE_HEIGHT ->
  MazeGenerator.pathStack m = [] ->
  exists m' s',
    (forall fuel, 2 * MAZE_WIDTH * MAZE_HEIGHT <= Z.of_nat fuel ->
       MazeGenerator.Generate fuel (MazeGenerator.Initialize m) s
       = Some (m', s'))
    /\ MazeGenerator.pathStack m' = []
    /\ forall p, in_grid p ->
         Cell.visited (MazeGenerator.deref m' p) = true
         /\ Cell.x (MazeGenerator.deref m' p) = p.1
         /\ Cell.y (MazeGenerator.deref m' p) = p.2.
Proof.
  intros HW HH Hst.
  destruct (Generate_correct m s HW HH Hst) as (m' & s' & Hgen & Hm').
  exists m', s'. split; [done|]. split; [apply (gen_stack _ Hm')|].
  intros p Hp. split; [by apply (gen_visited _ Hm')|].
  by apply (gen_coordinates _ Hm').
Qed.

Lemma Generate_marks_every_cell_witness :
  exists m' s',
    (forall fuel, 2 * 2 * 2 <= Z.of_nat fuel ->
       MazeGenerator.Generate (settings := grid2x2) fuel
         (MazeGenerator.Initialize (settings := grid2x2) fresh_maze)
         (draws [1; 0; 0]%nat) = Some (m', s'))
    /\ MazeGenerator.pathStack m' = []
    /\ forall p, in_grid (settings := grid2x2) p ->
         Cell.visited (MazeGenerator.deref m' p) = true
         /\ Cell.x (MazeGenerator.deref m' p) = p.1
         /\ Cell.y (MazeGenerator.deref m' p) = p.2.
Proof.
  apply (Generate_marks_every_cell grid2x2 fresh_maze (draws [1; 0; 0]%nat));
    [simpl; lia|simpl; lia|reflexivity].
Defined.

(** X2.  [Generate] takes one draw of [rand()] for every cell but the
    first, [MAZE_WIDTH * MAZE_HEIGHT - 1] in all, whatever the draws are:
    the random source it leaves behind is the one it was given, that many
    draws further on. *)
Theorem Generate_takes_one_draw_per_cell (settings : MazeSettings)
    (m : MazeGenerator.t) (s : RNG) :
  1 <= MAZE_WIDTH -> 1 <= MAZE_HEIGHT ->
  MazeGenerator.pathStack m = [] ->
  exists m' s',
    (forall fuel, 2 * MAZE_WIDTH * MAZE_HEIGHT <= Z.of_nat fuel ->
       MazeGenerator.Generate fuel (MazeGenerator.Initialize m) s
       = Some (m', s'))
    /\ forall i,
         s' i = advance (Z.to_nat (MAZE_WIDTH * MAZE_HEIGHT - 1)) s i.
Proof.
  intros HW HH Hst.
  destruct (Generate_correct m s HW HH Hst) as (m' & s' & Hgen & Hm').
  exists m', s'. split; [done|]. intros i.
  destruct (Generate_more (Z.to_nat (2 * MAZE_WIDTH * MAZE_HEIGHT)) m s m' s'
              HW HH Hst) as [_ Hdraws]; [apply Hgen; lia|].
  rewrite Hdraws. unfold advance, count_visited.
  rewrite count_if_all, length_cells.
  - f_equal. nia.
  - intros p Hp. by apply (gen_visited _ Hm'), elem_of_cells.
Qed.

Lemma Generate_takes_one_draw_per_cell_witness :
  exists m' s',
    (forall fuel, 2 * 2 * 2 <= Z.of_nat fuel ->
       MazeGenerator.Generate (settings := grid2x2) fuel
         (MazeGenerator.Initialize (settings := grid2x2) fresh_maze)
         (draws [1; 0; 0; 7; 9]%nat) = Some (m', s'))
    /\ forall i, s' i = advance 3 (draws [1; 0; 0; 7; 9]%nat) i.
Proof.
  apply (Generate_takes_one_draw_per_cell grid2x2 fresh_maze
           (draws [1; 0; 0; 7; 9]%nat));
    [simpl; lia|simpl; lia|reflexivity].
Defined.

(** X3.  [Initialize] and [Generate] write to the cells of the grid only:
    whatever the maze object holds at an index pair outside
    [0, MAZE_WIDTH) x [0, MAZE_HEIGHT) is left as it was. *)
Theorem Generate_writes_inside_grid (settings : MazeSettings)
    (m : MazeGenerator.t) (s : RNG) :
  1 <= MAZE_WIDTH -> 1 <= MAZE_HEIGHT ->
  MazeGenerator.pathStack m = [] ->
  exists m' s',
    (forall fuel, 2 * MAZE_WIDTH * MAZE_HEIGHT <= Z.of_nat fuel ->
       MazeGenerator.Generate fuel (MazeGenerator.Initialize m) s
       = Some (m', s'))
    /\ forall p, ~ in_grid p ->
         MazeGenerator.grid m' !! p = MazeGenerator.grid m !! p.
Proof.
  intros HW HH Hst.
  destruct (Generate_correct m s HW HH Hst) as (m' & s' & Hgen & Hm').
  exists m', s'. split; [done|].
  destruct (Generate_more (Z.to_nat (2 * MAZE_WIDTH * MAZE_HEIGHT)) m s m' s'
              HW HH Hst) as [Hout _]; [apply Hgen; lia|done].
Qed.

Lemma Generate_writes_inside_grid_witness :
  exists m' s',
    (forall fuel, 2 * 2 * 2 <= Z.of_nat fuel ->
       MazeGenerator.Generate (settings := grid2x2) fuel
         (MazeGenerator.Initialize (settings := grid2x2) fresh_maze)
         (draws [1; 0; 0]%nat) = Some (m', s'))
    /\ forall p, ~ in_grid (settings := grid2x2) p ->
         MazeGenerator.grid m' !! p = MazeGenerator.grid fresh_maze !! p.
Proof.
  apply (Generate_writes_inside_grid grid2x2 fresh_maze (draws [1; 0; 0]%nat));
    [simpl; lia|simpl; lia|reflexivity].
Defined.

(** ** Initialize *)

Section InitializeMore.
Context {settings : MazeSettings}.

Lemma grid_Initialize m p :
  MazeGenerator.grid (MazeGenerator.Initialize m) !! p
  = if decide (in_grid p) then Some (Cell.new p.1 p.2)
    else MazeGenerator.grid m !! p.
Proof.
  unfold MazeGenerator.Initialize. simpl. case_decide as Hp.
  - by apply Initialize_fold_in, elem_of_cells.
  - apply Initialize_fold_notin. by rewrite elem_of_cells.
Qed.

End InitializeMore.

(** X4.  [Initialize] resets every cell of the grid to its indices, not
    visited, four walls present, whatever the maze held before (so no cell
    counts as visited and no passage as open), keeps the stack, and does not
    depend on the earlier contents of the grid: two maze objects that agree
    outside the grid and on the stack are equal after it, and a second
    [Initialize] changes nothing. *)
Theorem Initialize_resets (settings : MazeSettings) (m : MazeGenerator.t) :
  (forall p, in_grid p ->
     MazeGenerator.deref (MazeGenerator.Initialize m) p = Cell.new p.1 p.2)
  /\ MazeGenerator.pathStack (MazeGenerator.Initialize m)
     = MazeGenerator.pathStack m
  /\ count_visited (MazeGenerator.Initialize m) = 0%nat
  /\ open_pairs (MazeGenerator.Initialize m) = 0%nat
  /\ (forall m0,
        (forall p, ~ in_grid p ->
           MazeGenerator.grid m0 !! p = MazeGenerator.grid m !! p) ->
        MazeGenerator.pathStack m0 = MazeGenerator.pathStack m ->
        MazeGenerator.Initialize m0 = MazeGenerator.Initialize m)
  /\ MazeGenerator.Initialize (MazeGenerator.Initialize m)
     = MazeGenerator.Initialize m.
Proof.
  assert (forall m0,
            (forall p, ~ in_grid p ->
               MazeGenerator.grid m0 !! p = MazeGenerator.grid m !! p) ->
            MazeGenerator.pathStack m0 = MazeGenerator.pathStack m ->
            MazeGenerator.Initialize m0 = MazeGenerator.Initialize m) as Hsame.
  { intros m0 Hout Hst.
    assert (MazeGenerator.grid (MazeGenerator.Initialize m0)
            = MazeGenerator.grid (MazeGenerator.Initialize m)) as Hgrid.
    { apply map_eq. intros p. rewrite !grid_Initialize.
      case_decide; [done|by apply Hout]. }
    unfold MazeGenerator.Initialize in *. simpl in Hgrid. by rewrite Hgrid, Hst. }
  split; [intros p Hp; by apply deref_Initialize|]. split; [done|].
  split; [|split; [|split; [exact Hsame|]]].
  - apply count_if_none. intros p Hp%elem_of_cells.
    unfold visited. by rewrite deref_Initialize.
  - unfold open_pairs.
    rewrite !count_if_none; [done| |]; intros p Hp%elem_of_cells;
      unfold passage, wall; rewrite deref_Initialize by done; simpl;
      by rewrite !andb_false_r.
  - apply Hsame; [|done]. intros p Hp. rewrite grid_Initialize.
    by apply decide_False.
Qed.

Lemma Initialize_resets_witness :
  MazeGenerator.Initialize (settings := grid2x2)
    (MazeGenerator.update (0, 0) (Cell.set_visited true) fresh_maze)
  = MazeGenerator.Initialize (settings := grid2x2) fresh_maze.
Proof.
  apply (proj1 (proj2 (proj2 (proj2 (proj2
           (Initialize_resets grid2x2 fresh_maze)))))); [|reflexivity].
  intros p Hp. simpl. apply lookup_insert_ne. intros <-. apply Hp.
  unfold in_grid. simpl. lia.
Defined.

(** ** The neighbours GetUnvisitedNeighbour chooses from *)

Section NeighbourMore.
Context {settings : MazeSettings}.


End NeighbourMore.



(** ** What CheckWallCollision looks at *)

Section CollisionMore.
Context {settings : MazeSettings}.

(** inside the grid the answer is the disjunction of the four tests, each on
    one wall flag of the cell the position falls in *)
Lemma CheckWallCollision_in_grid m newPos :
  in_grid (cell_index newPos) ->
  MazeGenerator.CheckWallCollision m newPos
  = (wall m (cell_index newPos) Top
       && F32.gtb (localY newPos) (F32.sub CELL_SIZE PLAYER_RADIUS))
    || (wall m (cell_index newPos) Right
          && F32.gtb (localX newPos) (F32.sub CELL_SIZE PLAYER_RADIUS))
    || (wall m (cell_index newPos) Bottom && F32.ltb (localY newPos) PLAYER_RADIUS)
    || (wall m (cell_index newPos) Left && F32.ltb (localX newPos) PLAYER_RADIUS).
Proof.
  intros Hin. unfold MazeGenerator.CheckWallCollision, wall, localX, localY.
  unfold cell_index in *. cbv zeta in *. cbn [fst snd index].
  rewrite GetCell_Some by done.
  repeat match goal with
  | |- context [if ?c then true else _] => destruct c
  end; reflexivity.
Qed.

Lemma clear_of_sides_free m newPos :
  in_grid (cell_index newPos) -> clear_of_sides newPos = true ->
  MazeGenerator.CheckWallCollision m newPos = false.
Proof.
  intros Hin Hclear. rewrite CheckWallCollision_in_grid by done.
  unfold clear_of_sides in Hclear. rewrite !andb_true_iff in Hclear.
  destruct Hclear as [[[H1 H2] H3] H4].
  apply negb_true_iff in H1, H2, H3, H4. rewrite H1, H2, H3, H4.
  by rewrite !andb_false_r.
Qed.

End CollisionMore.

(** X6.  For a position whose cell indices fall in the grid,
    [CheckWallCollision] depends on the maze through the four wall flags of
    that one cell only: no flag set means not blocked, blocked means a flag
    of that cell is set, and a position farther than the player's radius
    from the four sides of its cell is not blocked whatever the walls. *)
Theorem CheckWallCollision_reads_own_cell (settings : MazeSettings)
    (m : MazeGenerator.t) (newPos : Vector3) :
  in_grid (cell_index newPos) ->
  (forall m0,
      (forall d, wall m0 (cell_index newPos) d = wall m (cell_index newPos) d) ->
      MazeGenerator.CheckWallCollision m0 newPos
      = MazeGenerator.CheckWallCollision m newPos)
  /\ ((forall d, wall m (cell_index newPos) d = false) ->
      MazeGenerator.CheckWallCollision m newPos = false)
  /\ (MazeGenerator.CheckWallCollision m newPos = true ->
      exists d, wall m (cell_index newPos) d = true)
  /\ (clear_of_sides newPos = true ->
      MazeGenerator.CheckWallCollision m newPos = false).
Proof.
  intros Hin. split; [|split; [|split]].
  - intros m0 Hsame. rewrite !CheckWallCollision_in_grid by done.
    by rewrite !Hsame.
  - intros Hopen. rewrite CheckWallCollision_in_grid by done.
    by rewrite !Hopen.
  - rewrite CheckWallCollision_in_grid by done. intros Hblocked.
    destruct (wall m (cell_index newPos) Top) eqn:H0; [by exists Top|].
    destruct (wall m (cell_index newPos) Right) eqn:H1; [by exists Right|].
    destruct (wall m (cell_index newPos) Bottom) eqn:H2; [by exists Bottom|].
    destruct (wall m (cell_index newPos) Left) eqn:H3; [by exists Left|].
    done.
  - by apply clear_of_sides_free.
Qed.

Lemma CheckWallCollision_reads_own_cell_witness :
  MazeGenerator.CheckWallCollision (settings := program_settings)
    (MazeGenerator.Initialize (settings := program_settings) fresh_maze)
    (Vector3.mk F32.zero (F32.lit 1 4) F32.zero) = false.
Proof.
  apply (proj2 (proj2 (proj2
           (CheckWallCollision_reads_own_cell program_settings
              (MazeGenerator.Initialize (settings := program_settings) fresh_maze)
              (Vector3.mk F32.zero (F32.lit 1 4) F32.zero)
              ltac:(vm_compute; repeat split; discriminate))))).
  vm_compute. reflexivity.
Defined.

(** ** Spawn positions *)

Lemma centre_ok_checked : forallb centre_ok (seqZ 0 checked_size) = true.
Proof. vm_compute. reflexivity. Qed.

Lemma centre_ok_below k : 0 <= k < checked_size -> centre_ok k = true.
Proof.
  intros Hk. pose proof centre_ok_checked as Hall.
  rewrite forallb_forall in Hall. apply Hall.
  apply list_elem_of_In, elem_of_seqZ. lia.
Qed.

Section SpawnMore.
Context {settings : MazeSettings}.

Lemma cell_centre_free m p :
  MAZE_WIDTH <= checked_size -> MAZE_HEIGHT <= checked_size -> in_grid p ->
  cell_index (cell_centre p) = p
  /\ MazeGenerator.CheckWallCollision m (cell_centre p) = false.
Proof.
  intros HW HH Hp. destruct p as [x y].
  assert (centre_ok x = true) as Hx
    by (apply centre_ok_below; unfold in_grid in Hp; simpl in Hp; lia).
  assert (centre_ok y = true) as Hy
    by (apply centre_ok_below; unfold in_grid in Hp; simpl in Hp; lia).
  unfold centre_ok in Hx, Hy. cbv zeta in Hx, Hy.
  rewrite !andb_true_iff in Hx, Hy.
  destruct Hx as [[Hix Hgx] Hlx], Hy as [[Hiy Hgy] Hly].
  apply Z.eqb_eq in Hix, Hiy.
  assert (cell_index (cell_centre (x, y)) = (x, y)) as Hidx.
  { unfold cell_index, cell_centre. cbv zeta. cbn [fst snd Vector3.x Vector3.z].
    by rewrite Hix, Hiy. }
  split; [done|]. apply clear_of_sides_free; [by rewrite Hidx|].
  unfold clear_of_sides, localX, localY. rewrite Hidx.
  unfold cell_centre. cbn [fst snd Vector3.x Vector3.z].
  rewrite Hix in Hgx, Hlx. rewrite Hiy in Hgy, Hly.
  by rewrite Hgx, Hgy, Hlx, Hly.
Qed.

Lemma GetRandomSpawnPosition_centre s :
  1 <= MAZE_WIDTH -> 1 <= MAZE_HEIGHT ->
  exists p, in_grid p
            /\ (MazeGenerator.GetRandomSpawnPosition s).1 = cell_centre p
            /\ (MazeGenerator.GetRandomSpawnPosition s).2 = advance 2 s.
Proof.
  intros HW HH.
  exists (Z.of_nat (s 0%nat) `rem` MAZE_WIDTH, Z.of_nat (s 1%nat) `rem` MAZE_HEIGHT).
  split; [|split; reflexivity].
  unfold in_grid. simpl.
  pose proof (Z.rem_bound_pos (Z.of_nat (s 0%nat)) MAZE_WIDTH).
  pose proof (Z.rem_bound_pos (Z.of_nat (s 1%nat)) MAZE_HEIGHT). lia.
Qed.

End SpawnMore.

(** X7.  On a grid of at most 4096 cells each way (the program's is 20 by
    20) the position [GetRandomSpawnPosition] returns falls in the cell it
    was drawn for, a cell of the grid, and [CheckWallCollision] reports it
    not blocked whatever the walls of the maze: nothing is ever spawned
    inside a wall. *)
Theorem spawn_position_is_free (settings : MazeSettings)
    (m : MazeGenerator.t) (s : RNG) :
  1 <= MAZE_WIDTH <= checked_size -> 1 <= MAZE_HEIGHT <= checked_size ->
  let pos := (MazeGenerator.GetRandomSpawnPosition s).1 in
  in_grid (cell_index pos)
  /\ pos = cell_centre (cell_index pos)
  /\ MazeGenerator.CheckWallCollision m pos = false.
Proof.
  intros HW HH pos.
  destruct (GetRandomSpawnPosition_centre s) as (p & Hp & Hpos & _); [lia..|].
  fold pos in Hpos. rewrite Hpos.
  destruct (cell_centre_free m p) as [Hidx Hfree]; [lia..|done|].
  rewrite Hidx. done.
Qed.

Lemma spawn_position_is_free_witness :
  let pos :=
    (MazeGenerator.GetRandomSpawnPosition (settings := program_settings)
       (draws [25; 7]%nat)).1 in
  in_grid (settings := program_settings) (cell_index pos)
  /\ pos = cell_centre (cell_index pos)
  /\ MazeGenerator.CheckWallCollision (settings := program_settings)
       example_maze pos = false.
Proof.
  apply (spawn_position_is_free program_settings example_maze
           (draws [25; 7]%nat)); vm_compute; split; discriminate.
Defined.

(** ** What Think and Update leave alone *)

(** X8.  [Think] never moves an NPC and never changes its speed or colour.
    While the timer plus the frame time does not exceed 0.5 it only stores
    that sum in the timer: target and state stay and no draw is taken.  When
    it fires the timer restarts from zero. *)
Theorem Think_never_moves (settings : MazeSettings) (maze : MazeGenerator.t)
    (playerPos : Vector3) (deltaTime : float) (npc : NPC.t) (s : RNG) :
  let npc' := (NPC.Think maze playerPos deltaTime npc s).1 in
  let s' := (NPC.Think maze playerPos deltaTime npc s).2 in
  NPC.position npc' = NPC.position npc
  /\ NPC.speed npc' = NPC.speed npc
  /\ NPC.color npc' = NPC.color npc
  /\ (F32.gtb (F32.add (NPC.thinkTimer npc) deltaTime) (F32.lit 1 2) = false ->
      NPC.thinkTimer npc' = F32.add (NPC.thinkTimer npc) deltaTime
      /\ NPC.target npc' = NPC.target npc
      /\ NPC.state npc' = NPC.state npc
      /\ s' = s)
  /\ (F32.gtb (F32.add (NPC.thinkTimer npc) deltaTime) (F32.lit 1 2) = true ->
      NPC.thinkTimer npc' = F32.zero).
Proof.
  unfold NPC.Think. cbv zeta.
  destruct (F32.gtb (F32.add (NPC.thinkTimer npc) deltaTime) (F32.lit 1 2)).
  - destruct (F32.ltb _ (F32.of_int 3)); [by repeat split|].
    destruct (F32.ltb _ (F32.of_int 5)); [by repeat split|].
    destruct (rand s) as [r s1]. destruct (r `rem` 10 <? 3); [|by repeat split].
    destruct (MazeGenerator.GetRandomSpawnPosition s1). by repeat split.
  - by repeat split.
Qed.

Lemma Think_never_moves_witness :
  let npc' :=
    (NPC.Think (settings := program_settings) example_maze
       (Vector3.mk F32.zero F32.zero F32.zero) example_deltaTime example_npc
       (draws [])).1 in
  NPC.thinkTimer npc' = F32.add (NPC.thinkTimer example_npc) example_deltaTime
  /\ NPC.target npc' = NPC.target example_npc
  /\ NPC.state npc' = NPC.state example_npc
  /\ (NPC.Think (settings := program_settings) example_maze
        (Vector3.mk F32.zero F32.zero F32.zero) example_deltaTime example_npc
        (draws [])).2 = draws [].
Proof.
  apply (proj1 (proj2 (proj2 (proj2
           (Think_never_moves program_settings example_maze
              (Vector3.mk F32.zero F32.zero F32.zero) example_deltaTime
              example_npc (draws [])))))).
  vm_compute. reflexivity.
Defined.

Section UpdateMore.
Context {settings : MazeSettings}.

Lemma Update_cases maze deltaTime npc s :
  NPC.Update maze deltaTime npc s = (npc, s)
  \/ (MazeGenerator.CheckWallCollision maze
        (NPC.position (NPC.Update maze deltaTime npc s).1) = false
      /\ NPC.target (NPC.Update maze deltaTime npc s).1 = NPC.target npc
      /\ (NPC.Update maze deltaTime npc s).2 = s)
  \/ (NPC.position (NPC.Update maze deltaTime npc s).1 = NPC.position npc
      /\ NPC.target (NPC.Update maze deltaTime npc s).1
         = (MazeGenerator.GetRandomSpawnPosition s).1
      /\ (NPC.Update maze deltaTime npc s).2
         = (MazeGenerator.GetRandomSpawnPosition s).2).
Proof.
  unfold NPC.Update. cbv zeta.
  destruct (F32.gtb _ (F32.lit 1 10)); [|by left]. right.
  set (newPos :=
    Vector3Add (NPC.position npc)
      (Vector3Scale
         (Vector3Normalize (Vector3Subtract (NPC.target npc) (NPC.position npc)))
         (F32.mul (NPC.speed npc) deltaTime))).
  destruct (MazeGenerator.CheckWallCollision maze newPos) eqn:Hblocked;
    simpl negb; cbv iota.
  - right. by destruct (MazeGenerator.GetRandomSpawnPosition s).
  - left. done.
Qed.

Lemma Update_stays_free maze deltaTime npc s :
  MazeGenerator.CheckWallCollision maze (NPC.position npc) = false ->
  MazeGenerator.CheckWallCollision maze
    (NPC.position (NPC.Update maze deltaTime npc s).1) = false.
Proof.
  intros Hfree.
  destruct (Update_cases maze deltaTime npc s) as [->|[[? _]|[-> _]]]; done.
Qed.

Lemma Think_position maze playerPos deltaTime npc s :
  NPC.position (NPC.Think maze playerPos deltaTime npc s).1 = NPC.position npc.
Proof.
  unfold NPC.Think.
  repeat match goal with
  | |- context [if ?c then _ else _] => destruct c
  | |- context [let '(_, _) := ?p in _] => destruct p
  end; reflexivity.
Qed.

Lemma run_call_stays_free maze st c :
  update_on maze c ->
  MazeGenerator.CheckWallCollision maze (NPC.position st.1) = false ->
  MazeGenerator.CheckWallCollision maze (NPC.position (NPC.run_call st c).1)
  = false.
Proof.
  intros Hon Hfree. destruct c as [m playerPos deltaTime|m deltaTime]; simpl.
  - by rewrite Think_position.
  - simpl in Hon. subst m. by apply Update_stays_free.
Qed.

Lemma run_stays_free maze calls : forall st,
  Forall (update_on maze) calls ->
  MazeGenerator.CheckWallCollision maze (NPC.position st.1) = false ->
  MazeGenerator.CheckWallCollision maze
    (NPC.position (foldl NPC.run_call st calls).1) = false.
Proof.
  induction calls as [|c calls IH]; intros st Hon Hfree; [done|].
  apply Forall_cons in Hon as [Hc Hon]. simpl.
  apply IH; [done|]. by apply run_call_stays_free.
Qed.

End UpdateMore.

(** X9.  [Update] never changes the state, the think timer, the speed or
    the colour of an NPC, and does nothing at all (no draw either) when the
    target is not more than 0.1 away.  It either leaves the NPC where it is
    or moves it to a position that [CheckWallCollision] reports free, so an
    NPC on a free position is on a free position afterwards; the target
    changes only when the NPC has not moved. *)
Theorem Update_never_enters_a_wall (settings : MazeSettings)
    (maze : MazeGenerator.t) (deltaTime : float) (npc : NPC.t) (s : RNG) :
  let npc' := (NPC.Update maze deltaTime npc s).1 in
  NPC.state npc' = NPC.state npc
  /\ NPC.thinkTimer npc' = NPC.thinkTimer npc
  /\ NPC.speed npc' = NPC.speed npc
  /\ NPC.color npc' = NPC.color npc
  /\ (F32.gtb
        (Vector3Length (Vector3Subtract (NPC.target npc) (NPC.position npc)))
        (F32.lit 1 10) = false ->
      NPC.Update maze deltaTime npc s = (npc, s))
  /\ (NPC.position npc' = NPC.position npc
      \/ MazeGenerator.CheckWallCollision maze (NPC.position npc') = false)
  /\ (MazeGenerator.CheckWallCollision maze (NPC.position npc) = false ->
      MazeGenerator.CheckWallCollision maze (NPC.position npc') = false)
  /\ (NPC.target npc' <> NPC.target npc ->
      NPC.position npc' = NPC.position npc).
Proof.
  intros npc'.
  assert (NPC.state npc' = NPC.state npc /\ NPC.thinkTimer npc' = NPC.thinkTimer npc
          /\ NPC.speed npc' = NPC.speed npc /\ NPC.color npc' = NPC.color npc)
    as (H1 & H2 & H3 & H4).
  { unfold npc', NPC.Update. cbv zeta.
    destruct (F32.gtb _ (F32.lit 1 10)); [|done].
    destruct (negb _); [done|].
    by destruct (MazeGenerator.GetRandomSpawnPosition s). }
  split; [done|]. split; [done|]. split; [done|]. split; [done|].
  split; [|split; [|split]].
  - intros Hnear. unfold NPC.Update. cbv zeta. by rewrite Hnear.
  - unfold npc'.
    destruct (Update_cases maze deltaTime npc s) as [->|[[? _]|[-> _]]]; auto.
  - by apply Update_stays_free.
  - unfold npc'.
    destruct (Update_cases maze deltaTime npc s) as [->|[(_ & -> & _)|[-> _]]];
      done.
Qed.

Lemma Update_never_enters_a_wall_witness :
  MazeGenerator.CheckWallCollision (settings := program_settings) example_maze
    (NPC.position
       (NPC.Update (settings := program_settings) example_maze
          example_deltaTime example_npc (draws [3; 4]%nat)).1) = false.
Proof.
  apply (proj1 (proj2 (proj2 (proj2 (proj2 (proj2 (proj2
           (Update_never_enters_a_wall program_settings example_maze
              example_deltaTime example_npc (draws [3; 4]%nat))))))))).
  vm_compute. reflexivity.
Defined.

(** X10.  In a maze that does not change, an NPC that stands on a free
    position stands on a free position after any sequence of [Think] and
    [Update] calls, whatever the player does and whatever is drawn. *)
Theorem NPC_stays_free (settings : MazeSettings) (maze : MazeGenerator.t)
    (calls : list NPC.call) (npc : NPC.t) (s : RNG) :
  Forall (update_on maze) calls ->
  MazeGenerator.CheckWallCollision maze (NPC.position npc) = false ->
  MazeGenerator.CheckWallCollision maze
    (NPC.position (NPC.run calls npc s).1) = false.
Proof.
  intros Hon Hfree. by apply (run_stays_free maze calls (npc, s)).
Qed.

Lemma NPC_stays_free_witness :
  MazeGenerator.CheckWallCollision (settings := program_settings) example_maze
    (NPC.position
       (NPC.run (settings := program_settings)
          [NPC.CallThink example_maze (Vector3.mk F32.zero F32.zero F32.zero)
             (F32.of_int 1);
           NPC.CallUpdate example_maze example_deltaTime]
          example_npc (draws [])).1) = false.
Proof.
  apply (NPC_stays_free program_settings example_maze
           [NPC.CallThink example_maze (Vector3.mk F32.zero F32.zero F32.zero)
              (F32.of_int 1);
            NPC.CallUpdate example_maze example_deltaTime]
           example_npc (draws [])).
  - repeat apply Forall_cons_2; [exact I|reflexivity|apply Forall_nil_2].
  - vm_compute. reflexivity.
Defined.

(** ** The player *)

Section PlayerMore.
Context {settings : MazeSettings}.

Lemma CheckWallCollision_free_in_grid maze newPos :
  MazeGenerator.CheckWallCollision maze newPos = false ->
  in_grid (cell_index newPos).
Proof.
  intros Hfree. apply in_gridb_true.
  destruct (in_gridb (cell_index newPos)) eqn:Hin; [done|].
  apply in_gridb_false in Hin.
  unfold MazeGenerator.CheckWallCollision in Hfree. cbv zeta in Hfree.
  unfold cell_index in Hin. cbv zeta in Hin.
  by rewrite GetCell_None in Hfree.
Qed.

Lemma PlayerMove_both_free maze position velocity :
  MazeGenerator.CheckWallCollision maze position = false ->
  cell_index (newPosX position velocity) = cell_index position ->
  cell_index (newPosZ position velocity) = cell_index position ->
  MazeGenerator.CheckWallCollision maze (newPosX position velocity) = false ->
  MazeGenerator.CheckWallCollision maze (newPosZ position velocity) = false ->
  MazeGenerator.CheckWallCollision maze
    (Vector3.mk (F32.add (Vector3.x position) (Vector3.x velocity))
                (Vector3.y position)
                (F32.add (Vector3.z position) (Vector3.z velocity))) = false.
Proof.
  intros Hfree HcX HcZ HX HZ.
  pose proof (CheckWallCollision_free_in_grid _ _ Hfree) as Hin.
  set (final := Vector3.mk _ _ _).
  assert (cell_index final = cell_index position) as Hc.
  { change (cell_index final)
      with ((cell_index (newPosX position velocity)).1,
            (cell_index (newPosZ position velocity)).2).
    rewrite HcX, HcZ. by destruct (cell_index position). }
  rewrite CheckWallCollision_in_grid in HX, HZ |- * by congruence.
  change (localX final) with (localX (newPosX position velocity)).
  change (localY final) with (localY (newPosZ position velocity)).
  rewrite HcX in HX. rewrite HcZ in HZ. rewrite Hc.
  rewrite !orb_false_iff in HX, HZ |- *.
  destruct HX as [[[_ HX1] _] HX3], HZ as [[[HZ0 _] HZ2] _]. done.
Qed.

End PlayerMore.

(** X11.  "Apply movement with collision" of [main] never changes the
    height of the player, leaves the player in place when both candidates are
    blocked, and lets the player slide: when only one candidate is blocked the
    other one is taken whole.  A player on a free position whose two
    candidates stay in the cell the player is in ends on a free position. *)
Theorem PlayerMove_slides (settings : MazeSettings) (maze : MazeGenerator.t)
    (position velocity : Vector3) :
  let blockedX :=
    MazeGenerator.CheckWallCollision maze (newPosX position velocity) in
  let blockedZ :=
    MazeGenerator.CheckWallCollision maze (newPosZ position velocity) in
  Vector3.y (PlayerMove maze position velocity) = Vector3.y position
  /\ (blockedX = true -> blockedZ = true ->
      PlayerMove maze position velocity = position)
  /\ (blockedX = true -> blockedZ = false ->
      PlayerMove maze position velocity = newPosZ position velocity)
  /\ (blockedX = false -> blockedZ = true ->
      PlayerMove maze position velocity = newPosX position velocity)
  /\ (MazeGenerator.CheckWallCollision maze position = false ->
      cell_index (newPosX position velocity) = cell_index position ->
      cell_index (newPosZ position velocity) = cell_index position ->
      MazeGenerator.CheckWallCollision maze (PlayerMove maze position velocity)
      = false).
Proof.
  intros blockedX blockedZ.
  assert (PlayerMove maze position velocity
          = if blockedX
            then if blockedZ then position else newPosZ position velocity
            else if blockedZ then newPosX position velocity
                 else Vector3.mk
                        (F32.add (Vector3.x position) (Vector3.x velocity))
                        (Vector3.y position)
                        (F32.add (Vector3.z position) (Vector3.z velocity)))
    as Hmove.
  { unfold PlayerMove, blockedX, blockedZ, newPosX, newPosZ. cbv zeta.
    by destruct (MazeGenerator.CheckWallCollision maze _),
                (MazeGenerator.CheckWallCollision maze _). }
  rewrite Hmove. clear Hmove.
  split; [by destruct blockedX, blockedZ|].
  split; [by intros -> ->|]. split; [by intros -> ->|].
  split; [by intros -> ->|].
  intros Hfree HcX HcZ.
  destruct blockedX eqn:HX, blockedZ eqn:HZ; try done.
  by apply PlayerMove_both_free.
Qed.

Lemma PlayerMove_slides_witness :
  MazeGenerator.CheckWallCollision (settings := program_settings) example_maze
    (PlayerMove (settings := program_settings) example_maze
       (NPC.position example_npc) (NPC.move example_deltaTime example_npc))
  = false.
Proof.
  apply (proj2 (proj2 (proj2 (proj2
           (PlayerMove_slides program_settings example_maze
              (NPC.position example_npc)
              (NPC.move example_deltaTime example_npc))))));
    vm_compute; reflexivity.
Defined.

Lemma MouseLook_pitch (mouseDelta : Vector2.t) (player : Player.t) :
  F32.gtb (Player.pitch (MouseLook mouseDelta player)) (F32.lit 3 2) = false
  /\ F32.ltb (Player.pitch (MouseLook mouseDelta player)) (F32.lit (-3) 2)
     = false.
Proof.
  unfold MouseLook. cbv zeta. cbn [Player.pitch].
  set (pitch := F32.sub (Player.pitch player) _).
  assert (F32.ltb (F32.lit 3 2) (F32.lit (-3) 2) = false) as H1
    by (vm_compute; reflexivity).
  assert (F32.gtb (F32.lit 3 2) (F32.lit 3 2) = false) as H2
    by (vm_compute; reflexivity).
  assert (F32.gtb (F32.lit (-3) 2) (F32.lit 3 2) = false) as H3
    by (vm_compute; reflexivity).
  assert (F32.ltb (F32.lit (-3) 2) (F32.lit (-3) 2) = false) as H4
    by (vm_compute; reflexivity).
  destruct (F32.gtb pitch (F32.lit 3 2)) eqn:Hhigh.
  - rewrite H1. by rewrite H2, H1.
  - destruct (F32.ltb pitch (F32.lit (-3) 2)) eqn:Hlow.
    + by rewrite H3, H4.
    + by rewrite Hhigh, Hlow.
Qed.

(** X12.  After "Mouse look" of [main] the pitch is never above 1.5 and
    never below -1.5, whatever the mouse delta and the old pitch are
    (infinities included; a pitch that is not a number stays so, and both
    comparisons are false for it), and the position of the player is
    untouched. *)
Theorem MouseLook_clamps_pitch (mouseDelta : Vector2.t) (player : Player.t) :
  let player' := MouseLook mouseDelta player in
  F32.gtb (Player.pitch player') (F32.lit 3 2) = false
  /\ F32.ltb (Player.pitch player') (F32.lit (-3) 2) = false
  /\ Player.position player' = Player.position player.
Proof.
  intros player'.
  destruct (MouseLook_pitch mouseDelta player) as [Hhigh Hlow].
  by repeat split.
Qed.

(** ** The NPCs of a frame *)

Section FrameMore.
Context {settings : MazeSettings}.

Lemma Think_speed_color maze playerPos deltaTime npc s :
  NPC.speed (NPC.Think maze playerPos deltaTime npc s).1 = NPC.speed npc
  /\ NPC.color (NPC.Think maze playerPos deltaTime npc s).1 = NPC.color npc.
Proof.
  unfold NPC.Think.
  repeat match goal with
  | |- context [if ?c then _ else _] => destruct c
  | |- context [let '(_, _) := ?p in _] => destruct p
  end; by split.
Qed.

Lemma Update_speed_color maze deltaTime npc s :
  NPC.speed (NPC.Update maze deltaTime npc s).1 = NPC.speed npc
  /\ NPC.color (NPC.Update maze deltaTime npc s).1 = NPC.color npc.
Proof.
  unfold NPC.Update.
  repeat match goal with
  | |- context [if ?c then _ else _] => destruct c
  | |- context [let '(_, _) := ?p in _] => destruct p
  end; by split.
Qed.

Lemma Think_Update_kept maze playerPos deltaTime npc s :
  kept_by_frame maze npc
    (NPC.Update maze deltaTime
       (NPC.Think maze playerPos deltaTime npc s).1
       (NPC.Think maze playerPos deltaTime npc s).2).1.
Proof.
  set (thought := NPC.Think maze playerPos deltaTime npc s).
  destruct (Think_speed_color maze playerPos deltaTime npc s) as [Hs Hc].
  destruct (Update_speed_color maze deltaTime thought.1 thought.2) as [Hs' Hc'].
  split; [by rewrite Hs'|]. split; [by rewrite Hc'|]. split.
  - intros Hfree. apply Update_stays_free. unfold thought.
    by rewrite Think_position.
  - intros Hst. rewrite Update_state.
    by apply (run_call_not_patrolling (npc, s)
                (NPC.CallThink maze playerPos deltaTime)).
Qed.

Lemma UpdateNPCs_kept maze playerPos deltaTime npcs : forall s,
  Forall2 (kept_by_frame maze) npcs
    (UpdateNPCs maze playerPos deltaTime npcs s).1.
Proof.
  induction npcs as [|npc rest IH]; intros s; [by constructor|].
  simpl.
  pose proof (Think_Update_kept maze playerPos deltaTime npc s) as Hkept.
  destruct (NPC.Think maze playerPos deltaTime npc s) as [npc1 s1].
  simpl in Hkept.
  destruct (NPC.Update maze deltaTime npc1 s1) as [npc2 s2]. simpl in Hkept.
  specialize (IH s2).
  destruct (UpdateNPCs maze playerPos deltaTime rest s2) as [rest' s3].
  by constructor.
Qed.

End FrameMore.

(** X13.  "Update NPCs" of [main] keeps the number and the order of the
    NPCs, and for each of them the speed and the colour; an NPC on a free
    position of the maze is on a free position after the frame, and an NPC
    that is not PATROLLING is not PATROLLING after it. *)
Theorem UpdateNPCs_keeps (settings : MazeSettings) (maze : MazeGenerator.t)
    (playerPos : Vector3) (deltaTime : float) (npcs : list NPC.t) (s : RNG) :
  let npcs' := (UpdateNPCs maze playerPos deltaTime npcs s).1 in
  length npcs' = length npcs
  /\ Forall2 (kept_by_frame maze) npcs npcs'.
Proof.
  intros npcs'.
  pose proof (UpdateNPCs_kept maze playerPos deltaTime npcs s) as Hkept.
  split; [|done]. symmetry. by eapply Forall2_length.
Qed.

(** ** The indicator above an NPC *)

(** X14.  [NPC::Draw] makes three calls: [DrawSphere] at the position of
    the NPC with radius [PLAYER_RADIUS * 1.5f] in the colour of the NPC,
    [DrawSphereWires] with the same centre and radius, 8 rings and 8 slices,
    in BLACK, and [DrawSphere] with radius 0.1 at the position plus
    (0, 0.5, 0) in the colour of the state.  The colour of the state tells
    the four states apart and is never the WHITE the local starts with.  Two
    NPCs are drawn with the same calls exactly when they agree on position,
    colour and state: target, speed and think timer are not shown. *)
Theorem NPC_Draw_shows_position_colour_state (npc npc' : NPC.t) :
  NPC_Draw npc
  = [DrawSphere (NPC.position npc) (F32.mul PLAYER_RADIUS (F32.lit 3 2))
       (NPC.color npc);
     DrawSphereWires (NPC.position npc) (F32.mul PLAYER_RADIUS (F32.lit 3 2))
       8 8 BLACK;
     DrawSphere
       (Vector3Add (NPC.position npc)
          (Vector3.mk F32.zero (F32.lit 1 2) F32.zero))
       (F32.lit 1 10) (stateColor (NPC.state npc))]
  /\ (stateColor (NPC.state npc) = stateColor (NPC.state npc') ->
      NPC.state npc = NPC.state npc')
  /\ stateColor (NPC.state npc) <> WHITE
  /\ (NPC_Draw npc = NPC_Draw npc'
      <-> NPC.position npc = NPC.position npc'
          /\ NPC.color npc = NPC.color npc'
          /\ NPC.state npc = NPC.state npc').
Proof.
  assert (stateColor (NPC.state npc) = stateColor (NPC.state npc') ->
          NPC.state npc = NPC.state npc') as Hinj
    by (by destruct (NPC.state npc), (NPC.state npc')).
  split; [reflexivity|]. split; [done|].
  split; [by destruct (NPC.state npc)|].
  unfold NPC_Draw. cbv zeta. split.
  - intros Heq. inversion Heq as [[Hpos Hcolor Hstate]].
    split; [done|]. split; [done|]. by apply Hinj.
  - intros (Hpos & Hcolor & Hstate). by rewrite Hpos, Hcolor, Hstate.
Qed.

Lemma NPC_Draw_shows_position_colour_state_witness :
  NPC_Draw example_npc
  = NPC_Draw
      (NPC.mk (NPC.position example_npc) (NPC.position example_npc)
              (F32.of_int 5) (F32.of_int 1) (NPC.color example_npc)
              (NPC.state example_npc)).
Proof.
  apply (proj2 (proj2 (proj2 (proj2
           (NPC_Draw_shows_position_colour_state example_npc
              (NPC.mk (NPC.position example_npc) (NPC.position example_npc)
                      (F32.of_int 5) (F32.of_int 1) (NPC.color example_npc)
                      (NPC.state example_npc))))))).
  repeat split.
Defined.

(** ** The walls Draw draws *)

Lemma count_if_negb {A} (f : A -> bool) l :
  (count_if f l + count_if (fun x => negb (f x)) l)%nat = length l.
Proof. induction l as [|x l IH]; simpl; [done|]. destruct (f x); simpl; lia. Qed.

Lemma count_if_filter {A} (f : A -> bool) l :
  count_if f l = length (filter (fun x => f x = true) l).
Proof.
  induction l as [|x l IH]; simpl; [done|].
  rewrite filter_cons. destruct (f x) eqn:Hx; case_decide; try done.
  simpl. by rewrite IH.
Qed.

(** counting the elements of [l] that pass [f] by listing them *)
Lemma count_if_listed {A} (f : A -> bool) (l l' : list A) :
  NoDup l -> NoDup l' ->
  (forall x, x ∈ l' <-> x ∈ l /\ f x = true) ->
  count_if f l = length l'.
Proof.
  intros Hl Hl' Hiff. rewrite count_if_filter.
  apply Permutation_length, NoDup_Permutation; [by apply NoDup_filter|done|].
  intros x. rewrite list_elem_of_filter, Hiff. tauto.
Qed.

Lemma length_bind_count4 {A B} (f : A -> list B) (a b c d : A -> bool) l k :
  (forall x, length (f x)
             = (k * ((if a x then 1 else 0) + (if b x then 1 else 0)
                     + (if c x then 1 else 0) + (if d x then 1 else 0)))%nat) ->
  length (l ≫= f)
  = (k * (count_if a l + count_if b l + count_if c l + count_if d l))%nat.
Proof.
  intros Hf. induction l as [|x l IH]; [simpl; lia|].
  rewrite bind_cons, length_app, Hf, IH. simpl. lia.
Qed.

Section DrawMore.
Context {settings : MazeSettings}.

Lemma count_bottom_row :
  1 <= MAZE_HEIGHT ->
  count_if (fun p : ptr => p.2 =? 0) MazeGenerator.cells = Z.to_nat MAZE_WIDTH.
Proof.
  intros HH.
  rewrite (count_if_listed _ _ ((fun x => (x, 0)) <$> seqZ 0 MAZE_WIDTH)).
  - by rewrite length_fmap, length_seqZ.
  - apply NoDup_cells.
  - apply NoDup_fmap_2; [|apply NoDup_seqZ]. by intros x1 x2 [= ->].
  - intros [x y]. rewrite list_elem_of_fmap, elem_of_cells. unfold in_grid. simpl.
    split.
    + intros (x0 & [= -> ->] & Hx%elem_of_seqZ). split; [lia|done].
    + intros [[Hx Hy] ->%Z.eqb_eq]. exists x. split; [done|].
      apply elem_of_seqZ. lia.
Qed.

Lemma count_left_column :
  1 <= MAZE_WIDTH ->
  count_if (fun p : ptr => p.1 =? 0) MazeGenerator.cells = Z.to_nat MAZE_HEIGHT.
Proof.
  intros HW.
  rewrite (count_if_listed _ _ ((fun y => (0, y)) <$> seqZ 0 MAZE_HEIGHT)).
  - by rewrite length_fmap, length_seqZ.
  - apply NoDup_cells.
  - apply NoDup_fmap_2; [|apply NoDup_seqZ]. by intros y1 y2 [= ->].
  - intros [x y]. rewrite list_elem_of_fmap, elem_of_cells. unfold in_grid. simpl.
    split.
    + intros (y0 & [= -> ->] & Hy%elem_of_seqZ). split; [lia|done].
    + intros [[Hx Hy] ->%Z.eqb_eq]. exists y. split; [done|].
      apply elem_of_seqZ. lia.
Qed.

Lemma length_Draw_body m x y :
  length (Draw_body m x y)
  = (2 * ((if wall m (x, y) Top then 1 else 0)
          + (if wall m (x, y) Right then 1 else 0)
          + (if (y =? 0)%Z && wall m (x, y) Bottom then 1 else 0)
          + (if (x =? 0)%Z && wall m (x, y) Left then 1 else 0)))%nat.
Proof.
  unfold Draw_body, wall. cbv zeta. cbn [index].
  rewrite !length_app.
  repeat match goal with
  | |- context [if ?c then DrawWall _ _ else []] => destruct c
  end; reflexivity.
Qed.

Lemma length_Draw_generated m :
  1 <= MAZE_WIDTH -> 1 <= MAZE_HEIGHT -> generated m ->
  Z.of_nat (length (Draw m))
  = 2 * (MAZE_WIDTH * MAZE_HEIGHT + MAZE_WIDTH + MAZE_HEIGHT + 1).
Proof.
  intros HW HH Hgen. unfold Draw.
  rewrite (length_bind_count4 _
             (fun p => wall m p Top) (fun p => wall m p Right)
             (fun p : ptr => (p.2 =? 0) && wall m p Bottom)
             (fun p : ptr => (p.1 =? 0) && wall m p Left) _ 2)
    by (intros [x y]; apply length_Draw_body).
  assert (forall d, count_if (fun p => wall m p d) MazeGenerator.cells
                    = (length MazeGenerator.cells
                       - count_if (fun p => passage m p d) MazeGenerator.cells)%nat)
    as Hside.
  { intros d.
    pose proof (count_if_negb (fun p => passage m p d) MazeGenerator.cells) as Hn.
    cbv beta in Hn.
    rewrite <- (count_if_ext (fun p => negb (passage m p d))
                  (fun p => wall m p d)) in Hn; [lia|].
    intros p Hp%elem_of_cells.
    pose proof (generated_passage m p d Hgen Hp) as Hiff.
    destruct (wall m p d), (passage m p d); try done.
    - by destruct Hiff as [_ Hback]; specialize (Hback eq_refl).
    - by destruct Hiff as [Hforth _]; specialize (Hforth eq_refl). }
  assert (forall d (f : ptr -> bool),
            (forall p, in_grid p -> f p = true -> ~ in_grid (neighbour p d)) ->
            count_if (fun p => f p && wall m p d) MazeGenerator.cells
            = count_if f MazeGenerator.cells) as Hrim.
  { intros d f Hf. apply count_if_ext. intros p Hp%elem_of_cells.
    destruct (f p) eqn:Hfp; [|done]. simpl.
    destruct (wall m p d) eqn:Hw; [done|].
    destruct (gen_walls _ Hgen p d Hp Hw) as [Hn _].
    by destruct (Hf p Hp Hfp). }
  rewrite (Hside Top), (Hside Right).
  rewrite (Hrim Bottom (fun p => p.2 =? 0)), (Hrim Left (fun p => p.1 =? 0)).
  - rewrite count_bottom_row, count_left_column by done.
    pose proof (gen_count _ Hgen) as Hcount.
    unfold count_visited in Hcount.
    rewrite count_if_all in Hcount
      by (intros p Hp; by apply (gen_visited _ Hgen), elem_of_cells).
    unfold open_pairs in Hcount. rewrite length_cells in *. nia.
  - intros [x y] _ Hx%Z.eqb_eq. simpl in Hx. subst x.
    unfold in_grid. simpl. lia.
  - intros [x y] _ Hy%Z.eqb_eq. simpl in Hy. subst y.
    unfold in_grid. simpl. lia.
Qed.

End DrawMore.

Section DrawnMore.
Context {settings : MazeSettings}.

Lemma NoDup_sides : NoDup sides.
Proof.
  unfold sides. apply NoDup_ListNoDup.
  repeat constructor; simpl; intuition discriminate.
Qed.

Lemma elem_of_drawn m p d :
  (p, d) ∈ drawn m
  <-> in_grid p /\ wall m p d = true /\ drawn_from p d = true.
Proof.
  unfold drawn. rewrite list_elem_of_bind. split.
  - intros (q & Hin & Hq%elem_of_cells).
    apply list_elem_of_fmap in Hin as (e & [= -> ->] & He).
    apply list_elem_of_filter in He as [He _].
    apply andb_true_iff in He. tauto.
  - intros (Hp & Hw & Hd). exists p. split; [|by apply elem_of_cells].
    apply list_elem_of_fmap. exists d. split; [done|].
    apply list_elem_of_filter. split; [by rewrite Hw, Hd|].
    unfold sides. destruct d;
      solve [repeat first [apply list_elem_of_here | apply list_elem_of_further]].
Qed.

Lemma NoDup_drawn m : NoDup (drawn m).
Proof.
  unfold drawn. apply NoDup_bind; [| |apply NoDup_cells].
  - intros p1 p2 [q d] _ _ H1 H2.
    apply list_elem_of_fmap in H1 as (d1 & [= -> ->] & _).
    by apply list_elem_of_fmap in H2 as (d2 & [= -> ->] & _).
  - intros p _. apply NoDup_fmap_2; [by intros d1 d2 [= ->]|].
    apply NoDup_filter, NoDup_sides.
Qed.

Lemma wall_calls_calls p d :
  wall_calls (p, d)
  = [DrawCubeV (wall_position p d) (wall_size d) DARKGRAY;
     DrawCubeWiresV (wall_position p d) (wall_size d) BLACK].
Proof. by destruct d. Qed.

Lemma Draw_body_drawn m x y :
  Draw_body m x y
  = (pair (x, y)
       <$> filter (fun d => wall m (x, y) d && drawn_from (x, y) d = true) sides)
    ≫= wall_calls.
Proof.
  unfold Draw_body, sides, wall. cbv zeta.
  rewrite !filter_cons, filter_nil. cbn [index drawn_from fst snd].
  rewrite !andb_true_r.
  rewrite (andb_comm (Cell.walls _ 2%nat)), (andb_comm (Cell.walls _ 3%nat)).
  destruct (Cell.walls (MazeGenerator.deref m (x, y)) 0%nat),
           (Cell.walls (MazeGenerator.deref m (x, y)) 1%nat),
           ((y =? 0) && Cell.walls (MazeGenerator.deref m (x, y)) 2%nat),
           ((x =? 0) && Cell.walls (MazeGenerator.deref m (x, y)) 3%nat);
    repeat case_decide; try done.
Qed.

Lemma bind_bind {A B C} (f : A -> list B) (g : B -> list C) (l : list A) :
  (l ≫= f) ≫= g = l ≫= (fun x => f x ≫= g).
Proof.
  induction l as [|x l IH]; [done|].
  by rewrite !bind_cons, bind_app, IH.
Qed.

Lemma Draw_drawn m : Draw m = (drawn m ≫= wall_calls).
Proof.
  unfold Draw, drawn. rewrite bind_bind.
  induction MazeGenerator.cells as [|[x y] l IH]; [done|].
  by rewrite !bind_cons, IH, Draw_body_drawn.
Qed.

Lemma length_bind_wall_calls (l : list (ptr * side)) :
  length (l ≫= wall_calls) = (2 * length l)%nat.
Proof.
  induction l as [|[p d] l IH]; [done|].
  rewrite bind_cons, length_app, IH, wall_calls_calls. simpl. lia.
Qed.

Lemma length_drawn_generated m :
  1 <= MAZE_WIDTH -> 1 <= MAZE_HEIGHT -> generated m ->
  Z.of_nat (length (drawn m))
  = MAZE_WIDTH * MAZE_HEIGHT + MAZE_WIDTH + MAZE_HEIGHT + 1.
Proof.
  intros HW HH Hgen.
  pose proof (length_Draw_generated m HW HH Hgen) as Hlen.
  rewrite Draw_drawn, length_bind_wall_calls in Hlen. lia.
Qed.

(** a wall that stands is drawn from one of its two sides and not from the
    other *)
Lemma drawn_once m p d :
  symmetric m -> in_grid p -> wall m p d = true ->
  ((p, d) ∈ drawn m /\ (neighbour p d, opposite d) ∉ drawn m)
  \/ (((p, d) ∉ drawn m) /\ (neighbour p d, opposite d) ∈ drawn m).
Proof.
  intros Hsym Hp Hw. rewrite !elem_of_drawn.
  assert (in_grid (neighbour p d) ->
          wall m (neighbour p d) (opposite d) = true) as Hback.
  { intros Hn. destruct (Hsym p d Hp Hn) as [_ Hiff].
    destruct (wall m (neighbour p d) (opposite d)); [done|].
    by rewrite Hiff in Hw. }
  destruct p as [x y]. unfold in_grid in *. cbn [fst snd] in *.
  destruct d; cbn [neighbour opposite drawn_from fst snd] in *.
  - left. split; [done|]. intros (Hn & _ & Hy%Z.eqb_eq). lia.
  - left. split; [done|]. intros (Hn & _ & Hx%Z.eqb_eq). lia.
  - destruct (Z.eqb_spec y 0) as [->|Hy].
    + left. split; [done|]. intros (Hn & _). lia.
    + right. split; [by intros (_ & _ & ?)|].
      assert (0 <= x < MAZE_WIDTH /\ 0 <= y - 1 < MAZE_HEIGHT) as Hn by lia.
      split; [done|]. split; [by apply Hback|done].
  - destruct (Z.eqb_spec x 0) as [->|Hx].
    + left. split; [done|]. intros (Hn & _). lia.
    + right. split; [by intros (_ & _ & ?)|].
      assert (0 <= x - 1 < MAZE_WIDTH /\ 0 <= y < MAZE_HEIGHT) as Hn by lia.
      split; [done|]. split; [by apply Hback|done].
Qed.

End DrawnMore.

(** X15.  [Draw] draws every wall of the generated maze once.  Its calls
    are those of [DrawWall] for the walls of the list [drawn], wall after
    wall: one [DrawCubeV] in DARKGRAY and one [DrawCubeWiresV] in BLACK with
    the same position and size.  On the maze [Generate] leaves no wall is
    twice in that list; the list holds
    [MAZE_WIDTH * MAZE_HEIGHT + MAZE_WIDTH + MAZE_HEIGHT + 1] walls, as many
    as a grid has wall segments left when a spanning tree of passages is
    opened ([2 * W * H + W + H] segments less [W * H - 1] passages); every
    wall in it is a set flag of a cell of the grid; and every set flag of a
    cell of the grid is drawn from that cell or from the cell beyond the
    wall, never from both. *)
Theorem Draw_draws_each_wall_once (settings : MazeSettings)
    (m : MazeGenerator.t) (s : RNG) :
  1 <= MAZE_WIDTH -> 1 <= MAZE_HEIGHT ->
  MazeGenerator.pathStack m = [] ->
  exists m' s',
    (forall fuel, 2 * MAZE_WIDTH * MAZE_HEIGHT <= Z.of_nat fuel ->
       MazeGenerator.Generate fuel (MazeGenerator.Initialize m) s
       = Some (m', s'))
    /\ Draw m' = (drawn m' ≫= wall_calls)
    /\ (forall p d,
          wall_calls (p, d)
          = [DrawCubeV (wall_position p d) (wall_size d) DARKGRAY;
             DrawCubeWiresV (wall_position p d) (wall_size d) BLACK])
    /\ NoDup (drawn m')
    /\ Z.of_nat (length (drawn m'))
       = MAZE_WIDTH * MAZE_HEIGHT + MAZE_WIDTH + MAZE_HEIGHT + 1
    /\ Z.of_nat (length (Draw m'))
       = 2 * (MAZE_WIDTH * MAZE_HEIGHT + MAZE_WIDTH + MAZE_HEIGHT + 1)
    /\ (forall p d, (p, d) ∈ drawn m' -> in_grid p /\ wall m' p d = true)
    /\ (forall p d, in_grid p -> wall m' p d = true ->
          ((p, d) ∈ drawn m' /\ (neighbour p d, opposite d) ∉ drawn m')
          \/ (((p, d) ∉ drawn m') /\ (neighbour p d, opposite d) ∈ drawn m')).
Proof.
  intros HW HH Hst.
  destruct (Generate_correct m s HW HH Hst) as (m' & s' & Hgen & Hm').
  exists m', s'. split; [done|].
  split; [apply Draw_drawn|]. split; [apply wall_calls_calls|].
  split; [apply NoDup_drawn|]. split; [by apply length_drawn_generated|].
  split; [by apply length_Draw_generated|]. split.
  - intros p d Hin%elem_of_drawn. tauto.
  - intros p d Hp Hw. apply drawn_once; [|done..].
    by apply generated_symmetric.
Qed.

Lemma Draw_draws_each_wall_once_witness :
  exists m' s',
    (forall fuel, 2 * 2 * 2 <= Z.of_nat fuel ->
       MazeGenerator.Generate (settings := grid2x2) fuel
         (MazeGenerator.Initialize (settings := grid2x2) fresh_maze)
         (draws [1; 0; 0]%nat) = Some (m', s'))
    /\ Draw (settings := grid2x2) m'
       = (drawn (settings := grid2x2) m' ≫= wall_calls)
    /\ (forall p d,
          wall_calls (p, d)
          = [DrawCubeV (wall_position p d) (wall_size d) DARKGRAY;
             DrawCubeWiresV (wall_position p d) (wall_size d) BLACK])
    /\ NoDup (drawn (settings := grid2x2) m')
    /\ Z.of_nat (length (drawn (settings := grid2x2) m')) = 2 * 2 + 2 + 2 + 1
    /\ Z.of_nat (length (Draw (settings := grid2x2) m'))
       = 2 * (2 * 2 + 2 + 2 + 1)
    /\ (forall p d, (p, d) ∈ drawn (settings := grid2x2) m' ->
          in_grid (settings := grid2x2) p /\ wall m' p d = true)
    /\ (forall p d, in_grid (settings := grid2x2) p -> wall m' p d = true ->
          ((p, d) ∈ drawn (settings := grid2x2) m'
           /\ (neighbour p d, opposite d) ∉ drawn (settings := grid2x2) m')
          \/ (((p, d) ∉ drawn (settings := grid2x2) m')
              /\ (neighbour p d, opposite d) ∈ drawn (settings := grid2x2) m')).
Proof.
  apply (Draw_draws_each_wall_once grid2x2 fresh_maze (draws [1; 0; 0]%nat));
    [simpl; lia|simpl; lia|reflexivity].
Defined.

(** ** Startup and regeneration *)

Section WorldMore.
Context {settings : MazeSettings}.

Lemma Generate_full m s :
  1 <= MAZE_WIDTH -> 1 <= MAZE_HEIGHT -> MazeGenerator.pathStack m = [] ->
  exists m' s',
    (forall fuel, 2 * MAZE_WIDTH * MAZE_HEIGHT <= Z.of_nat fuel ->
       MazeGenerator.Generate fuel (MazeGenerator.Initialize m) s
       = Some (m', s'))
    /\ generated m'
    /\ forall i, s' i = s (Z.to_nat (MAZE_WIDTH * MAZE_HEIGHT - 1) + i)%nat.
Proof.
  intros HW HH Hst.
  destruct (Generate_correct m s HW HH Hst) as (m' & s' & Hgen & Hm').
  exists m', s'. split; [done|]. split; [done|]. intros i.
  destruct (Generate_more (Z.to_nat (2 * MAZE_WIDTH * MAZE_HEIGHT)) m s m' s'
              HW HH Hst) as [_ Hdraws]; [apply Hgen; lia|].
  rewrite Hdraws. unfold count_visited.
  rewrite count_if_all, length_cells.
  - f_equal. nia.
  - intros p Hp. by apply (gen_visited _ Hm'), elem_of_cells.
Qed.

Lemma spawn_on_cell_centre s :
  1 <= MAZE_WIDTH -> 1 <= MAZE_HEIGHT ->
  on_cell_centre (MazeGenerator.GetRandomSpawnPosition s).1.
Proof.
  intros HW HH.
  destruct (GetRandomSpawnPosition_centre s HW HH) as (p & Hp & Hpos & _).
  by exists p.
Qed.

Lemma on_cell_centre_free maze v :
  MAZE_WIDTH <= checked_size -> MAZE_HEIGHT <= checked_size ->
  on_cell_centre v -> MazeGenerator.CheckWallCollision maze v = false.
Proof.
  intros HW HH (p & Hp & ->). by apply cell_centre_free.
Qed.

Lemma to_uchar_component r :
  0 <= r -> 55 <= to_uchar (r `rem` 200 + 55) <= 254.
Proof.
  intros Hr. unfold to_uchar.
  pose proof (Z.rem_bound_pos r 200 Hr ltac:(lia)).
  rewrite Z.mod_small; lia.
Qed.

Lemma CreateNPC_created s :
  1 <= MAZE_WIDTH -> 1 <= MAZE_HEIGHT ->
  created (CreateNPC s).1 /\ (CreateNPC s).2 = advance 7 s.
Proof.
  intros HW HH. split; [|reflexivity].
  unfold created.
  change (CreateNPC s).1
    with (NPC.new (MazeGenerator.GetRandomSpawnPosition s).1
            (MazeGenerator.GetRandomSpawnPosition (advance 2 s)).1
            (Color.mk (to_uchar (Z.of_nat (s 4%nat) `rem` 200 + 55))
                      (to_uchar (Z.of_nat (s 5%nat) `rem` 200 + 55))
                      (to_uchar (Z.of_nat (s 6%nat) `rem` 200 + 55)) 255)).
  cbn [NPC.new NPC.position NPC.target NPC.speed NPC.thinkTimer NPC.state
       NPC.color Color.r Color.g Color.b Color.a].
  split; [by apply (spawn_on_cell_centre s)|].
  split; [by apply (spawn_on_cell_centre (advance 2 s))|].
  do 3 (split; [reflexivity|]).
  repeat split; apply to_uchar_component; lia.
Qed.

Lemma CreateNPCs_unfold n s :
  CreateNPCs (S n) s
  = let '(npc, s1) := CreateNPC s in
    let '(rest, s2) := CreateNPCs n s1 in
    (npc :: rest, s2).
Proof. reflexivity. Qed.

Lemma CreateNPCs_created n : forall s,
  1 <= MAZE_WIDTH -> 1 <= MAZE_HEIGHT ->
  length (CreateNPCs n s).1 = n
  /\ Forall created (CreateNPCs n s).1
  /\ forall i, (CreateNPCs n s).2 i = s (7 * n + i)%nat.
Proof.
  induction n as [|n IH]; intros s HW HH.
  - simpl. split; [done|]. split; [constructor|done].
  - rewrite CreateNPCs_unfold.
    destruct (CreateNPC_created s HW HH) as [Hnpc Hrng].
    destruct (CreateNPC s) as [npc s1]. cbn [fst snd] in Hnpc, Hrng. subst s1.
    destruct (IH (advance 7 s) HW HH) as (Hlen & Hall & Hdraws).
    destruct (CreateNPCs n (advance 7 s)) as [rest s2]. cbn [fst snd] in *.
    split; [simpl; by rewrite Hlen|]. split; [by constructor|].
    intros i. rewrite Hdraws. unfold advance. f_equal. lia.
Qed.

Lemma RespawnNPCs_unfold npc rest s :
  RespawnNPCs (npc :: rest) s
  = let '(rest', s2) := RespawnNPCs rest (advance 4 s) in
    (NPC.mk (MazeGenerator.GetRandomSpawnPosition s).1
            (MazeGenerator.GetRandomSpawnPosition (advance 2 s)).1
            (NPC.speed npc) (NPC.thinkTimer npc) (NPC.color npc) (NPC.state npc)
     :: rest', s2).
Proof. reflexivity. Qed.

Lemma RespawnNPCs_respawned npcs : forall s,
  1 <= MAZE_WIDTH -> 1 <= MAZE_HEIGHT ->
  Forall2 respawned npcs (RespawnNPCs npcs s).1
  /\ forall i, (RespawnNPCs npcs s).2 i = s (4 * length npcs + i)%nat.
Proof.
  induction npcs as [|npc rest IH]; intros s HW HH.
  - simpl. split; [constructor|done].
  - rewrite RespawnNPCs_unfold.
    pose proof (spawn_on_cell_centre s HW HH) as Hpos.
    pose proof (spawn_on_cell_centre (advance 2 s) HW HH) as Htarget.
    destruct (IH (advance 4 s) HW HH) as [Hall Hdraws].
    destruct (RespawnNPCs rest (advance 4 s)) as [rest' s2]. cbn [fst snd] in *.
    split; [by constructor|].
    intros i. rewrite Hdraws. unfold advance. simpl length. f_equal. lia.
Qed.

End WorldMore.

(** X16.  [main], before its first frame, on a grid of at most 4096 cells
    each way: the maze is generated (every cell reachable from (0,0), stack
    empty), the player stands on the centre of a cell, free of walls, looking
    along yaw 0 and pitch 0, and there are ten NPCs, each on a free cell
    centre, with a cell centre as target, WANDERING, speed 2, timer 0 and
    colour components between 55 and 254.  All this takes
    [MAZE_WIDTH * MAZE_HEIGHT - 1 + 72] draws. *)
Theorem Startup_world (settings : MazeSettings) (s : RNG) :
  1 <= MAZE_WIDTH <= checked_size -> 1 <= MAZE_HEIGHT <= checked_size ->
  exists w s',
    (forall fuel, 2 * MAZE_WIDTH * MAZE_HEIGHT <= Z.of_nat fuel ->
       Startup fuel s = Some (w, s'))
    /\ MazeGenerator.pathStack (maze w) = []
    /\ (forall p, in_grid p -> reachable (maze w) (0, 0) p)
    /\ on_cell_centre (Player.position (player w))
    /\ MazeGenerator.CheckWallCollision (maze w) (Player.position (player w))
       = false
    /\ Player.yaw (player w) = F32.zero /\ Player.pitch (player w) = F32.zero
    /\ length (npcs w) = 10%nat
    /\ Forall (fun npc =>
                 created npc
                 /\ MazeGenerator.CheckWallCollision (maze w) (NPC.position npc)
                    = false) (npcs w)
    /\ forall i,
         s' i = advance (Z.to_nat (MAZE_WIDTH * MAZE_HEIGHT - 1) + 72) s i.
Proof.
  intros [HW HW'] [HH HH'].
  destruct (Generate_full fresh_maze s HW HH eq_refl)
    as (m' & s1 & Hgen & Hm' & Hs1).
  pose proof (spawn_on_cell_centre s1 HW HH) as Hplayer.
  destruct (CreateNPCs_created 10 (advance 2 s1) HW HH) as (Hlen & Hall & Hs2).
  exists (mkWorld m'
            (Player.mk (MazeGenerator.GetRandomSpawnPosition s1).1
                       F32.zero F32.zero)
            (CreateNPCs 10 (advance 2 s1)).1),
         (CreateNPCs 10 (advance 2 s1)).2.
  split; [|split; [|split; [|split; [|split; [|split; [|split; [|split; [|split]]]]]]]].
  - intros fuel Hfuel. unfold Startup. rewrite (Hgen fuel Hfuel).
    change (MazeGenerator.GetRandomSpawnPosition s1)
      with ((MazeGenerator.GetRandomSpawnPosition s1).1, advance 2 s1).
    cbv iota beta. by destruct (CreateNPCs 10 (advance 2 s1)).
  - apply (gen_stack _ Hm').
  - apply (gen_reach _ Hm').
  - done.
  - by apply on_cell_centre_free.
  - done.
  - done.
  - done.
  - simpl. eapply Forall_impl; [exact Hall|]. intros npc Hnpc.
    split; [done|]. apply on_cell_centre_free; [done..|]. by destruct Hnpc.
  - intros i. rewrite Hs2. unfold advance. rewrite Hs1. f_equal. lia.
Qed.

Lemma Startup_world_witness :
  exists w s',
    (forall fuel, 2 * 2 * 2 <= Z.of_nat fuel ->
       Startup (settings := grid2x2) fuel (draws [1; 0; 0]%nat) = Some (w, s'))
    /\ MazeGenerator.pathStack (maze w) = []
    /\ (forall p, in_grid (settings := grid2x2) p ->
                  reachable (settings := grid2x2) (maze w) (0, 0) p)
    /\ on_cell_centre (settings := grid2x2) (Player.position (player w))
    /\ MazeGenerator.CheckWallCollision (settings := grid2x2) (maze w)
         (Player.position (player w)) = false
    /\ Player.yaw (player w) = F32.zero /\ Player.pitch (player w) = F32.zero
    /\ length (npcs w) = 10%nat
    /\ Forall (fun npc =>
                 created (settings := grid2x2) npc
                 /\ MazeGenerator.CheckWallCollision (settings := grid2x2)
                      (maze w) (NPC.position npc) = false) (npcs w)
    /\ forall i, s' i = advance (Z.to_nat (2 * 2 - 1) + 72) (draws [1; 0; 0]%nat) i.
Proof.
  apply (Startup_world grid2x2 (draws [1; 0; 0]%nat)); by vm_compute.
Defined.

(** X17.  "Regenerate maze on R key" of [main], on a grid of at most 4096
    cells each way and a world whose maze has an empty stack: the new maze is
    generated afresh and its stack is empty again; the player is put on a
    free cell centre and keeps yaw and pitch; every NPC is put on a free cell
    centre with a cell centre as target and keeps its state, its think timer,
    its speed and its colour; the number of NPCs stays.  This takes
    [MAZE_WIDTH * MAZE_HEIGHT - 1 + 2 + 4 * n] draws for [n] NPCs. *)
Theorem Regenerate_world (settings : MazeSettings) (w : World) (s : RNG) :
  1 <= MAZE_WIDTH <= checked_size -> 1 <= MAZE_HEIGHT <= checked_size ->
  MazeGenerator.pathStack (maze w) = [] ->
  exists w' s',
    (forall fuel, 2 * MAZE_WIDTH * MAZE_HEIGHT <= Z.of_nat fuel ->
       Regenerate fuel w s = Some (w', s'))
    /\ MazeGenerator.pathStack (maze w') = []
    /\ (forall p, in_grid p -> reachable (maze w') (0, 0) p)
    /\ on_cell_centre (Player.position (player w'))
    /\ MazeGenerator.CheckWallCollision (maze w') (Player.position (player w'))
       = false
    /\ Player.yaw (player w') = Player.yaw (player w)
    /\ Player.pitch (player w') = Player.pitch (player w)
    /\ Forall2 respawned (npcs w) (npcs w')
    /\ Forall (fun npc =>
                 MazeGenerator.CheckWallCollision (maze w') (NPC.position npc)
                 = false) (npcs w')
    /\ forall i,
         s' i = advance (Z.to_nat (MAZE_WIDTH * MAZE_HEIGHT - 1) + 2
                         + 4 * length (npcs w)) s i.
Proof.
  intros [HW HW'] [HH HH'] Hst.
  destruct (Generate_full (maze w) s HW HH Hst) as (m' & s1 & Hgen & Hm' & Hs1).
  pose proof (spawn_on_cell_centre s1 HW HH) as Hplayer.
  destruct (RespawnNPCs_respawned (npcs w) (advance 2 s1) HW HH) as [Hall Hs2].
  exists (mkWorld m'
            (Player.mk (MazeGenerator.GetRandomSpawnPosition s1).1
                       (Player.yaw (player w)) (Player.pitch (player w)))
            (RespawnNPCs (npcs w) (advance 2 s1)).1),
         (RespawnNPCs (npcs w) (advance 2 s1)).2.
  split; [|split; [|split; [|split; [|split; [|split; [|split; [|split; [|split]]]]]]]].
  - intros fuel Hfuel. unfold Regenerate. rewrite (Hgen fuel Hfuel).
    change (MazeGenerator.GetRandomSpawnPosition s1)
      with ((MazeGenerator.GetRandomSpawnPosition s1).1, advance 2 s1).
    cbv iota beta. by destruct (RespawnNPCs (npcs w) (advance 2 s1)).
  - apply (gen_stack _ Hm').
  - apply (gen_reach _ Hm').
  - done.
  - by apply on_cell_centre_free.
  - done.
  - done.
  - done.
  - simpl. apply Forall2_Forall_r with (P := respawned) (l := npcs w); [done|].
    apply Forall_forall. intros npc _ npc' Hnpc.
    apply on_cell_centre_free; [done..|]. by destruct Hnpc.
  - intros i. rewrite Hs2. unfold advance. rewrite Hs1. f_equal. lia.
Qed.

Lemma Regenerate_world_witness :
  exists w' s',
    (forall fuel, 2 * 2 * 2 <= Z.of_nat fuel ->
       Regenerate (settings := grid2x2) fuel
         (mkWorld fresh_maze (Player.mk (cell_centre (0, 0)) F32.zero F32.zero)
                  [example_npc])
         (draws [1; 0; 0]%nat) = Some (w', s'))
    /\ MazeGenerator.pathStack (maze w') = []
    /\ (forall p, in_grid (settings := grid2x2) p ->
                  reachable (settings := grid2x2) (maze w') (0, 0) p)
    /\ on_cell_centre (settings := grid2x2) (Player.position (player w'))
    /\ MazeGenerator.CheckWallCollision (settings := grid2x2) (maze w')
         (Player.position (player w')) = false
    /\ Player.yaw (player w') = F32.zero
    /\ Player.pitch (player w') = F32.zero
    /\ Forall2 (respawned (settings := grid2x2)) [example_npc] (npcs w')
    /\ Forall (fun npc =>
                 MazeGenerator.CheckWallCollision (settings := grid2x2)
                   (maze w') (NPC.position npc) = false) (npcs w')
    /\ forall i,
         s' i = advance (Z.to_nat (2 * 2 - 1) + 2 + 4 * 1) (draws [1; 0; 0]%nat) i.
Proof.
  apply (Regenerate_world grid2x2
           (mkWorld fresh_maze (Player.mk (cell_centre (0, 0)) F32.zero F32.zero)
                    [example_npc])
           (draws [1; 0; 0]%nat)); by vm_compute.
Defined.

(** ** The whole session *)

Section SessionMore.
Context {settings : MazeSettings}.

Lemma Forall2_transfer {A} (P Q : A -> Prop) (R : A -> A -> Prop) l l' :
  (forall x y, P x -> R x y -> Q y) ->
  Forall P l -> Forall2 R l l' -> Forall Q l'.
Proof.
  intros HPQ Hl Hll'. revert Hl.
  induction Hll' as [|x y l l' Hxy _ IH]; intros Hl; [constructor|].
  inversion Hl; subst. constructor; [by eapply HPQ|by apply IH].
Qed.

Lemma Startup_inv s :
  1 <= MAZE_WIDTH <= checked_size -> 1 <= MAZE_HEIGHT <= checked_size ->
  exists w s',
    (forall fuel, 2 * MAZE_WIDTH * MAZE_HEIGHT <= Z.of_nat fuel ->
       Startup fuel s = Some (w, s'))
    /\ world_inv w.
Proof.
  intros [HW HW'] [HH HH'].
  destruct (Generate_full fresh_maze s HW HH eq_refl)
    as (m' & s1 & Hgen & Hm' & Hs1).
  destruct (CreateNPCs_created 10 (advance 2 s1) HW HH) as (Hlen & Hall & Hs2).
  exists (mkWorld m'
            (Player.mk (MazeGenerator.GetRandomSpawnPosition s1).1
                       F32.zero F32.zero)
            (CreateNPCs 10 (advance 2 s1)).1),
         (CreateNPCs 10 (advance 2 s1)).2.
  split.
  - intros fuel Hfuel. unfold Startup. rewrite (Hgen fuel Hfuel).
    change (MazeGenerator.GetRandomSpawnPosition s1)
      with ((MazeGenerator.GetRandomSpawnPosition s1).1, advance 2 s1).
    cbv iota beta. by destruct (CreateNPCs 10 (advance 2 s1)).
  - unfold world_inv. cbn [maze player npcs Player.pitch].
    split; [done|]. split; [by vm_compute|]. split; [by vm_compute|].
    split; [done|].
    eapply Forall_impl; [exact Hall|]. intros npc Hnpc.
    destruct Hnpc as (Hpos & _ & Hspeed & _ & Hstate & _).
    split; [by apply on_cell_centre_free|]. split; [|done].
    rewrite Hstate. discriminate.
Qed.

Lemma Regenerate_inv w s :
  1 <= MAZE_WIDTH <= checked_size -> 1 <= MAZE_HEIGHT <= checked_size ->
  MazeGenerator.pathStack (maze w) = [] ->
  F32.gtb (Player.pitch (player w)) (F32.lit 3 2) = false ->
  F32.ltb (Player.pitch (player w)) (F32.lit (-3) 2) = false ->
  length (npcs w) = 10%nat ->
  Forall (fun npc => NPC.state npc <> NPC.PATROLLING
                     /\ NPC.speed npc = F32.of_int 2) (npcs w) ->
  exists w' s',
    (forall fuel, 2 * MAZE_WIDTH * MAZE_HEIGHT <= Z.of_nat fuel ->
       Regenerate fuel w s = Some (w', s'))
    /\ world_inv w'.
Proof.
  intros [HW HW'] [HH HH'] Hst Hhigh Hlow Hlen Hall.
  destruct (Generate_full (maze w) s HW HH Hst) as (m' & s1 & Hgen & Hm' & Hs1).
  destruct (RespawnNPCs_respawned (npcs w) (advance 2 s1) HW HH) as [Hresp _].
  exists (mkWorld m'
            (Player.mk (MazeGenerator.GetRandomSpawnPosition s1).1
                       (Player.yaw (player w)) (Player.pitch (player w)))
            (RespawnNPCs (npcs w) (advance 2 s1)).1),
         (RespawnNPCs (npcs w) (advance 2 s1)).2.
  split.
  - intros fuel Hfuel. unfold Regenerate. rewrite (Hgen fuel Hfuel).
    change (MazeGenerator.GetRandomSpawnPosition s1)
      with ((MazeGenerator.GetRandomSpawnPosition s1).1, advance 2 s1).
    cbv iota beta. by destruct (RespawnNPCs (npcs w) (advance 2 s1)).
  - unfold world_inv. cbn [maze player npcs Player.pitch].
    split; [done|]. split; [done|]. split; [done|].
    split; [by rewrite <- (Forall2_length _ _ _ Hresp)|].
    eapply Forall2_transfer; [|exact Hall|exact Hresp].
    intros npc npc' [Hstate Hspeed] (Hpos & _ & Hspeed' & _ & _ & Hstate').
    split; [by apply on_cell_centre_free|].
    by rewrite Hstate', Hspeed'.
Qed.

Lemma Frame_inv input w s :
  1 <= MAZE_WIDTH <= checked_size -> 1 <= MAZE_HEIGHT <= checked_size ->
  world_inv w ->
  exists w' s',
    (forall fuel, 2 * MAZE_WIDTH * MAZE_HEIGHT <= Z.of_nat fuel ->
       Frame fuel input w s = Some (w', s'))
    /\ world_inv w'.
Proof.
  intros HW HH (Hgen & _ & _ & Hlen & Hall).
  unfold Frame. cbv zeta.
  destruct (MouseLook_pitch (Input.mouseDelta input) (player w))
    as [Hhigh Hlow].
  set (player1 := MouseLook (Input.mouseDelta input) (player w)) in *.
  set (position := PlayerMove (maze w) (Player.position player1)
                     (Input.velocity input)).
  cbn [Player.position].
  pose proof (UpdateNPCs_kept (maze w) position (Input.deltaTime input)
                (npcs w) s) as Hkept.
  destruct (UpdateNPCs (maze w) position (Input.deltaTime input) (npcs w) s)
    as [npcs1 s1].
  cbn [fst] in Hkept.
  assert (Forall (fun npc =>
            MazeGenerator.CheckWallCollision (maze w) (NPC.position npc) = false
            /\ NPC.state npc <> NPC.PATROLLING
            /\ NPC.speed npc = F32.of_int 2) npcs1) as Hall1.
  { eapply Forall2_transfer; [|exact Hall|exact Hkept].
    intros npc npc' (Hfree & Hstate & Hspeed) (Hspeed' & _ & Hfree' & Hstate').
    split; [by apply Hfree'|]. split; [by apply Hstate'|].
    by rewrite Hspeed'. }
  assert (length npcs1 = 10%nat) as Hlen1
    by (by rewrite <- (Forall2_length _ _ _ Hkept)).
  destruct (Input.keyR input).
  - apply Regenerate_inv; try done.
    + apply (gen_stack _ Hgen).
    + cbn [npcs]. eapply Forall_impl; [exact Hall1|]. by intros npc (_ & ? & ?).
  - eexists _, _. split; [done|].
    unfold world_inv. cbn [maze player npcs Player.pitch]. done.
Qed.

Lemma Frames_inv inputs : forall w s,
  1 <= MAZE_WIDTH <= checked_size -> 1 <= MAZE_HEIGHT <= checked_size ->
  world_inv w ->
  exists w' s',
    (forall fuel, 2 * MAZE_WIDTH * MAZE_HEIGHT <= Z.of_nat fuel ->
       Frames fuel inputs w s = Some (w', s'))
    /\ world_inv w'.
Proof.
  induction inputs as [|input rest IH]; intros w s HW HH Hw.
  - by exists w, s.
  - destruct (Frame_inv input w s HW HH Hw) as (w1 & s1 & Hframe & Hw1).
    destruct (IH w1 s1 HW HH Hw1) as (w2 & s2 & Hframes & Hw2).
    exists w2, s2. split; [|done].
    intros fuel Hfuel. simpl. rewrite (Hframe fuel Hfuel). by apply Hframes.
Qed.

End SessionMore.

(** X18.  A whole session of [main], on a grid of at most 4096 cells each
    way: whatever the host answers frame after frame (frame times, mouse
    deltas, velocities, R pressed or not) and whatever [rand] draws, the
    start and every frame come to an end, and between two frames the maze is
    a generated one (a spanning tree, stack empty), the pitch is neither
    above 1.5 nor below -1.5, there are ten NPCs, and every NPC is on a
    position free of walls, is not PATROLLING and has speed 2. *)
Theorem Session_keeps_world (settings : MazeSettings)
    (inputs : list Input.t) (s : RNG) :
  1 <= MAZE_WIDTH <= checked_size -> 1 <= MAZE_HEIGHT <= checked_size ->
  exists w s',
    (forall fuel, 2 * MAZE_WIDTH * MAZE_HEIGHT <= Z.of_nat fuel ->
       Session fuel inputs s = Some (w, s'))
    /\ world_inv w.
Proof.
  intros HW HH.
  destruct (Startup_inv s HW HH) as (w0 & s0 & Hstart & Hw0).
  destruct (Frames_inv inputs w0 s0 HW HH Hw0) as (w & s' & Hframes & Hw).
  exists w, s'. split; [|done].
  intros fuel Hfuel. unfold Session. rewrite (Hstart fuel Hfuel).
  by apply Hframes.
Qed.

Lemma Session_keeps_world_witness :
  exists w s',
    (forall fuel, 2 * 2 * 2 <= Z.of_nat fuel ->
       Session (settings := grid2x2) fuel
         [Input.mk example_deltaTime (Vector2.mk F32.zero F32.zero)
                   (NPC.move example_deltaTime example_npc) true]
         (draws [1; 0; 0]%nat) = Some (w, s'))
    /\ world_inv (settings := grid2x2) w.
Proof.
  apply (Session_keeps_world grid2x2
           [Input.mk example_deltaTime (Vector2.mk F32.zero F32.zero)
                     (NPC.move example_deltaTime example_npc) true]
           (draws [1; 0; 0]%nat)); by vm_compute.
Defined.
